(** * DShot telemetry decoding and the RPM notch-filter scheduler

  A shallow embedding of [src/main/drivers/pwm_output_dshot.c] (telemetry
  decoders and the per-frame telemetry hand-off) and of
  [src/main/sensors/rpm_filter.c] (the adaptive notch bank and its
  round-robin coefficient scheduler), with the properties the
  specification states about them.

  C integers are [Z] with their wrap-around written out; C [float] is IEEE
  binary32, taken from the parameterised [SpecFloat] of the standard
  library; C arrays are total maps from their index, and the one buffer
  whose bounds matter (the captured telemetry edges) is a list read
  through a partial lookup. *)

From Stdlib Require Import ZArith List Lia Bool FinFun.
From Stdlib Require Import Floats.SpecFloat.
Import ListNotations.

Local Open Scope Z_scope.

(** ** Fixed-width integers *)

Module CInt.

Definition uint8 (z : Z) : Z := z mod 2 ^ 8.
Definition uint16 (z : Z) : Z := z mod 2 ^ 16.
Definition uint32 (z : Z) : Z := z mod 2 ^ 32.

(** Conversion of a 32-bit pattern to [int] (two's complement). *)
Definition int32 (z : Z) : Z :=
  let u := z mod 2 ^ 32 in
  if u <? 2 ^ 31 then u else u - 2 ^ 32.

Definition INT_MAX : Z := 2 ^ 31 - 1.

End CInt.

(** ** A small error monad: [None] is a fault (out-of-bounds read, division
  by zero, signed overflow). *)

Definition bind {A B : Type} (m : option A) (k : A -> option B) : option B :=
match m with
| Some a => k a
| None => None
end.

Notation "' x <- m ; k" := (bind m (fun x => k))
(at level 61, x pattern, m at next level, right associativity).

(** Reading [buffer[i]]: a fault outside the array. *)
Definition read (buffer : list Z) (i : Z) : option Z :=
if i <? 0 then None else nth_error buffer (Z.to_nat i).

(** ** Telemetry decoders of pwm_output_dshot.c *)

Module Dshot.
Import CInt.

(** Modelled from the spec: the capture lengths are declared in
    drivers/pwm_output.h, which is not among the sources.  The standard
    decoder takes two timestamps per bit of a 16-bit word, the
    high-resolution one two per nibble of the same word. *)
Definition DSHOT_TELEMETRY_INPUT_LEN : Z := 32.
Definition PROSHOT_TELEMETRY_INPUT_LEN : Z := 8.

(** The invalid-packet sentinel [0xffff]. *)
Definition INVALID : Z := 65535.

(** [csum ^= csum >> 8; csum ^= csum >> 4; csum & 0xf] *)
Definition checksum (value : Z) : Z :=
  let csum := value in
  let csum := Z.lxor csum (Z.shiftr csum 8) in
  let csum := Z.lxor csum (Z.shiftr csum 4) in
  Z.land csum 15.

(** The tail shared by both decoders: reject on a non-zero checksum
    nibble, else drop the checksum ([uint16_t] return). *)
Definition finishPacket (value : Z) : Z :=
  if checksum value =? 0 then uint16 (Z.shiftr value 4) else INVALID.

(** One bit of the standard decoder, from the signed edge distance. *)
Definition dshotBit (diff : Z) : bool :=
  if diff >? 0 then diff >=? 11 else diff >=? -9.

(** Body of the loop of [decodeDshotPacket]. *)
Definition dshotStep (buffer : list Z) (i value : Z) : option Z :=
  ' hi <- read buffer i;
  ' lo <- read buffer (i - 1);
  let diff := int32 (hi - lo) in
  let value := uint32 (Z.shiftl value 1) in
  Some (if dshotBit diff then Z.lor value 1 else value).

(** [for (int i = 1; i < DSHOT_TELEMETRY_INPUT_LEN; i += 2)]; the fuel
    bounds the number of iterations and running out of it is a fault. *)
Fixpoint dshotLoop (fuel : nat) (buffer : list Z) (i value : Z) : option Z :=
  match fuel with
  | O => None
  | S fuel' =>
      if i <? DSHOT_TELEMETRY_INPUT_LEN then
        ' value' <- dshotStep buffer i value;
        dshotLoop fuel' buffer (i + 2) value'
      else Some value
  end.

(** The word accumulated by [decodeDshotPacket] before the checksum. *)
Definition dshotWord (buffer : list Z) : option Z :=
  dshotLoop (S (Z.to_nat DSHOT_TELEMETRY_INPUT_LEN)) buffer 1 0.

Definition decodeDshotPacket (buffer : list Z) : option Z :=
  ' value <- dshotWord buffer;
  Some (finishPacket value).

(** [for (int i = 0; i < motorCount; i++)] *)
Definition upto (n : Z) : list Z := map Z.of_nat (seq 0 (Z.to_nat n)).

(** The Proshot timing constants and the motor table live in
    drivers/pwm_output.h as well; the decoder and the frame start are stated
    for any values of the constants. *)
Section Timing.
Variables MOTOR_NIBBLE_LENGTH_PROSHOT PROSHOT_BASE_SYMBOL PROSHOT_BIT_WIDTH : Z.

(** One nibble of the high-resolution decoder.  The modulo is taken on
    [uint32_t]; a zero modulus or bit width is a division by zero, and the
    signed addition must stay below [INT_MAX]. *)
Definition proshotNibble (hi lo : Z) : option Z :=
  let proshotModulo := MOTOR_NIBBLE_LENGTH_PROSHOT in
  if uint32 proshotModulo =? 0 then None else
  let diff := int32 (uint32 (hi + proshotModulo - lo) mod uint32 proshotModulo
                     - PROSHOT_BASE_SYMBOL) in
  if diff <? 0 then Some 0
  else if PROSHOT_BIT_WIDTH =? 0 then None
  else if diff + Z.quot PROSHOT_BIT_WIDTH 2 >? INT_MAX then None
  else Some (Z.quot (diff + Z.quot PROSHOT_BIT_WIDTH 2) PROSHOT_BIT_WIDTH).

(** Body of the loop of [decodeProshotPacket]. *)
Definition proshotStep (buffer : list Z) (i value : Z) : option Z :=
  ' hi <- read buffer i;
  ' lo <- read buffer (i - 1);
  ' nibble <- proshotNibble hi lo;
  let value := uint32 (Z.shiftl value 4) in
  Some (Z.lor value (Z.land nibble 15)).

Fixpoint proshotLoop (fuel : nat) (buffer : list Z) (i value : Z) : option Z :=
  match fuel with
  | O => None
  | S fuel' =>
      if i <? PROSHOT_TELEMETRY_INPUT_LEN then
        ' value' <- proshotStep buffer i value;
        proshotLoop fuel' buffer (i + 2) value'
      else Some value
  end.

Definition proshotWord (buffer : list Z) : option Z :=
  proshotLoop (S (Z.to_nat PROSHOT_TELEMETRY_INPUT_LEN)) buffer 1 0.

Definition decodeProshotPacket (buffer : list Z) : option Z :=
  ' value <- proshotWord buffer;
  Some (finishPacket value).

(** The fields of [motorDmaOutput_t] that the telemetry hand-off reads or
    writes; timer and DMA registers are outside the model. *)
Record motorDmaOutput_t := {
  hasTelemetry : bool;
  useProshot : bool;
  isInput : bool;
  dmaBuffer : list Z;
  dshotTelemetryValue : Z
}.

(** The globals of the driver: [dmaMotors], [dshotInvalidPacketCount],
    [inputBuffer] and the [useDshotTelemetry] switch. *)
Record driver := {
  dmaMotors : Z -> motorDmaOutput_t;
  dshotInvalidPacketCount : Z;
  inputBuffer : list Z;
  useDshotTelemetry : bool
}.

Definition setMotor (d : driver) (i : Z) (m : motorDmaOutput_t) : driver :=
  {| dmaMotors := fun j => if j =? i then m else dmaMotors d j;
     dshotInvalidPacketCount := dshotInvalidPacketCount d;
     inputBuffer := inputBuffer d;
     useDshotTelemetry := useDshotTelemetry d |}.

Definition setTelemetryValue (m : motorDmaOutput_t) (value : Z) : motorDmaOutput_t :=
  {| hasTelemetry := hasTelemetry m; useProshot := useProshot m;
     isInput := isInput m; dmaBuffer := dmaBuffer m;
     dshotTelemetryValue := value |}.

Definition setHasTelemetry (m : motorDmaOutput_t) (b : bool) : motorDmaOutput_t :=
  {| hasTelemetry := b; useProshot := useProshot m;
     isInput := isInput m; dmaBuffer := dmaBuffer m;
     dshotTelemetryValue := dshotTelemetryValue m |}.

Definition setIsInput (m : motorDmaOutput_t) (b : bool) : motorDmaOutput_t :=
  {| hasTelemetry := hasTelemetry m; useProshot := useProshot m;
     isInput := b; dmaBuffer := dmaBuffer m;
     dshotTelemetryValue := dshotTelemetryValue m |}.

(** The [else] branch of the validity test: count the packet and keep a
    copy of motor 0's capture for debugging. *)
Definition countInvalid (d : driver) (i : Z) : driver :=
  {| dmaMotors := dmaMotors d;
     dshotInvalidPacketCount := uint32 (dshotInvalidPacketCount d + 1);
     inputBuffer :=
       if i =? 0
       then firstn (Z.to_nat DSHOT_TELEMETRY_INPUT_LEN) (dmaBuffer (dmaMotors d i))
       else inputBuffer d;
     useDshotTelemetry := useDshotTelemetry d |}.

(** [pwmDshotSetDirectionOutput(motor, output)], as far as the motor
    structure goes: [motor->isInput = !output]. *)
Definition pwmDshotSetDirectionOutput (d : driver) (i : Z) (output : bool) : driver :=
  setMotor d i (setIsInput (dmaMotors d i) (negb output)).

(** [useProshot ? decodeProshotPacket(dmaBuffer) : decodeDshotPacket(dmaBuffer)] *)
Definition decodeMotor (motor : motorDmaOutput_t) : option Z :=
  if useProshot motor
  then decodeProshotPacket (dmaBuffer motor)
  else decodeDshotPacket (dmaBuffer motor).

(** Body of the first loop of [pwmStartDshotMotorUpdate]. *)
Definition startMotor (d : driver) (i : Z) : option driver :=
  let motor := dmaMotors d i in
  ' d1 <-
    (if hasTelemetry motor then
       ' value <- decodeMotor motor;
       let d' :=
         if negb (value =? INVALID)
         then setMotor d i (setTelemetryValue motor value)
         else countInvalid d i in
       Some (setMotor d' i (setHasTelemetry (dmaMotors d' i) false))
     else Some d);
  Some (pwmDshotSetDirectionOutput d1 i true).

(** [pwmStartDshotMotorUpdate]; its second loop enables timer channels and
    touches nothing of the model. *)
Definition pwmStartDshotMotorUpdate (motorCount : Z) (d : driver) : option driver :=
  if useDshotTelemetry d then
    fold_left (fun acc i => ' d' <- acc; startMotor d' i) (upto motorCount) (Some d)
  else Some d.

Definition getDshotTelemetry (d : driver) (index : Z) : Z :=
  dshotTelemetryValue (dmaMotors d index).

(** *** Observations of a frame start

    A motor whose capture is ready and fails the checksum; how many of the
    first [motorCount] motors are in that case; and the capture buffers
    having their declared size. *)
Definition invalidCapture (motor : motorDmaOutput_t) : bool :=
  hasTelemetry motor &&
  match decodeMotor motor with
  | Some value => value =? INVALID
  | None => false
  end.

Definition invalidCaptures (d : driver) (motorCount : Z) : Z :=
  Z.of_nat (length (filter (fun i => invalidCapture (dmaMotors d i)) (upto motorCount))).

Definition capturesSized (d : driver) (motorCount : Z) : Prop :=
  forall i, 0 <= i < motorCount ->
    DSHOT_TELEMETRY_INPUT_LEN <= Z.of_nat (length (dmaBuffer (dmaMotors d i))).

End Timing.

(** Nibble [k] of a word, and two words that differ in exactly one of the
    four nibbles of a 16-bit word. *)
Definition nibble (k v : Z) : Z := Z.land (Z.shiftr v (4 * k)) 15.

Definition oneNibbleApart (v w : Z) : Prop :=
  exists k, 0 <= k < 4 /\ nibble k v <> nibble k w /\
            forall j, 0 <= j < 4 -> j <> k -> nibble j v = nibble j w.

(** *** Captures for given words

    Edge timestamps whose decoding accumulates a given 16-bit word: a long
    edge distance for a one and a short one for a zero, and for Proshot the
    base symbol plus the nibble times the bit width. *)
Definition dshotCapture (word : Z) : list Z :=
  flat_map (fun k => [0; if Z.testbit word (15 - k) then 20 else 5]) (upto 16).

Definition proshotCapture (base width word : Z) : list Z :=
  flat_map (fun k => [0; base + width * nibble (3 - k) word]) (upto 4).

(** A driver with two motors whose captures are ready: motor 0 speaks
    DShot and its capture passes the checksum, motor 1 speaks Proshot and
    its capture fails it. *)
Definition sampleMotor (proshot : bool) (buffer : list Z) (value : Z) : motorDmaOutput_t :=
  {| hasTelemetry := true; useProshot := proshot; isInput := true;
     dmaBuffer := buffer; dshotTelemetryValue := value |}.

Definition sampleDriver : driver :=
  {| dmaMotors := fun i =>
       if i =? 0 then sampleMotor false (dshotCapture 4656) 7
       else sampleMotor true (proshotCapture 24 3 4912 ++ repeat 0 24) 9;
     dshotInvalidPacketCount := 0;
     inputBuffer := repeat 0 32;
     useDshotTelemetry := true |}.

(** The assumptions on the Proshot timing constants: positive [int]s whose
    sum does not overflow. *)
Definition proshotTiming (modulo base width : Z) : Prop :=
  0 < modulo /\ 0 <= base < 2 ^ 31 /\ 0 < width /\ modulo + width < 2 ^ 31.

End Dshot.

(** ** IEEE binary32, the C [float] of the target *)

Module Float32.

Definition float : Type := spec_float.

Definition prec : Z := 24.
Definition emax : Z := 128.

(** Conversion of an integer, rounding to nearest even. *)
Definition of_int (z : Z) : float := binary_normalize prec emax z 0 false.

Definition mul : float -> float -> float := SFmul prec emax.
Definition add : float -> float -> float := SFadd prec emax.
Definition sub : float -> float -> float := SFsub prec emax.
Definition div : float -> float -> float := SFdiv prec emax.
Definition ltb : float -> float -> bool := SFltb.
Definition leb : float -> float -> bool := SFleb.

Definition is_nan (x : float) : bool :=
  match x with S754_nan => true | _ => false end.

Definition is_zero (x : float) : bool :=
  match x with S754_zero _ => true | _ => false end.

(** A decimal literal [n / d] with the suffix [f]: the nearest binary32. *)
Definition literal (n d : Z) : float := div (of_int n) (of_int d).

(** [m / 2^k] rounded to the nearest integer, ties to even ([0 < k]). *)
Definition round_half_even (m k : Z) : Z :=
  let q := Z.shiftr m k in
  let r := m - Z.shiftl q k in
  let half := Z.shiftl 1 (k - 1) in
  if r <? half then q
  else if half <? r then q + 1
  else if Z.even q then q else q + 1.

(** [rintf] in the default rounding mode. *)
Definition rintf (x : float) : float :=
  match x with
  | S754_finite s m e =>
      if e >=? 0 then x
      else binary_normalize prec emax
             (cond_Zopp s (round_half_even (Zpos m) (- e))) 0 s
  | _ => x
  end.

(** Conversion to an integer type truncates toward zero; the value has to
    be finite. *)
Definition truncate (x : float) : option Z :=
  match x with
  | S754_zero _ => Some 0
  | S754_finite s m e =>
      Some (cond_Zopp s (if e >=? 0 then Z.shiftl (Zpos m) e
                         else Z.shiftr (Zpos m) (- e)))
  | _ => None
  end.

(** Conversion to [uint8_t]: a fault when the truncated value does not
    fit. *)
Definition to_uint8 (x : float) : option Z :=
  match truncate x with
  | Some z => if (0 <=? z) && (z <? 256) then Some z else None
  | None => None
  end.

(** Shapes of small values, for checking them by evaluation. *)
Definition positiveFinite (x : float) : bool :=
  match x with S754_finite false _ _ => true | _ => false end.

(** [y] is [x] with the exponent one less, or both are [+0]. *)
Definition halfOf (x y : float) : bool :=
  match x, y with
  | S754_zero false, S754_zero false => true
  | S754_finite false p e, S754_finite false p' e' => Pos.eqb p p' && (e' =? e - 1)
  | _, _ => false
  end.

End Float32.

(** ** The filter library consumed by rpm_filter.c

    [common/filter.c] is not among the sources: its operations are taken
    through an interface.  A C function that receives [filter_t *] is a
    function from the old structure to the new one. *)

Module FilterLib.
Import Float32.

(** The fields of [biquadFilter_t]: the five coefficients named by
    [rpmFilterUpdate], and the delay line. *)
Record biquadFilter_t := {
  b0 : float; b1 : float; b2 : float; a1 : float; a2 : float;
  x1 : float; x2 : float; y1 : float; y2 : float
}.

Inductive biquadFilterType_e := FILTER_LPF | FILTER_NOTCH | FILTER_BPF.

Class Ops := {
  pt1Filter_t : Type;
  pt1FilterGain : Z -> float -> float;
  pt1FilterInit : pt1Filter_t -> float -> pt1Filter_t;
  pt1FilterApply : pt1Filter_t -> float -> pt1Filter_t * float;
  biquadFilterInit :
    biquadFilter_t -> float -> float -> float -> biquadFilterType_e -> biquadFilter_t;
  biquadFilterUpdate :
    biquadFilter_t -> float -> float -> float -> biquadFilterType_e -> biquadFilter_t;
  biquadFilterApplyDF1 : biquadFilter_t -> float -> biquadFilter_t * float
}.



(** Modelled from the spec: the PT1 filter of common/filter.c is not among
    the sources; the specification calls it a first-order low-pass filter
    with a fixed cutoff, whose state moves toward the input by the gain
    times their distance. *)
Record pt1 := { pt1State : float; pt1K : float }.

Definition pt1Gain (f_cut : Z) (dT : float) : float :=
  let pi := S754_finite false 13176795 (-22) in
  let RC := div (of_int 1) (mul (mul (of_int 2) pi) (of_int f_cut)) in
  div dT (add RC dT).

Definition pt1Init (f : pt1) (gain : float) : pt1 :=
  {| pt1State := S754_zero false; pt1K := gain |}.

Definition pt1Apply (f : pt1) (input : float) : pt1 * float :=
  let s := add (pt1State f) (mul (pt1K f) (sub input (pt1State f))) in
  ({| pt1State := s; pt1K := pt1K f |}, s).

(** A stand-in for the biquad operations, to run the model on concrete
    inputs: the direct form 1 recurrence, and coefficients that are an
    arithmetic function of the arguments in place of the trigonometric
    formulas of filter.c. *)
Definition sampleCoefficients (old : biquadFilter_t) (frequency refreshRate q : float)
    (x1 x2 y1 y2 : float) : biquadFilter_t :=
  {| b0 := frequency; b1 := refreshRate; b2 := q;
     a1 := mul frequency refreshRate; a2 := mul frequency q;
     x1 := x1; x2 := x2; y1 := y1; y2 := y2 |}.

Definition sampleInit (old : biquadFilter_t) (frequency refreshRate q : float)
    (type : biquadFilterType_e) : biquadFilter_t :=
  let z := S754_zero false in
  sampleCoefficients old frequency refreshRate q z z z z.

Definition sampleUpdate (old : biquadFilter_t) (frequency refreshRate q : float)
    (type : biquadFilterType_e) : biquadFilter_t :=
  sampleCoefficients old frequency refreshRate q (x1 old) (x2 old) (y1 old) (y2 old).

Definition sampleApplyDF1 (f : biquadFilter_t) (input : float) : biquadFilter_t * float :=
  let result :=
    sub (sub (add (add (mul (b0 f) input) (mul (b1 f) (x1 f))) (mul (b2 f) (x2 f)))
             (mul (a1 f) (y1 f)))
        (mul (a2 f) (y2 f)) in
  ({| b0 := b0 f; b1 := b1 f; b2 := b2 f; a1 := a1 f; a2 := a2 f;
      x1 := input; x2 := x1 f; y1 := result; y2 := y1 f |}, result).

Definition sampleOps : Ops :=
  {| pt1Filter_t := pt1;
     pt1FilterGain := pt1Gain;
     pt1FilterInit := pt1Init;
     pt1FilterApply := pt1Apply;
     biquadFilterInit := sampleInit;
     biquadFilterUpdate := sampleUpdate;
     biquadFilterApplyDF1 := sampleApplyDF1 |}.

End FilterLib.

(** ** rpm_filter.c *)

Module RpmFilter.
Import CInt Float32 FilterLib.

Definition RPM_FILTER_MAXHARMONICS : Z := 3.
Definition RPM_MOTOR_FILTER_CUTOFF : Z := 150.
Definition SECONDS_PER_MINUTE : float := of_int 60.
Definition ERPM_PER_LSB : float := of_int 100.
Definition MIN_UPDATE_T : float := literal 1 1000.

(** The three gyro axes X, Y and Z (common/axis.h). *)
Definition XYZ_AXIS_COUNT : Z := 3.

(** [for (int i = lo; i < hi; i++)] *)
Definition range (lo hi : Z) : list Z :=
  map (fun k => lo + Z.of_nat k) (seq 0 (Z.to_nat (hi - lo))).

(** Array update. *)
Definition upd {A : Type} (a : Z -> A) (i : Z) (x : A) : Z -> A :=
  fun j => if j =? i then x else a j.

Definition upd3 {A : Type} (a : Z -> Z -> Z -> A) (i j k : Z) (x : A) : Z -> Z -> Z -> A :=
  upd a i (upd (a i) j (upd (a i j) k x)).

(** What the file reads from its collaborators: the mixer's motor count
    ([uint8_t]), the motor configuration, the gyro loop time in microseconds
    ([uint32_t]) and the PID denominator. *)
Record env := {
  getMotorCount : Z;
  useDshotTelemetry : bool;
  motorPoleCount : Z;
  targetLooptime : Z;
  pid_process_denom : Z
}.

(** The parameter group of sensors/rpm_filter.h: unsigned integers, read
    by [rpmFilterInit] as [int]s. *)
Record rpmFilterConfig_t := {
  gyro_rpm_notch_harmonics : Z;
  gyro_rpm_notch_min : Z;
  gyro_rpm_notch_q : Z;
  dterm_rpm_notch_harmonics : Z;
  dterm_rpm_notch_min : Z;
  dterm_rpm_notch_q : Z
}.

Definition pgResetFn_rpmFilterConfig : rpmFilterConfig_t :=
  {| gyro_rpm_notch_harmonics := 3;
     gyro_rpm_notch_min := 100;
     gyro_rpm_notch_q := 500;
     dterm_rpm_notch_harmonics := 1;
     dterm_rpm_notch_min := 100;
     dterm_rpm_notch_q := 500 |}.

(** [notch] is the array
    [notch[XYZ_AXIS_COUNT][MAX_SUPPORTED_MOTORS][RPM_FILTER_MAXHARMONICS]] as
    a map from its three indices.  The map agrees with the array for indices
    inside it; an access outside is undefined behaviour in the source (it
    lands on another cell or past the bank), which the map does not
    reproduce. *)
Record rpmNotchFilter_t := {
  harmonics : Z;
  minHz : Z;
  q : float;
  loopTime : float;
  notch : Z -> Z -> Z -> biquadFilter_t
}.

Definition setNotch (f : rpmNotchFilter_t) (n : Z -> Z -> Z -> biquadFilter_t) : rpmNotchFilter_t :=
  {| harmonics := harmonics f; minHz := minHz f; q := q f;
     loopTime := loopTime f; notch := n |}.

Section WithOps.
Context {ops : Ops}.

(** The file-scope variables, and the function-scope statics of
    [rpmFilterUpdate] ([motor], [harmonic], [filter], [currentFilter]).  A
    pointer into [filters] is the index it points at; [gyroFilter] and
    [dtermFilter] may be [NULL]. *)
Record state := {
  rpmFilters : Z -> pt1Filter_t;
  erpmToHz : float;
  filteredMotorErpm : Z -> float;
  numberFilters : Z;
  numberRpmNotchFilters : Z;
  filterUpdatesPerIteration : Z;
  pidLooptime : float;
  filters : Z -> rpmNotchFilter_t;
  gyroFilter : option Z;
  dtermFilter : option Z;
  motorFrequency : Z -> float;
  motor : Z;
  harmonic : Z;
  filter : Z;
  currentFilter : Z
}.

(** The frequency handed to cell [i] by [rpmNotchFilterInit]. *)
Definition initFrequency (minHz i : Z) : float := of_int (minHz * i).

(** The three nested loops of [rpmNotchFilterInit]; as the source has it
    for a harmonics count within [RPM_FILTER_MAXHARMONICS] and a motor count
    within the array. *)
Definition initCells (f : rpmNotchFilter_t) (motorCount harmonics minHz : Z) (looptime : float)
  : rpmNotchFilter_t :=
  fold_left (fun f axis =>
    fold_left (fun f motor =>
      fold_left (fun f i =>
        setNotch f (upd3 (notch f) axis motor i
          (biquadFilterInit (notch f axis motor i) (initFrequency minHz i)
             looptime (q f) FILTER_NOTCH)))
        (range 0 harmonics) f)
      (range 0 motorCount) f)
    (range 0 XYZ_AXIS_COUNT) f.

(** The [int] arguments are narrowed to the [uint8_t] fields; the loops use
    the arguments themselves. *)
Definition rpmNotchFilterInit (e : env) (f : rpmNotchFilter_t)
    (harmonics minHz q : Z) (looptime : float) : rpmNotchFilter_t :=
  let f := {| harmonics := uint8 harmonics;
              minHz := uint8 minHz;
              q := div (of_int q) (of_int 100);
              loopTime := looptime;
              notch := notch f |} in
  initCells f (getMotorCount e) harmonics minHz looptime.

Definition setFilters (st : state) (fs : Z -> rpmNotchFilter_t) : state :=
  {| rpmFilters := rpmFilters st; erpmToHz := erpmToHz st;
     filteredMotorErpm := filteredMotorErpm st; numberFilters := numberFilters st;
     numberRpmNotchFilters := numberRpmNotchFilters st;
     filterUpdatesPerIteration := filterUpdatesPerIteration st;
     pidLooptime := pidLooptime st; filters := fs;
     gyroFilter := gyroFilter st; dtermFilter := dtermFilter st;
     motorFrequency := motorFrequency st; motor := motor st;
     harmonic := harmonic st; filter := filter st;
     currentFilter := currentFilter st |}.

(** The state when the program starts: statics are zero, pointers [NULL],
    and [currentFilter] is initialised to [&filters[0]]. *)
Definition zeroBiquad : biquadFilter_t :=
  let z := S754_zero false in
  {| b0 := z; b1 := z; b2 := z; a1 := z; a2 := z; x1 := z; x2 := z; y1 := z; y2 := z |}.

Definition zeroBank : rpmNotchFilter_t :=
  {| harmonics := 0; minHz := 0; q := S754_zero false; loopTime := S754_zero false;
     notch := fun _ _ _ => zeroBiquad |}.

Definition bootState (pt1 : pt1Filter_t) : state :=
  {| rpmFilters := fun _ => pt1; erpmToHz := S754_zero false;
     filteredMotorErpm := fun _ => S754_zero false; numberFilters := 0;
     numberRpmNotchFilters := 0; filterUpdatesPerIteration := 0;
     pidLooptime := S754_zero false; filters := fun _ => zeroBank;
     gyroFilter := None; dtermFilter := None;
     motorFrequency := fun _ => S754_zero false; motor := 0;
     harmonic := 0; filter := 0; currentFilter := 0 |}.

(** [rpmFilterInit]; the narrowing of [rintf]'s result to [uint8_t] is the
    only step that can fault. *)
Definition rpmFilterInit (e : env) (config : rpmFilterConfig_t) (st : state) : option state :=
  let numberRpmNotchFilters := 0 in
  if negb (useDshotTelemetry e) then
    Some {| rpmFilters := rpmFilters st; erpmToHz := erpmToHz st;
            filteredMotorErpm := filteredMotorErpm st; numberFilters := numberFilters st;
            numberRpmNotchFilters := numberRpmNotchFilters;
            filterUpdatesPerIteration := filterUpdatesPerIteration st;
            pidLooptime := pidLooptime st; filters := filters st;
            gyroFilter := None; dtermFilter := None;
            motorFrequency := motorFrequency st; motor := motor st;
            harmonic := harmonic st; filter := filter st;
            currentFilter := currentFilter st |}
  else
  let pidLooptime := of_int (uint32 (targetLooptime e * pid_process_denom e)) in
  let '(gyroFilter, filters, numberRpmNotchFilters) :=
    if negb (gyro_rpm_notch_harmonics config =? 0) then
      let k := numberRpmNotchFilters in
      (Some k,
       upd (filters st) k
         (rpmNotchFilterInit e (filters st k) (gyro_rpm_notch_harmonics config)
            (gyro_rpm_notch_min config) (gyro_rpm_notch_q config)
            (of_int (targetLooptime e))),
       uint8 (k + 1))
    else (gyroFilter st, filters st, numberRpmNotchFilters) in
  let '(dtermFilter, filters, numberRpmNotchFilters) :=
    if negb (dterm_rpm_notch_harmonics config =? 0) then
      let k := numberRpmNotchFilters in
      (Some k,
       upd filters k
         (rpmNotchFilterInit e (filters k) (dterm_rpm_notch_harmonics config)
            (dterm_rpm_notch_min config) (dterm_rpm_notch_q config) pidLooptime),
       uint8 (k + 1))
    else (dtermFilter st, filters, numberRpmNotchFilters) in
  let rpmFilters :=
    fold_left (fun a i =>
                 upd a i (pt1FilterInit (a i)
                            (pt1FilterGain RPM_MOTOR_FILTER_CUTOFF pidLooptime)))
      (range 0 (getMotorCount e)) (rpmFilters st) in
  let erpmToHz :=
    div (div ERPM_PER_LSB SECONDS_PER_MINUTE)
        (div (of_int (motorPoleCount e)) (of_int 2)) in
  let loopIterationsPerUpdate :=
    div MIN_UPDATE_T (mul pidLooptime (literal 1 1000000)) in
  let numberFilters :=
    uint8 (getMotorCount e * (harmonics (filters 0) + harmonics (filters 1))) in
  let filtersPerLoopIteration := div (of_int numberFilters) loopIterationsPerUpdate in
  ' filterUpdatesPerIteration <-
      to_uint8 (rintf (add filtersPerLoopIteration (literal 49 100)));
  Some {| rpmFilters := rpmFilters; erpmToHz := erpmToHz;
          filteredMotorErpm := filteredMotorErpm st; numberFilters := numberFilters;
          numberRpmNotchFilters := numberRpmNotchFilters;
          filterUpdatesPerIteration := filterUpdatesPerIteration;
          pidLooptime := pidLooptime; filters := filters;
          gyroFilter := gyroFilter; dtermFilter := dtermFilter;
          motorFrequency := motorFrequency st; motor := motor st;
          harmonic := harmonic st; filter := filter st;
          currentFilter := currentFilter st |}.

(** [applyFilter]: the bank is passed by pointer, [NULL] when absent. *)
Definition applyFilter (e : env) (st : state) (bank : option Z) (axis : Z) (value : float)
  : float * state :=
  match bank with
  | None => (value, st)
  | Some k =>
      let '(value, f) :=
        fold_left (fun acc motor =>
          fold_left (fun '(value, f) i =>
            let '(cell, value) := biquadFilterApplyDF1 (notch f axis motor i) value in
            (value, setNotch f (upd3 (notch f) axis motor i cell)))
            (range 0 (harmonics (snd acc))) acc)
          (range 0 (getMotorCount e)) (value, filters st k) in
      (value, setFilters st (upd (filters st) k f))
  end.

Definition rpmFilterGyro (e : env) (st : state) (axis : Z) (value : float) : float * state :=
  applyFilter e st (gyroFilter st) axis value.

Definition rpmFilterDterm (e : env) (st : state) (axis : Z) (value : float) : float * state :=
  applyFilter e st (dtermFilter st) axis value.

(** The first loop of [rpmFilterUpdate]: every motor's telemetry value, as
    [getDshotTelemetry] returns it, goes through that motor's PT1 filter. *)
Definition setSmoothed (st : state) (rf : Z -> pt1Filter_t) (fe : Z -> float) : state :=
  {| rpmFilters := rf; erpmToHz := erpmToHz st;
     filteredMotorErpm := fe; numberFilters := numberFilters st;
     numberRpmNotchFilters := numberRpmNotchFilters st;
     filterUpdatesPerIteration := filterUpdatesPerIteration st;
     pidLooptime := pidLooptime st; filters := filters st;
     gyroFilter := gyroFilter st; dtermFilter := dtermFilter st;
     motorFrequency := motorFrequency st; motor := motor st;
     harmonic := harmonic st; filter := filter st;
     currentFilter := currentFilter st |}.

Definition smoothMotor (getDshotTelemetry : Z -> Z) (st : state) (motor : Z) : state :=
  let '(pt1, out) := pt1FilterApply (rpmFilters st motor) (of_int (getDshotTelemetry motor)) in
  setSmoothed st (upd (rpmFilters st) motor pt1) (upd (filteredMotorErpm st) motor out).

Definition smoothErpm (e : env) (getDshotTelemetry : Z -> Z) (st : state) : state :=
  fold_left (smoothMotor getDshotTelemetry) (range 0 (getMotorCount e)) st.

Definition deactivateFreq : float := of_int 1000.

(** Lines 171-182: the frequency of harmonic [harmonic] of a motor turning
    at [motorFrequency], for a bank whose minimum is [minHz]. *)
Definition notchFrequency (harmonic : Z) (motorFrequency : float) (minHz : Z) : float :=
  let frequency := mul (of_int (harmonic + 1)) motorFrequency in
  let frequency :=
    if ltb frequency (of_int minHz) then
      if ltb frequency (mul (literal 1 2) (of_int minHz)) then deactivateFreq
      else of_int minHz
    else frequency in
  if ltb deactivateFreq frequency then deactivateFreq else frequency.

(** The same transformation in the words of the specification: the
    deactivation frequency below half the minimum, else the minimum below
    the minimum, and nothing above the deactivation frequency. *)
Definition specFrequency (harmonic : Z) (motorFrequency : float) (minHz : Z) : float :=
  let t := mul (of_int (harmonic + 1)) motorFrequency in
  let r :=
    if ltb t (mul (literal 1 2) (of_int minHz)) then deactivateFreq
    else if ltb t (of_int minHz) then of_int minHz
    else t in
  if ltb deactivateFreq r then deactivateFreq else r.

(** The frequency that the next recomputation passes to
    [biquadFilterUpdate]. *)
Definition fedFrequency (st : state) : float :=
  notchFrequency (harmonic st) (motorFrequency st (motor st))
    (minHz (filters st (currentFilter st))).

(** [clone->b0 = template->b0; ...; clone->a2 = template->a2] *)
Definition copyCoefficients (clone template : biquadFilter_t) : biquadFilter_t :=
  {| b0 := b0 template; b1 := b1 template; b2 := b2 template;
     a1 := a1 template; a2 := a2 template;
     x1 := x1 clone; x2 := x2 clone; y1 := y1 clone; y2 := y2 clone |}.

(** The cell of axis 0 after [biquadFilterUpdate(template, frequency,
    currentFilter->loopTime, currentFilter->q, FILTER_NOTCH)]. *)
Definition template (st : state) : biquadFilter_t :=
  let cur := filters st (currentFilter st) in
  biquadFilterUpdate (notch cur 0 (motor st) (harmonic st))
    (fedFrequency st) (loopTime cur) (q cur) FILTER_NOTCH.

(** Lines 184-199: new coefficients for axis 0, copied to the other axes;
    as the source has it for a cursor inside the array. *)
Definition recompute (st : state) : state :=
  let cur := filters st (currentFilter st) in
  let cells := upd3 (notch cur) 0 (motor st) (harmonic st) (template st) in
  let cells :=
    fold_left (fun cells axis =>
                 upd3 cells axis (motor st) (harmonic st)
                   (copyCoefficients (cells axis (motor st) (harmonic st))
                      (cells 0 (motor st) (harmonic st))))
      (range 1 XYZ_AXIS_COUNT) cells in
  setFilters st (upd (filters st) (currentFilter st) (setNotch cur cells)).

Definition setCursor (st : state) (mf : Z -> float) (m h f c : Z) : state :=
  {| rpmFilters := rpmFilters st; erpmToHz := erpmToHz st;
     filteredMotorErpm := filteredMotorErpm st; numberFilters := numberFilters st;
     numberRpmNotchFilters := numberRpmNotchFilters st;
     filterUpdatesPerIteration := filterUpdatesPerIteration st;
     pidLooptime := pidLooptime st; filters := filters st;
     gyroFilter := gyroFilter st; dtermFilter := dtermFilter st;
     motorFrequency := mf; motor := m; harmonic := h; filter := f;
     currentFilter := c |}.

(** Lines 201-211: the cursor moves on; the pre-increments are on
    [uint8_t]. *)
Definition advance (e : env) (st : state) : state :=
  let harmonic1 := uint8 (harmonic st + 1) in
  if harmonic1 =? harmonics (filters st (currentFilter st)) then
    let filter1 := uint8 (filter st + 1) in
    if filter1 =? numberRpmNotchFilters st then
      let motor1 := uint8 (motor st + 1) in
      let motor2 := if motor1 =? getMotorCount e then 0 else motor1 in
      setCursor st
        (upd (motorFrequency st) motor2
           (mul (erpmToHz st) (filteredMotorErpm st motor2)))
        motor2 0 0 0
    else setCursor st (motorFrequency st) (motor st) 0 filter1 filter1
  else setCursor st (motorFrequency st) (motor st) harmonic1 (filter st) (currentFilter st).

(** One iteration of the loop of [rpmFilterUpdate]. *)
Definition updateCell (e : env) (st : state) : state := advance e (recompute st).

Fixpoint updateCells (n : nat) (e : env) (st : state) : state :=
  match n with
  | O => st
  | S n' => updateCells n' e (updateCell e st)
  end.

(** [rpmFilterUpdate], given what [getDshotTelemetry] returns for each
    motor; the debug values it records are left out. *)
Definition rpmFilterUpdate (e : env) (getDshotTelemetry : Z -> Z) (st : state) : state :=
  match gyroFilter st, dtermFilter st with
  | None, None => st
  | _, _ =>
      updateCells (Z.to_nat (filterUpdatesPerIteration st)) e
        (smoothErpm e getDshotTelemetry st)
  end.

(** *** Observations of a run

    A cell of the table is a bank, a motor and a harmonic; the cell under
    the cursor is the one the next iteration recomputes. *)
Definition cell : Type := Z * Z * Z.

Definition cursor (st : state) : cell := (currentFilter st, motor st, harmonic st).

(** The cells recomputed by [n] iterations, in order. *)
Fixpoint visited (n : nat) (e : env) (st : state) : list cell :=
  match n with
  | O => []
  | S n' => cursor st :: visited n' e (updateCell e st)
  end.

(** The frequencies passed to [biquadFilterUpdate] by [n] iterations, each
    with the minimum of the bank it is computed for. *)
Fixpoint fed (n : nat) (e : env) (st : state) : list (Z * float) :=
  match n with
  | O => []
  | S n' =>
      (minHz (filters st (currentFilter st)), fedFrequency st)
      :: fed n' e (updateCell e st)
  end.

(** The cells recomputed by one call, and by a sequence of calls that see
    the telemetry readings [ts] one after the other. *)
Definition visitedByCall (e : env) (t : Z -> Z) (st : state) : list cell :=
  match gyroFilter st, dtermFilter st with
  | None, None => []
  | _, _ => visited (Z.to_nat (filterUpdatesPerIteration st)) e (smoothErpm e t st)
  end.

Fixpoint visitedByCalls (e : env) (ts : list (Z -> Z)) (st : state) : list cell :=
  match ts with
  | [] => []
  | t :: ts' => visitedByCall e t st ++ visitedByCalls e ts' (rpmFilterUpdate e t st)
  end.

Definition fedByCall (e : env) (t : Z -> Z) (st : state) : list (Z * float) :=
  match gyroFilter st, dtermFilter st with
  | None, None => []
  | _, _ => fed (Z.to_nat (filterUpdatesPerIteration st)) e (smoothErpm e t st)
  end.

(** A state whose [uint8_t] fields are in range and whose motor frequency
    estimates, current and pending, are numbers. *)
Definition numeric (st : state) : Prop :=
  0 <= harmonic st < 256 /\
  (forall k, 0 <= minHz (filters st k) < 256) /\
  (forall m, is_nan (motorFrequency st m) = false) /\
  (forall m, is_nan (mul (erpmToHz st) (filteredMotorErpm st m)) = false).

(** A fed frequency within the bounds of the bank's minimum [m]. *)
Definition clamped (mf : Z * float) : Prop :=
  let '(m, f) := mf in
  is_nan f = false /\
  leb (of_int m) f = true /\
  leb f deactivateFreq = true /\
  (0 < m -> is_zero f = false).

(** *** The geometry of the table

    What the cursor depends on: the motor count, the number of active banks
    and the harmonics of the two entries of [filters]. *)
Record geometry := {
  motors : Z;
  banks : Z;
  harmonics0 : Z;
  harmonics1 : Z
}.

Definition geometryOf (e : env) (st : state) : geometry :=
  {| motors := getMotorCount e;
     banks := numberRpmNotchFilters st;
     harmonics0 := harmonics (filters st 0);
     harmonics1 := harmonics (filters st 1) |}.

Definition bankHarmonics (g : geometry) (k : Z) : Z :=
  if k =? 0 then harmonics0 g else harmonics1 g.

(** The cells of the active banks. *)
Definition inTable (g : geometry) (c : cell) : Prop :=
  let '(k, m, h) := c in
  0 <= k < banks g /\ 0 <= m < motors g /\ 0 <= h < bankHarmonics g k.

(** The harmonics of the active banks together, and the size of the
    table. *)
Definition cellsPerMotor (g : geometry) : Z :=
  if banks g =? 1 then harmonics0 g else harmonics0 g + harmonics1 g.

Definition totalCells (g : geometry) : Z := motors g * cellsPerMotor g.

(** The cell after [c] when harmonics run innermost, then banks, then
    motors. *)
Definition nextCell (g : geometry) (c : cell) : cell :=
  let '(k, m, h) := c in
  if h + 1 <? bankHarmonics g k then (k, m, h + 1)
  else if k + 1 <? banks g then (k + 1, m, 0)
  else if m + 1 <? motors g then (0, m + 1, 0)
  else (0, 0, 0).

(** The position of a cell in that order, and the cell at a position. *)
Definition rank (g : geometry) (c : cell) : Z :=
  let '(k, m, h) := c in
  m * cellsPerMotor g + (if k =? 0 then 0 else harmonics0 g) + h.

Definition cellAt (g : geometry) (r : Z) : cell :=
  let m := r / cellsPerMotor g in
  let r' := r mod cellsPerMotor g in
  if r' <? harmonics0 g then (0, m, r') else (1, m, r' - harmonics0 g).

(** One or two active banks with at least one harmonic each, and at least
    one motor, all within [uint8_t]. *)
Definition regular (g : geometry) : Prop :=
  1 <= motors g < 256 /\
  1 <= banks g <= 2 /\
  1 <= harmonics0 g < 256 /\
  (banks g = 2 -> 1 <= harmonics1 g < 256).

(** A state whose cursor is on a cell of the table. *)
Definition scheduled (e : env) (st : state) : Prop :=
  regular (geometryOf e st) /\
  currentFilter st = filter st /\
  inTable (geometryOf e st) (cursor st).

Definition ceilDiv (a b : Z) : Z := (a + b - 1) / b.

(** [rpmFilterUpdate] goes past its first test: a bank is present. *)
Definition active (st : state) : Prop :=
  gyroFilter st <> None \/ dtermFilter st <> None.

(** *** The bounds of the arrays

    [filters] has two entries, and each holds
    [notch[XYZ_AXIS_COUNT][MAX_SUPPORTED_MOTORS][RPM_FILTER_MAXHARMONICS]];
    [MAX_SUPPORTED_MOTORS] is declared outside the sources.  An index
    outside an array is undefined behaviour in the source, and the map
    [notch] stands for the array only inside it: what is said about the
    notches that a function writes is said for a table that fits the
    arrays and for cells inside them. *)
Definition fits (MAX_SUPPORTED_MOTORS : Z) (g : geometry) : Prop :=
  motors g <= MAX_SUPPORTED_MOTORS /\
  harmonics0 g <= RPM_FILTER_MAXHARMONICS /\
  harmonics1 g <= RPM_FILTER_MAXHARMONICS.

Definition inArray (MAX_SUPPORTED_MOTORS : Z) (c : cell) : Prop :=
  let '(k, m, h) := c in
  0 <= k < 2 /\ 0 <= m < MAX_SUPPORTED_MOTORS /\ 0 <= h < RPM_FILTER_MAXHARMONICS.

End WithOps.

(** *** A configuration to run the model on

    Four motors with fourteen poles, an 8 kHz gyro and PID loop, and the
    default filter configuration, on the stand-in filter library. *)
Definition sampleEnv (telemetry : bool) : env :=
  {| getMotorCount := 4; useDshotTelemetry := telemetry; motorPoleCount := 14;
     targetLooptime := 125; pid_process_denom := 1 |}.

(** The default configuration without the gyro bank. *)
Definition dtermOnlyConfig : rpmFilterConfig_t :=
  {| gyro_rpm_notch_harmonics := 0;
     gyro_rpm_notch_min := 100;
     gyro_rpm_notch_q := 500;
     dterm_rpm_notch_harmonics := 1;
     dterm_rpm_notch_min := 100;
     dterm_rpm_notch_q := 500 |}.

(** The default configuration with the minimum frequencies set to zero. *)
Definition zeroMinConfig : rpmFilterConfig_t :=
  {| gyro_rpm_notch_harmonics := 3;
     gyro_rpm_notch_min := 0;
     gyro_rpm_notch_q := 500;
     dterm_rpm_notch_harmonics := 1;
     dterm_rpm_notch_min := 0;
     dterm_rpm_notch_q := 500 |}.

Definition samplePt1 : pt1 := {| pt1State := S754_zero false; pt1K := S754_zero false |}.

Definition sampleBoot : state (ops := sampleOps) := bootState (ops := sampleOps) samplePt1.

Definition sampleState : state (ops := sampleOps) :=
  match rpmFilterInit (ops := sampleOps) (sampleEnv true) pgResetFn_rpmFilterConfig sampleBoot with
  | Some st => st
  | None => sampleBoot
  end.

(** The sample state after the smoothing of a telemetry reading of 100 for
    every motor and three recomputations: the cursor is on the last cell of
    motor 0. *)
Definition lastCellState : state (ops := sampleOps) :=
  updateCells 3 (sampleEnv true) (smoothErpm (sampleEnv true) (fun _ => 100) sampleState).

(** The sample state with PT1 filters half way: state 0, gain 1/2. *)
Definition halfwayState : state (ops := sampleOps) :=
  setSmoothed sampleState
    (fun _ => {| pt1State := S754_zero false; pt1K := literal 1 2 |})
    (fun _ => S754_zero false).

Definition zeroMinState : state (ops := sampleOps) :=
  match rpmFilterInit (ops := sampleOps) (sampleEnv true) zeroMinConfig sampleBoot with
  | Some st => st
  | None => sampleBoot
  end.

(** A configuration with one harmonic in each bank. *)
Definition narrowConfig : rpmFilterConfig_t :=
  {| gyro_rpm_notch_harmonics := 1;
     gyro_rpm_notch_min := 100;
     gyro_rpm_notch_q := 500;
     dterm_rpm_notch_harmonics := 1;
     dterm_rpm_notch_min := 100;
     dterm_rpm_notch_q := 500 |}.

(** The sample state after one call of [rpmFilterUpdate], which leaves the
    cursor on harmonic 2 of motor 0 of the gyro bank, and a second
    [rpmFilterInit] with one harmonic a bank. *)
Definition staleState : state (ops := sampleOps) :=
  match rpmFilterInit (ops := sampleOps) (sampleEnv true) narrowConfig
          (rpmFilterUpdate (sampleEnv true) (fun _ => 0) sampleState) with
  | Some st => st
  | None => sampleBoot
  end.

(** The sample state after a second [rpmFilterInit] that configures the
    gyro bank with no harmonics. *)
Definition reinitState : state (ops := sampleOps) :=
  match rpmFilterInit (ops := sampleOps) (sampleEnv true) dtermOnlyConfig sampleState with
  | Some st => st
  | None => sampleBoot
  end.

End RpmFilter.

(** ** Further observations of rpm_filter.c *)

Module RpmViews.
Import CInt Float32 FilterLib RpmFilter.

(** The delay line of a cell: its last two inputs and outputs. *)
Definition delayLine (f : biquadFilter_t) : float * float * float * float :=
  (x1 f, x2 f, y1 f, y2 f).

(** The settings of a bank. *)
Definition settings (f : rpmNotchFilter_t) : Z * Z * float * float :=
  (harmonics f, minHz f, q f, loopTime f).

(** The last statements of [rpmFilterInit]: the number of recomputations per
    loop iteration for [numberFilters] notches and a PID loop time in
    microseconds; the narrowing to [uint8_t] can fault. *)
Definition updatesPerIteration (numberFilters : Z) (pidLooptime : float) : option Z :=
  let loopIterationsPerUpdate :=
    div MIN_UPDATE_T (mul pidLooptime (literal 1 1000000)) in
  let filtersPerLoopIteration := div (of_int numberFilters) loopIterationsPerUpdate in
  to_uint8 (rintf (add filtersPerLoopIteration (literal 49 100))).

(** The rate suits a table of [n] notches at a loop time of [p]
    microseconds: no update without a notch, else at least one and at most
    [n] a loop iteration, and the whole table within about a millisecond. *)
Definition rateCheck (n p : Z) (rate : option Z) : bool :=
  match rate with
  | Some u =>
      (if n =? 0 then u =? 0 else (1 <=? u) && (u <=? n)) && (n * p <=? 1000 * u + 10)
  | None => false
  end.

Definition rateOk (n p : Z) : bool := rateCheck n p (updatesPerIteration n (of_int p)).

(** The same check for every table of up to [cells] notches and every loop
    time from [lo] to below [hi], with the constants and the iterations per
    update of a loop time computed once. *)
Definition rateFrom (loopIterationsPerUpdate offset : float) (numberFilters : Z)
  : option Z :=
  to_uint8 (rintf (add (div (of_int numberFilters) loopIterationsPerUpdate) offset)).

Definition rateTable (minUpdate micro offset : float) (cells lo hi : Z) : bool :=
  forallb (fun p =>
             let loopIterationsPerUpdate := div minUpdate (mul (of_int p) micro) in
             forallb (fun n => rateCheck n p (rateFrom loopIterationsPerUpdate offset n))
               (range 0 (cells + 1)))
    (range lo hi).

End RpmViews.

(** ** The rest of the link driver: the timer table, the transfer-complete
    handler and the output path of pwm_output_dshot.c *)

Module DshotLink.
Import CInt Dshot.

(** *** [getTimerIndex]

    An entry of [dmaMotorTimers]: the timer it stands for (its address) and
    the DMA sources accumulated for the next frame. *)
Record motorDmaTimer_t := {
  timer : Z;
  timerDmaSources : Z
}.

(** [dmaMotorTimerCount] and [dmaMotorTimers]. *)
Record timerTable := {
  dmaMotorTimerCount : Z;
  dmaMotorTimers : Z -> motorDmaTimer_t
}.

Definition setTimerEntry (t : timerTable) (count : Z) (i : Z) (entry : motorDmaTimer_t)
  : timerTable :=
  {| dmaMotorTimerCount := count;
     dmaMotorTimers := fun j => if j =? i then entry else dmaMotorTimers t j |}.

(** The search loop: the first index below the count whose entry is the
    timer. *)
Definition findTimer (t : timerTable) (tim : Z) : option Z :=
  find (fun i => timer (dmaMotorTimers t i) =? tim) (upto (dmaMotorTimerCount t)).

Section Table.
(** The size of the table, from drivers/pwm_output.h. *)
Variable MAX_DMA_TIMERS : Z.

(** [getTimerIndex]: the index found, or that of a new entry; the write of
    a new entry beyond the table is a fault.  The count and the result are
    [uint8_t]. *)
Definition getTimerIndex (t : timerTable) (tim : Z) : option (Z * timerTable) :=
  match findTimer t tim with
  | Some i => Some (uint8 i, t)
  | None =>
      let i := dmaMotorTimerCount t in
      if (0 <=? i) && (i <? MAX_DMA_TIMERS) then
        let count := uint8 (i + 1) in
        let entry := {| timer := tim;
                        timerDmaSources := timerDmaSources (dmaMotorTimers t i) |} in
        Some (uint8 (count - 1), setTimerEntry t count i entry)
      else None
  end.

(** [timerIndex == dmaMotorTimerCount-1] of
    [pwmDshotMotorHardwareConfig], on the result of [getTimerIndex]. *)
Definition configureTimer (r : Z * timerTable) : bool :=
  fst r =? dmaMotorTimerCount (snd r) - 1.

(** The table holds each timer once, and fits. *)
Definition tableOk (t : timerTable) : Prop :=
  0 <= dmaMotorTimerCount t <= MAX_DMA_TIMERS /\
  forall i j, 0 <= i < dmaMotorTimerCount t -> 0 <= j < dmaMotorTimerCount t ->
              timer (dmaMotorTimers t i) = timer (dmaMotorTimers t j) -> i = j.

(** The calls of [getTimerIndex] for the timers of the motors that
    [pwmDshotMotorHardwareConfig] configures one after the other; a call
    that writes beyond the table ends the run. *)
Definition registerAll (tims : list Z) (t : timerTable) : option timerTable :=
  fold_left (fun acc tim =>
               ' t <- acc;
               ' r <- getTimerIndex t tim;
               Some (snd r))
    tims (Some t).

End Table.

(** The timers that the table holds, in the order of the entries. *)
Definition tableTimers (t : timerTable) : list Z :=
  map (fun i => timer (dmaMotorTimers t i)) (upto (dmaMotorTimerCount t)).

(** Tables before any motor is configured, and after motors on a first and
    on a second timer have been; the timers are numbered by their
    addresses. *)
Definition emptyTable : timerTable :=
  {| dmaMotorTimerCount := 0;
     dmaMotorTimers := fun _ => {| timer := 0; timerDmaSources := 0 |} |}.

Definition oneTimer : timerTable :=
  setTimerEntry emptyTable 1 0 {| timer := 1073807360; timerDmaSources := 0 |}.

Definition twoTimers : timerTable :=
  setTimerEntry oneTimer 2 1 {| timer := 1073742848; timerDmaSources := 0 |}.

(** Nine timers, one more than a table of eight holds. *)
Definition nineTimers : list Z := map (fun i => 1073741824 + 1024 * i) (upto 9).

(** A driver with two DShot motors at rest: in output mode, no capture
    pending. *)
Definition idleDriver : driver :=
  {| dmaMotors := fun _ =>
       {| hasTelemetry := false; useProshot := false; isInput := false;
          dmaBuffer := repeat 0 32; dshotTelemetryValue := 7 |};
     dshotInvalidPacketCount := 0;
     inputBuffer := repeat 0 32;
     Dshot.useDshotTelemetry := true |}.

(** A capture whose timer started [c] ticks earlier: every timestamp moves
    by [c], on [uint32_t]. *)
Definition shifted (c : Z) (buffer : list Z) : list Z :=
  map (fun t => uint32 (t + c)) buffer.

(** *** The transfer-complete interrupt

    [processInputIrq]: the capture is complete.  The DMA and timer commands
    are outside the model. *)
Definition processInputIrq (d : driver) (i : Z) (readDoneCount : Z) : driver * Z :=
  (setMotor d i (setHasTelemetry (dmaMotors d i) true), uint32 (readDoneCount + 1)).

(** [motor_DMA_IRQHandler] for the descriptor of motor [userParam], whose
    transfer-complete flag is [flag]; the state is the driver and
    [readDoneCount], the result also has the flag as the handler leaves
    it. *)
Definition motor_DMA_IRQHandler (flag : bool) (userParam : Z) (s : driver * Z)
  : driver * Z * bool :=
  let '(d, readDoneCount) := s in
  if flag then
    let s' :=
      if isInput (dmaMotors d userParam) then processInputIrq d userParam readDoneCount
      else if Dshot.useDshotTelemetry d
           then (pwmDshotSetDirectionOutput d userParam false, readDoneCount)
           else (d, readDoneCount) in
    (s', false)
  else (s, flag).

(** The DMA engine stores the captured edge times in the motor's buffer. *)
Definition capture (d : driver) (i : Z) (edges : list Z) : driver :=
  setMotor d i {| hasTelemetry := hasTelemetry (dmaMotors d i);
                  useProshot := useProshot (dmaMotors d i);
                  isInput := isInput (dmaMotors d i);
                  dmaBuffer := edges;
                  dshotTelemetryValue := dshotTelemetryValue (dmaMotors d i) |}.

Section Frame.
Variables MOTOR_NIBBLE_LENGTH_PROSHOT PROSHOT_BASE_SYMBOL PROSHOT_BIT_WIDTH : Z.

(** What the frame start makes of one motor: the value decoded from a ready
    capture when it passes the checksum, the ready flag cleared and the
    direction back to output. *)
Definition startedMotor (motor : motorDmaOutput_t) : motorDmaOutput_t :=
  {| hasTelemetry := false;
     useProshot := useProshot motor;
     isInput := false;
     dmaBuffer := dmaBuffer motor;
     dshotTelemetryValue :=
       if hasTelemetry motor then
         match decodeMotor MOTOR_NIBBLE_LENGTH_PROSHOT PROSHOT_BASE_SYMBOL
                 PROSHOT_BIT_WIDTH motor with
         | Some value => if value =? INVALID then dshotTelemetryValue motor else value
         | None => dshotTelemetryValue motor
         end
       else dshotTelemetryValue motor |}.

(** One telemetry frame of motor [i]: the command transfer completes, the
    edges are captured, the capture completes, and the next frame starts. *)
Definition telemetryFrame (motorCount i : Z) (edges : list Z) (s : driver * Z)
  : option (driver * Z) :=
  let '(s1, _) := motor_DMA_IRQHandler true i s in
  let s2 := (capture (fst s1) i edges, snd s1) in
  let '(s3, _) := motor_DMA_IRQHandler true i s2 in
  ' d4 <- pwmStartDshotMotorUpdate MOTOR_NIBBLE_LENGTH_PROSHOT PROSHOT_BASE_SYMBOL
            PROSHOT_BIT_WIDTH motorCount (fst s3);
  Some (d4, snd s3).

End Frame.

(** *** The output path

    [pwmWriteDshotInt] and [pwmCompleteDshotMotorUpdate] in a build without
    burst DMA.  The fields of [motorDmaOutput_t] that they use; [motor->timer]
    points into [dmaMotorTimers] and is the index of the entry. *)
Record outputMotor_t := {
  configured : bool;
  motorTimer : Z;
  timerDmaSource : Z;
  value : Z;
  requestTelemetry : bool
}.

Record output := {
  outputMotors : Z -> outputMotor_t;
  outputTimers : timerTable
}.

Definition setRequestTelemetry (m : outputMotor_t) (b : bool) : outputMotor_t :=
  {| configured := configured m; motorTimer := motorTimer m;
     timerDmaSource := timerDmaSource m; value := value m; requestTelemetry := b |}.

Definition setValue (m : outputMotor_t) (v : Z) : outputMotor_t :=
  {| configured := configured m; motorTimer := motorTimer m;
     timerDmaSource := timerDmaSource m; value := v;
     requestTelemetry := requestTelemetry m |}.

Definition setSources (t : timerTable) (i : Z) (sources : Z) : timerTable :=
  {| dmaMotorTimerCount := dmaMotorTimerCount t;
     dmaMotorTimers := fun j =>
       if j =? i then {| timer := timer (dmaMotorTimers t i); timerDmaSources := sources |}
       else dmaMotorTimers t j |}.

Section OutputPath.
(** The command queue and the packet encoder of drivers/pwm_output.c, which
    is not among the sources: the command for a motor, and the packet for a
    motor together with what the encoder leaves of the motor structure. *)
Variable pwmGetDshotCommand : Z -> Z.
Variable prepareDshotPacket : outputMotor_t -> Z * outputMotor_t.

(** [pwmWriteDshotInt(index, value)], given what
    [pwmDshotCommandIsProcessing()] returns; the load of the DMA buffer and
    the DMA commands are outside the model.  [timerDmaSources] is a
    [uint16_t]. *)
Definition pwmWriteDshotInt (commandIsProcessing : bool) (index : Z) (value : Z)
    (s : output) : output :=
  let motor := outputMotors s index in
  if negb (configured motor) then s
  else
    let '(value, motor) :=
      if commandIsProcessing then
        let value := uint16 (pwmGetDshotCommand index) in
        (value, if negb (value =? 0) then setRequestTelemetry motor true else motor)
      else (value, motor) in
    let motor := setValue motor value in
    let '(packet, motor) := prepareDshotPacket motor in
    let i := motorTimer motor in
    let sources := timerDmaSources (dmaMotorTimers (outputTimers s) i) in
    {| outputMotors := fun j => if j =? index then motor else outputMotors s j;
       outputTimers :=
         setSources (outputTimers s) i (uint16 (Z.lor sources (timerDmaSource motor))) |}.

(** A sequence of calls, each with the answer of the command queue, the
    motor and the value. *)
Definition writes (ws : list (bool * Z * Z)) (s : output) : output :=
  fold_left (fun s w => let '(processing, index, value) := w in
                        pwmWriteDshotInt processing index value s) ws s.

End OutputPath.

(** [pwmCompleteDshotMotorUpdate], given what [pwmDshotCommandIsQueued()]
    and [pwmDshotCommandOutputIsEnabled(motorCount)] return; the result has
    the calls [TIM_DMACmd(timer, sources, ENABLE)] in order. *)
Definition pwmCompleteDshotMotorUpdate (commandIsQueued commandOutputIsEnabled : bool)
    (s : output) : output * list (Z * Z) :=
  if commandIsQueued && negb commandOutputIsEnabled then (s, [])
  else
    let '(t, enabled) :=
      fold_left (fun '(t, enabled) i =>
                   (setSources t i 0,
                    enabled ++ [(timer (dmaMotorTimers t i),
                                 timerDmaSources (dmaMotorTimers t i))]))
        (upto (dmaMotorTimerCount (outputTimers s))) (outputTimers s, []) in
    ({| outputMotors := outputMotors s; outputTimers := t |}, enabled).

(** What a sequence of writes asks of timer [i] on bit [b]: a configured
    motor of that timer with that bit as its DMA source was written. *)
Definition requested (s : output) (ws : list (bool * Z * Z)) (i b : Z) : bool :=
  existsb (fun w => let m := outputMotors s (snd (fst w)) in
                    configured m && (motorTimer m =? i) && Z.testbit (timerDmaSource m) b) ws.

(** What ties a motor to its timer: set by the hardware configuration. *)
Definition wiring (m : outputMotor_t) : bool * Z * Z :=
  (configured m, motorTimer m, timerDmaSource m).

(** Modelled from the spec: the encoder of drivers/pwm_output.c is not among
    the sources; the specification has it append the telemetry-request bit
    and a checksum of exclusive-or folded nibbles to the value.  It stands
    in for [prepareDshotPacket] where the model is run, and clears the
    request. *)
Definition samplePrepare (m : outputMotor_t) : Z * outputMotor_t :=
  let packet := Z.lor (Z.shiftl (value m) 1) (if requestTelemetry m then 1 else 0) in
  let csum := Z.land (Z.lxor (Z.lxor packet (Z.shiftr packet 4)) (Z.shiftr packet 8)) 15 in
  (Z.lor (Z.shiftl packet 4) csum, setRequestTelemetry m false).

(** Two motors on channels 1 and 2 of the first timer, one on channel 1 of
    the second, and a fourth that is not configured. *)
Definition sampleOutput : output :=
  {| outputMotors := fun i =>
       {| configured := i <? 3;
          motorTimer := if i <? 2 then 0 else 1;
          timerDmaSource := if (i =? 0) || (i =? 2) then 512 else 1024;
          value := 0; requestTelemetry := false |};
     outputTimers := twoTimers |}.

End DshotLink.

(** * Properties *)

Import CInt.

(** ** Integers and bits *)

Lemma uint8_range z : 0 <= uint8 z < 256.
Proof. unfold uint8. apply Z.mod_pos_bound. reflexivity. Qed.

Lemma uint8_small z : 0 <= z < 256 -> uint8 z = z.
Proof. intros H. unfold uint8. apply Z.mod_small. exact H. Qed.

Lemma uint16_small z : 0 <= z < 65536 -> uint16 z = z.
Proof. intros H. unfold uint16. apply Z.mod_small. exact H. Qed.

Lemma uint32_small z : 0 <= z < 4294967296 -> uint32 z = z.
Proof. intros H. unfold uint32. apply Z.mod_small. exact H. Qed.

Lemma int32_small z : - 2147483648 < z < 2147483648 -> int32 (uint32 z) = z.
Proof.
  intros H. unfold int32, uint32. rewrite Z.mod_mod by lia.
  change (2 ^ 32) with 4294967296. change (2 ^ 31) with 2147483648.
  destruct (Z.ltb_spec (z mod 4294967296) 2147483648) as [Hlt|Hge];
    Z.div_mod_to_equations; lia.
Qed.

Lemma lor_bound a b n :
  0 <= n -> 0 <= a < 2 ^ n -> 0 <= b < 2 ^ n -> 0 <= Z.lor a b < 2 ^ n.
Proof.
  intros Hn Ha Hb.
  destruct (Z.eq_dec a 0) as [->|Ha0]; [rewrite Z.lor_0_l; exact Hb|].
  destruct (Z.eq_dec b 0) as [->|Hb0]; [rewrite Z.lor_0_r; exact Ha|].
  assert (Hnn : 0 <= Z.lor a b) by (apply Z.lor_nonneg; lia).
  split; [exact Hnn|].
  assert (Hpos : 0 < Z.lor a b).
  { destruct (Z.eq_dec (Z.lor a b) 0) as [E|E]; [|lia].
    apply Z.lor_eq_0_iff in E. lia. }
  apply Z.log2_lt_pow2; [exact Hpos|].
  rewrite Z.log2_lor by lia.
  apply Z.max_lub_lt; apply Z.log2_lt_pow2; lia.
Qed.

Lemma land_15_range z : 0 <= Z.land z 15 < 16.
Proof.
  change 15 with (Z.ones 4). rewrite Z.land_ones by lia.
  apply Z.mod_pos_bound. reflexivity.
Qed.

Lemma read_in_range buffer i :
  0 <= i < Z.of_nat (length buffer) -> exists x, read buffer i = Some x.
Proof.
  intros [Hlo Hhi]. unfold read.
  destruct (i <? 0) eqn:E; [apply Z.ltb_lt in E; lia|].
  destruct (nth_error buffer (Z.to_nat i)) as [x|] eqn:Hx; [now exists x|].
  apply nth_error_None in Hx. lia.
Qed.

(** ** The telemetry decoders *)

Import Dshot.

Lemma shift_in j k value x :
  0 <= j -> 0 < k -> j + k <= 32 ->
  0 <= value < 2 ^ j -> 0 <= x < 2 ^ k ->
  0 <= uint32 (Z.shiftl value k) < 2 ^ (j + k) /\
  0 <= Z.lor (uint32 (Z.shiftl value k)) x < 2 ^ (j + k).
Proof.
  intros Hj Hk Hjk Hv Hx.
  assert (Hpow : 2 ^ (j + k) = 2 ^ j * 2 ^ k) by (apply Z.pow_add_r; lia).
  assert (Hk2 : 0 < 2 ^ k) by (apply Z.pow_pos_nonneg; lia).
  assert (Hle : 2 ^ (j + k) <= 2 ^ 32) by (apply Z.pow_le_mono_r; lia).
  assert (Hs : 0 <= Z.shiftl value k < 2 ^ (j + k)).
  { rewrite Z.shiftl_mul_pow2 by lia. rewrite Hpow. nia. }
  assert (Hu : uint32 (Z.shiftl value k) = Z.shiftl value k).
  { apply uint32_small. change 4294967296 with (2 ^ 32). lia. }
  rewrite Hu. split; [exact Hs|].
  apply lor_bound; [lia|exact Hs|].
  split; [lia|]. rewrite Hpow.
  assert (1 <= 2 ^ j) by (assert (0 < 2 ^ j) by (apply Z.pow_pos_nonneg; lia); lia).
  nia.
Qed.

Lemma dshotStep_ok buffer i value j :
  1 <= i < Z.of_nat (length buffer) -> 0 <= j < 32 -> 0 <= value < 2 ^ j ->
  exists v, dshotStep buffer i value = Some v /\ 0 <= v < 2 ^ (j + 1).
Proof.
  intros Hi Hj Hv. unfold dshotStep.
  destruct (read_in_range buffer i) as [hi ->]; [lia|].
  destruct (read_in_range buffer (i - 1)) as [lo ->]; [lia|].
  cbn [bind].
  destruct (shift_in j 1 value 1) as [H0 H1]; try lia.
  destruct (dshotBit (int32 (hi - lo))); eexists; (split; [reflexivity|]); assumption.
Qed.

Lemma dshotLoop_ok buffer : DSHOT_TELEMETRY_INPUT_LEN <= Z.of_nat (length buffer) ->
  forall fuel j value,
  0 <= j <= 16 -> 0 <= value < 2 ^ j -> (18 - j <= Z.of_nat fuel) ->
  exists v, dshotLoop fuel buffer (2 * j + 1) value = Some v /\ 0 <= v < 2 ^ 16.
Proof.
  unfold DSHOT_TELEMETRY_INPUT_LEN. intros Hlen.
  induction fuel as [|fuel IH]; intros j value Hj Hv Hfuel; [lia|].
  cbn [dshotLoop]. unfold DSHOT_TELEMETRY_INPUT_LEN.
  destruct (Z.ltb_spec (2 * j + 1) 32) as [Hlt|Hge].
  - destruct (dshotStep_ok buffer (2 * j + 1) value j) as [v [-> Hb]]; try lia.
    cbn [bind]. replace (2 * j + 1 + 2) with (2 * (j + 1) + 1) by lia.
    apply IH; lia.
  - assert (j = 16) by lia. subst j. exists value. split; [reflexivity|exact Hv].
Qed.

Lemma dshotWord_ok buffer :
  DSHOT_TELEMETRY_INPUT_LEN <= Z.of_nat (length buffer) ->
  exists v, dshotWord buffer = Some v /\ 0 <= v < 2 ^ 16.
Proof.
  intros Hlen. unfold dshotWord.
  apply (dshotLoop_ok buffer Hlen _ 0 0); [lia| |].
  - change (2 ^ 0) with 1. lia.
  - unfold DSHOT_TELEMETRY_INPUT_LEN. simpl. lia.
Qed.

Lemma proshotNibble_ok modulo base width hi lo :
  proshotTiming modulo base width ->
  exists n, proshotNibble modulo base width hi lo = Some n.
Proof.
  intros (Hm & Hb & Hw & Hsum). unfold proshotNibble.
  change (2 ^ 31) with 2147483648 in *.
  assert (Hum : uint32 modulo = modulo) by (apply uint32_small; lia).
  rewrite Hum.
  destruct (Z.eqb_spec modulo 0) as [E|_]; [lia|].
  set (x := uint32 (hi + modulo - lo) mod modulo).
  assert (Hx : 0 <= x < modulo) by (apply Z.mod_pos_bound; lia).
  assert (Hd : int32 (x - base) = x - base).
  { unfold int32. change (2 ^ 32) with 4294967296. change (2 ^ 31) with 2147483648.
    destruct (Z.ltb_spec ((x - base) mod 4294967296) 2147483648);
      Z.div_mod_to_equations; lia. }
  rewrite Hd.
  destruct (x - base <? 0); [eexists; reflexivity|].
  destruct (Z.eqb_spec width 0) as [E|_]; [lia|].
  assert (Hq : 0 <= Z.quot width 2 <= width).
  { rewrite Z.quot_div_nonneg by lia. Z.div_mod_to_equations. lia. }
  unfold INT_MAX. change (2 ^ 31 - 1) with 2147483647.
  destruct (Z.gtb_spec (x - base + Z.quot width 2) 2147483647) as [Hgt|_]; [lia|].
  eexists; reflexivity.
Qed.

Lemma proshotStep_ok modulo base width buffer i value j :
  proshotTiming modulo base width ->
  1 <= i < Z.of_nat (length buffer) -> 0 <= j <= 28 -> 0 <= value < 2 ^ j ->
  exists v, proshotStep modulo base width buffer i value = Some v /\ 0 <= v < 2 ^ (j + 4).
Proof.
  intros Ht Hi Hj Hv. unfold proshotStep.
  destruct (read_in_range buffer i) as [hi ->]; [lia|].
  destruct (read_in_range buffer (i - 1)) as [lo ->]; [lia|].
  cbn [bind].
  destruct (proshotNibble_ok modulo base width hi lo Ht) as [n ->].
  cbn [bind].
  destruct (shift_in j 4 value (Z.land n 15)) as [_ H1]; try lia.
  - apply land_15_range.
  - eexists; split; [reflexivity|exact H1].
Qed.

Lemma proshotLoop_ok modulo base width buffer :
  proshotTiming modulo base width ->
  PROSHOT_TELEMETRY_INPUT_LEN <= Z.of_nat (length buffer) ->
  forall fuel j value,
  0 <= j <= 4 -> 0 <= value < 2 ^ (4 * j) -> (6 - j <= Z.of_nat fuel) ->
  exists v, proshotLoop modulo base width fuel buffer (2 * j + 1) value = Some v
            /\ 0 <= v < 2 ^ 16.
Proof.
  unfold PROSHOT_TELEMETRY_INPUT_LEN. intros Ht Hlen.
  induction fuel as [|fuel IH]; intros j value Hj Hv Hfuel; [lia|].
  cbn [proshotLoop]. unfold PROSHOT_TELEMETRY_INPUT_LEN.
  destruct (Z.ltb_spec (2 * j + 1) 8) as [Hlt|Hge].
  - destruct (proshotStep_ok modulo base width buffer (2 * j + 1) value (4 * j) Ht)
      as [v [-> Hb]]; try lia.
    cbn [bind]. replace (2 * j + 1 + 2) with (2 * (j + 1) + 1) by lia.
    apply IH; try lia. replace (4 * (j + 1)) with (4 * j + 4) by lia. exact Hb.
  - assert (j = 4) by lia. subst j. exists value. split; [reflexivity|exact Hv].
Qed.

Lemma proshotWord_ok modulo base width buffer :
  proshotTiming modulo base width ->
  PROSHOT_TELEMETRY_INPUT_LEN <= Z.of_nat (length buffer) ->
  exists v, proshotWord modulo base width buffer = Some v /\ 0 <= v < 2 ^ 16.
Proof.
  intros Ht Hlen. unfold proshotWord.
  apply (proshotLoop_ok modulo base width buffer Ht Hlen _ 0 0); [lia| |].
  - change (2 ^ (4 * 0)) with 1. lia.
  - unfold PROSHOT_TELEMETRY_INPUT_LEN. simpl. lia.
Qed.

(** The checksum is the exclusive or of the four nibbles. *)
Lemma checksum_nibbles v :
  checksum v = Z.lxor (Z.lxor (nibble 0 v) (nibble 2 v)) (Z.lxor (nibble 1 v) (nibble 3 v)).
Proof.
  unfold checksum, nibble. apply Z.bits_inj'. intros n Hn.
  repeat (rewrite ?Z.land_spec, ?Z.lxor_spec, ?Z.shiftr_spec by lia).
  change (4 * 0) with 0. change (4 * 1) with 4. change (4 * 2) with 8.
  change (4 * 3) with 12.
  rewrite Z.add_0_r. replace (n + 4 + 8) with (n + 12) by lia.
  destruct (Z.testbit v n), (Z.testbit v (n + 4)), (Z.testbit v (n + 8)),
    (Z.testbit v (n + 12)), (Z.testbit 15 n); reflexivity.
Qed.

Lemma nibble_lxor k a b : 0 <= k ->
  nibble k (Z.lxor a b) = Z.lxor (nibble k a) (nibble k b).
Proof.
  intros Hk. unfold nibble. apply Z.bits_inj'. intros n Hn.
  repeat (rewrite ?Z.land_spec, ?Z.lxor_spec, ?Z.shiftr_spec by lia).
  destruct (Z.testbit a (n + 4 * k)), (Z.testbit b (n + 4 * k)), (Z.testbit 15 n);
    reflexivity.
Qed.

Lemma lxor_cancel_l a b c : Z.lxor a b = Z.lxor a c -> b = c.
Proof.
  intros H. apply (f_equal (Z.lxor a)) in H.
  now rewrite <- !Z.lxor_assoc, Z.lxor_nilpotent, !Z.lxor_0_l in H.
Qed.

Lemma lxor_cancel_r a b c : Z.lxor b a = Z.lxor c a -> b = c.
Proof. rewrite !(Z.lxor_comm _ a). apply lxor_cancel_l. Qed.

Lemma checksum_one_nibble v w :
  checksum v = 0 -> oneNibbleApart v w -> checksum w <> 0.
Proof.
  intros Hv (k & Hk & Hne & Hsame) Hw.
  assert (E : checksum v = checksum w) by congruence.
  rewrite !checksum_nibbles in E. clear Hv Hw.
  assert (Hcases : k = 0 \/ k = 1 \/ k = 2 \/ k = 3) by lia.
  destruct Hcases as [ -> | [ -> | [ -> | -> ] ] ].
  - rewrite <- (Hsame 1), <- (Hsame 2), <- (Hsame 3) in E by lia.
    apply lxor_cancel_r, lxor_cancel_r in E. contradiction.
  - rewrite <- (Hsame 0), <- (Hsame 2), <- (Hsame 3) in E by lia.
    apply lxor_cancel_l, lxor_cancel_r in E. contradiction.
  - rewrite <- (Hsame 0), <- (Hsame 1), <- (Hsame 3) in E by lia.
    apply lxor_cancel_r, lxor_cancel_l in E. contradiction.
  - rewrite <- (Hsame 0), <- (Hsame 1), <- (Hsame 2) in E by lia.
    apply lxor_cancel_l, lxor_cancel_l in E. contradiction.
Qed.

(** Flipping bit [i] of a word changes nibble [i / 4] and no other. *)
Lemma bit_flip_one_nibble v i : 0 <= i < 16 -> oneNibbleApart v (Z.lxor v (2 ^ i)).
Proof.
  intros Hi. exists (i / 4).
  assert (Hk : 0 <= i / 4 < 4) by (Z.div_mod_to_equations; lia).
  split; [exact Hk|]. split.
  - rewrite nibble_lxor by lia. intros E.
    rewrite <- (Z.lxor_0_r (nibble (i / 4) v)) in E at 1.
    apply lxor_cancel_l in E. symmetry in E. revert E.
    assert (Hc : i = 0 \/ i = 1 \/ i = 2 \/ i = 3 \/ i = 4 \/ i = 5 \/ i = 6 \/ i = 7 \/
                 i = 8 \/ i = 9 \/ i = 10 \/ i = 11 \/ i = 12 \/ i = 13 \/ i = 14 \/ i = 15)
      by lia.
    repeat (destruct Hc as [->|Hc]; [vm_compute; discriminate|]).
    subst i. vm_compute. discriminate.
  - intros j Hj Hne. rewrite nibble_lxor by lia.
    rewrite <- (Z.lxor_0_r (nibble j v)) at 1. f_equal.
    assert (Hc : i = 0 \/ i = 1 \/ i = 2 \/ i = 3 \/ i = 4 \/ i = 5 \/ i = 6 \/ i = 7 \/
                 i = 8 \/ i = 9 \/ i = 10 \/ i = 11 \/ i = 12 \/ i = 13 \/ i = 14 \/ i = 15)
      by lia.
    assert (Hjc : j = 0 \/ j = 1 \/ j = 2 \/ j = 3) by lia.
    destruct Hjc as [ -> | [ -> | [ -> | -> ] ] ];
      repeat (destruct Hc as [->|Hc];
              [first [reflexivity | exfalso; apply Hne; reflexivity]|]);
      subst i; first [reflexivity | exfalso; apply Hne; reflexivity].
Qed.

Lemma finishPacket_accepts v :
  0 <= v < 2 ^ 16 -> checksum v = 0 ->
  finishPacket v = Z.shiftr v 4 /\ 0 <= finishPacket v < 2 ^ 12.
Proof.
  intros Hv Hc. unfold finishPacket. rewrite Hc. cbn [Z.eqb].
  assert (Hs : 0 <= Z.shiftr v 4 < 2 ^ 12).
  { rewrite Z.shiftr_div_pow2 by lia. change (2 ^ 4) with 16.
    change (2 ^ 12) with 4096. change (2 ^ 16) with 65536 in Hv.
    Z.div_mod_to_equations. lia. }
  rewrite uint16_small by (change (2 ^ 12) with 4096 in Hs; lia).
  split; [reflexivity|exact Hs].
Qed.

Lemma finishPacket_rejects v : checksum v <> 0 -> finishPacket v = INVALID.
Proof.
  intros Hc. unfold finishPacket.
  destruct (Z.eqb_spec (checksum v) 0); [contradiction|reflexivity].
Qed.

Lemma finishPacket_cases v :
  0 <= v < 2 ^ 16 ->
  finishPacket v = (if checksum v =? 0 then Z.shiftr v 4 else INVALID) /\
  (finishPacket v = INVALID <-> checksum v <> 0) /\
  (finishPacket v <> INVALID -> 0 <= finishPacket v < 2 ^ 12).
Proof.
  intros Hv. destruct (Z.eqb_spec (checksum v) 0) as [E|E].
  - destruct (finishPacket_accepts v Hv E) as [Heq Hb].
    change (2 ^ 12) with 4096 in Hb. unfold INVALID.
    repeat split; try assumption; try lia.
  - rewrite (finishPacket_rejects v E).
    split; [reflexivity|]. split; [tauto|]. intros Hne. now elim Hne.
Qed.

(** ** The frame start of the driver *)

Section Driver.
Variables modulo base width : Z.
Hypothesis Htiming : proshotTiming modulo base width.

Lemma decodeDshotPacket_ok buffer :
  DSHOT_TELEMETRY_INPUT_LEN <= Z.of_nat (length buffer) ->
  exists v, dshotWord buffer = Some v /\ 0 <= v < 2 ^ 16 /\
            decodeDshotPacket buffer = Some (finishPacket v).
Proof.
  intros Hlen. destruct (dshotWord_ok buffer Hlen) as [v [Hv Hb]].
  exists v. unfold decodeDshotPacket. rewrite Hv. auto.
Qed.

Lemma decodeProshotPacket_ok buffer :
  PROSHOT_TELEMETRY_INPUT_LEN <= Z.of_nat (length buffer) ->
  exists v, proshotWord modulo base width buffer = Some v /\ 0 <= v < 2 ^ 16 /\
            decodeProshotPacket modulo base width buffer = Some (finishPacket v).
Proof.
  intros Hlen. destruct (proshotWord_ok modulo base width buffer Htiming Hlen) as [v [Hv Hb]].
  exists v. unfold decodeProshotPacket. rewrite Hv. auto.
Qed.

Lemma decodeMotor_ok m :
  DSHOT_TELEMETRY_INPUT_LEN <= Z.of_nat (length (dmaBuffer m)) ->
  exists v, decodeMotor modulo base width m = Some v /\
            (v = INVALID \/ 0 <= v < 4096).
Proof.
  intros Hlen. unfold decodeMotor. destruct (useProshot m).
  - destruct (decodeProshotPacket_ok (dmaBuffer m)) as (w & _ & Hw & ->).
    { unfold PROSHOT_TELEMETRY_INPUT_LEN, DSHOT_TELEMETRY_INPUT_LEN in *. lia. }
    eexists; split; [reflexivity|].
    destruct (finishPacket_cases w Hw) as (_ & _ & Hb).
    destruct (Z.eq_dec (finishPacket w) INVALID); [now left|right; now apply Hb].
  - destruct (decodeDshotPacket_ok (dmaBuffer m) Hlen) as (w & _ & Hw & ->).
    eexists; split; [reflexivity|].
    destruct (finishPacket_cases w Hw) as (_ & _ & Hb).
    destruct (Z.eq_dec (finishPacket w) INVALID); [now left|right; now apply Hb].
Qed.

Lemma startMotor_spec d i :
  DSHOT_TELEMETRY_INPUT_LEN <= Z.of_nat (length (dmaBuffer (dmaMotors d i))) ->
  exists d', startMotor modulo base width d i = Some d' /\
    (forall j, j <> i -> dmaMotors d' j = dmaMotors d j) /\
    (if invalidCapture modulo base width (dmaMotors d i)
     then getDshotTelemetry d' i = getDshotTelemetry d i /\
          dshotInvalidPacketCount d' = uint32 (dshotInvalidPacketCount d + 1)
     else (getDshotTelemetry d' i = getDshotTelemetry d i \/
           0 <= getDshotTelemetry d' i < 4096) /\
          dshotInvalidPacketCount d' = dshotInvalidPacketCount d).
Proof.
  intros Hlen. unfold startMotor, invalidCapture.
  destruct (decodeMotor_ok (dmaMotors d i) Hlen) as (v & Hv & Hrange).
  rewrite Hv. destruct (hasTelemetry (dmaMotors d i)); cbn [bind andb].
  - destruct (Z.eqb_spec v INVALID) as [E|E]; cbn [negb];
      eexists; (split; [reflexivity|]); split.
    + intros j Hj. cbn. destruct (Z.eqb_spec j i); [contradiction|reflexivity].
    + unfold getDshotTelemetry. cbn. rewrite !Z.eqb_refl. cbn.
      split; reflexivity.
    + intros j Hj. cbn. destruct (Z.eqb_spec j i); [contradiction|reflexivity].
    + unfold getDshotTelemetry. cbn. rewrite !Z.eqb_refl. cbn.
      split; [|reflexivity]. destruct Hrange as [Hr|Hr]; [contradiction|now right].
  - eexists; (split; [reflexivity|]); split.
    + intros j Hj. cbn. destruct (Z.eqb_spec j i); [contradiction|reflexivity].
    + unfold getDshotTelemetry. cbn. rewrite !Z.eqb_refl. cbn.
      split; [now left|reflexivity].
Qed.

Lemma uint32_add_l a b : uint32 (uint32 a + b) = uint32 (a + b).
Proof. unfold uint32. apply Zdiv.Zplus_mod_idemp_l. Qed.

Lemma startMotors_spec l :
  NoDup l -> forall d,
  (forall i, In i l ->
     DSHOT_TELEMETRY_INPUT_LEN <= Z.of_nat (length (dmaBuffer (dmaMotors d i)))) ->
  exists d',
    fold_left (fun acc i => ' d1 <- acc; startMotor modulo base width d1 i) l (Some d)
      = Some d' /\
    (forall j, ~ In j l -> dmaMotors d' j = dmaMotors d j) /\
    (forall j, In j l -> invalidCapture modulo base width (dmaMotors d j) = true ->
               getDshotTelemetry d' j = getDshotTelemetry d j) /\
    (forall j, getDshotTelemetry d' j = getDshotTelemetry d j \/
               0 <= getDshotTelemetry d' j < 4096) /\
    uint32 (dshotInvalidPacketCount d') =
      uint32 (dshotInvalidPacketCount d +
              Z.of_nat (length (filter (fun i => invalidCapture modulo base width (dmaMotors d i)) l))).
Proof.
  induction 1 as [|i l Hnin Hnd IH]; intros d Hlen.
  - exists d. cbn. rewrite Z.add_0_r. repeat split; auto.
  - destruct (startMotor_spec d i) as (d1 & Hd1 & Hother & Hi); [apply Hlen; now left|].
    destruct (IH d1) as (d' & Hd' & Hout & Hkeep & Hval & Hcount).
    { intros j Hj. rewrite Hother; [apply Hlen; now right|].
      intros ->. contradiction. }
    exists d'. cbn [fold_left bind]. rewrite Hd1. split; [exact Hd'|].
    assert (Hsame : forall j, In j l -> dmaMotors d1 j = dmaMotors d j).
    { intros j Hj. apply Hother. intros ->. contradiction. }
    assert (Hgeti : getDshotTelemetry d' i = getDshotTelemetry d1 i).
    { unfold getDshotTelemetry. now rewrite Hout. }
    repeat split.
    + intros j Hj. rewrite Hout by (intros Hin; apply Hj; now right).
      apply Hother. intros ->. apply Hj. now left.
    + intros j [<-|Hj] Hinv.
      * rewrite Hgeti. rewrite Hinv in Hi. apply Hi.
      * rewrite (Hkeep j Hj) by (rewrite (Hsame j Hj); exact Hinv).
        unfold getDshotTelemetry. now rewrite (Hsame j Hj).
    + intros j. destruct (Z.eq_dec j i) as [->|Hne].
      * destruct (Hval i) as [Hv|Hv]; [|now right]. rewrite Hv.
        destruct (invalidCapture modulo base width (dmaMotors d i)); [left|]; apply Hi.
      * destruct (Hval j) as [Hv|Hv]; [|now right]. left. rewrite Hv.
        unfold getDshotTelemetry. now rewrite Hother.
    + rewrite Hcount.
      rewrite (filter_ext_in _ (fun i => invalidCapture modulo base width (dmaMotors d i)))
        by (intros j Hj; now rewrite (Hsame j Hj)).
      cbn [filter].
      destruct (invalidCapture modulo base width (dmaMotors d i)).
      * destruct Hi as [_ ->]. cbn [length]. rewrite uint32_add_l. f_equal. lia.
      * destruct Hi as [_ ->]. reflexivity.
Qed.

Lemma upto_NoDup n : NoDup (upto n).
Proof.
  unfold upto. apply Injective_map_NoDup; [|apply seq_NoDup].
  intros x y. apply Nat2Z.inj.
Qed.

Lemma in_upto n i : In i (upto n) <-> 0 <= i < n.
Proof.
  unfold upto. rewrite in_map_iff. split.
  - intros (k & <- & Hk). apply in_seq in Hk. lia.
  - intros Hi. exists (Z.to_nat i). split; [lia|]. apply in_seq. lia.
Qed.

Lemma pwmStartDshotMotorUpdate_spec motorCount d :
  useDshotTelemetry d = true ->
  capturesSized d motorCount ->
  exists d',
    pwmStartDshotMotorUpdate modulo base width motorCount d = Some d' /\
    (forall j, 0 <= j < motorCount ->
               invalidCapture modulo base width (dmaMotors d j) = true ->
               getDshotTelemetry d' j = getDshotTelemetry d j) /\
    (forall j, getDshotTelemetry d' j = getDshotTelemetry d j \/
               0 <= getDshotTelemetry d' j < 4096) /\
    uint32 (dshotInvalidPacketCount d') =
      uint32 (dshotInvalidPacketCount d + invalidCaptures modulo base width d motorCount).
Proof.
  intros Hon Hsized. unfold pwmStartDshotMotorUpdate. rewrite Hon.
  destruct (startMotors_spec (upto motorCount) (upto_NoDup motorCount) d)
    as (d' & Hd' & _ & Hkeep & Hval & Hcount).
  - intros i Hi. apply Hsized. now apply in_upto.
  - exists d'. split; [exact Hd'|]. split; [|split; [exact Hval|exact Hcount]].
    intros j Hj. apply Hkeep. now apply in_upto.
Qed.

End Driver.

(** ** Claims about the decoders *)

(** C3. Both decoders are total on a capture buffer that holds at least the
    expected number of timestamps: they return a value, which is the
    sentinel [0xffff] exactly when the low nibble of the byte-then-nibble
    exclusive-or fold of the accumulated word is not zero, and the
    accumulated word shifted right by four otherwise. *)
Theorem decoders_total_and_checksum_gated modulo base width dbuf pbuf :
  proshotTiming modulo base width ->
  DSHOT_TELEMETRY_INPUT_LEN <= Z.of_nat (length dbuf) ->
  PROSHOT_TELEMETRY_INPUT_LEN <= Z.of_nat (length pbuf) ->
  (exists value,
     dshotWord dbuf = Some value /\
     decodeDshotPacket dbuf
       = Some (if checksum value =? 0 then Z.shiftr value 4 else INVALID) /\
     (decodeDshotPacket dbuf = Some INVALID <-> checksum value <> 0)) /\
  (exists value,
     proshotWord modulo base width pbuf = Some value /\
     decodeProshotPacket modulo base width pbuf
       = Some (if checksum value =? 0 then Z.shiftr value 4 else INVALID) /\
     (decodeProshotPacket modulo base width pbuf = Some INVALID <-> checksum value <> 0)).
Proof.
  intros Ht Hd Hp. split.
  - destruct (decodeDshotPacket_ok dbuf Hd) as (v & Hv & Hb & Hdec).
    destruct (finishPacket_cases v Hb) as (Heq & Hiff & _).
    exists v. rewrite Hdec, <- Heq. repeat split; auto.
    + intros E. apply Hiff. congruence.
    + intros E. f_equal. now apply Hiff.
  - destruct (decodeProshotPacket_ok modulo base width Ht pbuf Hp) as (v & Hv & Hb & Hdec).
    destruct (finishPacket_cases v Hb) as (Heq & Hiff & _).
    exists v. rewrite Hdec, <- Heq. repeat split; auto.
    + intros E. apply Hiff. congruence.
    + intros E. f_equal. now apply Hiff.
Qed.

Lemma decoders_total_and_checksum_gated_witness :
  proshotTiming 96 24 3 /\
  DSHOT_TELEMETRY_INPUT_LEN <= Z.of_nat (length (dshotCapture 4660)) /\
  PROSHOT_TELEMETRY_INPUT_LEN <= Z.of_nat (length (proshotCapture 24 3 4656)) /\
  (exists value,
     dshotWord (dshotCapture 4660) = Some value /\
     decodeDshotPacket (dshotCapture 4660)
       = Some (if checksum value =? 0 then Z.shiftr value 4 else INVALID) /\
     (decodeDshotPacket (dshotCapture 4660) = Some INVALID <-> checksum value <> 0)) /\
  (exists value,
     proshotWord 96 24 3 (proshotCapture 24 3 4656) = Some value /\
     decodeProshotPacket 96 24 3 (proshotCapture 24 3 4656)
       = Some (if checksum value =? 0 then Z.shiftr value 4 else INVALID) /\
     (decodeProshotPacket 96 24 3 (proshotCapture 24 3 4656) = Some INVALID
      <-> checksum value <> 0)).
Proof.
  assert (Ht : proshotTiming 96 24 3) by (unfold proshotTiming; lia).
  assert (Hd : DSHOT_TELEMETRY_INPUT_LEN <= Z.of_nat (length (dshotCapture 4660)))
    by (vm_compute; discriminate).
  assert (Hp : PROSHOT_TELEMETRY_INPUT_LEN <= Z.of_nat (length (proshotCapture 24 3 4656)))
    by (vm_compute; discriminate).
  split; [exact Ht|]. split; [exact Hd|]. split; [exact Hp|].
  exact (decoders_total_and_checksum_gated 96 24 3 _ _ Ht Hd Hp).
Defined.

Example dshot_decodes_rejected : decodeDshotPacket (dshotCapture 4660) = Some INVALID.
Proof. reflexivity. Qed.

Example dshot_decodes_accepted : decodeDshotPacket (dshotCapture 4656) = Some 291.
Proof. reflexivity. Qed.

Example proshot_decodes_accepted :
  decodeProshotPacket 96 24 3 (proshotCapture 24 3 4656) = Some 291.
Proof. reflexivity. Qed.

Example dshot_equal_edges : decodeDshotPacket (repeat 7 32) = Some 4095.
Proof. reflexivity. Qed.

(** C9. The checksum detects every corruption of a single nibble: if a
    word passes the checksum test, no word that differs from it in exactly
    one of its four nibbles passes, so a capture that accumulates such a
    word decodes to the sentinel with either decoder; a single flipped bit
    is such a corruption. *)
Theorem single_nibble_corruption_rejected modulo base width v w :
  checksum v = 0 ->
  oneNibbleApart v w ->
  checksum w <> 0 /\
  finishPacket w = INVALID /\
  (forall dbuf, dshotWord dbuf = Some w -> decodeDshotPacket dbuf = Some INVALID) /\
  (forall pbuf, proshotWord modulo base width pbuf = Some w ->
                decodeProshotPacket modulo base width pbuf = Some INVALID) /\
  (forall i, 0 <= i < 16 ->
     oneNibbleApart v (Z.lxor v (2 ^ i)) /\ finishPacket (Z.lxor v (2 ^ i)) = INVALID).
Proof.
  intros Hv Hw.
  assert (Hc : checksum w <> 0) by (apply (checksum_one_nibble v w); assumption).
  assert (Hf : finishPacket w = INVALID) by (apply finishPacket_rejects; exact Hc).
  repeat split; try assumption.
  - intros dbuf Hd. unfold decodeDshotPacket. rewrite Hd. cbn [bind]. now rewrite Hf.
  - intros pbuf Hp. unfold decodeProshotPacket. rewrite Hp. cbn [bind]. now rewrite Hf.
  - now apply bit_flip_one_nibble.
  - apply finishPacket_rejects, (checksum_one_nibble v); [exact Hv|].
    now apply bit_flip_one_nibble.
Qed.

Lemma single_nibble_corruption_rejected_witness :
  checksum 4656 = 0 /\
  oneNibbleApart 4656 4912 /\
  decodeDshotPacket (dshotCapture 4656) = Some 291 /\
  decodeDshotPacket (dshotCapture 4912) = Some INVALID /\
  decodeProshotPacket 96 24 3 (proshotCapture 24 3 4912) = Some INVALID.
Proof.
  assert (Hv : checksum 4656 = 0) by reflexivity.
  assert (Hw : oneNibbleApart 4656 4912).
  { exists 2. split; [lia|]. split; [vm_compute; discriminate|].
    intros j Hj Hne.
    assert (Hc : j = 0 \/ j = 1 \/ j = 3) by lia.
    destruct Hc as [ -> | [ -> | -> ] ]; reflexivity. }
  destruct (single_nibble_corruption_rejected 96 24 3 4656 4912 Hv Hw)
    as (_ & _ & Hd & Hp & _).
  split; [exact Hv|]. split; [exact Hw|]. split; [reflexivity|].
  split; [apply Hd; reflexivity|apply Hp; reflexivity].
Defined.

(** C10. A value returned by either decoder is the sentinel or is below
    [2^12], so a successful decode never collides with the sentinel; and
    every value that [pwmStartDshotMotorUpdate] newly stores for a motor,
    the value [getDshotTelemetry] returns afterwards, is below [2^12]. *)
Theorem sentinel_unambiguous modulo base width dbuf pbuf motorCount d :
  proshotTiming modulo base width ->
  DSHOT_TELEMETRY_INPUT_LEN <= Z.of_nat (length dbuf) ->
  PROSHOT_TELEMETRY_INPUT_LEN <= Z.of_nat (length pbuf) ->
  capturesSized d motorCount ->
  (exists value, decodeDshotPacket dbuf = Some value /\
                 (value <> INVALID -> 0 <= value < 2 ^ 12)) /\
  (exists value, decodeProshotPacket modulo base width pbuf = Some value /\
                 (value <> INVALID -> 0 <= value < 2 ^ 12)) /\
  (exists d', pwmStartDshotMotorUpdate modulo base width motorCount d = Some d' /\
     forall j, (getDshotTelemetry d' j <> getDshotTelemetry d j ->
                0 <= getDshotTelemetry d' j < 2 ^ 12) /\
               (getDshotTelemetry d j <> INVALID -> getDshotTelemetry d' j <> INVALID)).
Proof.
  intros Ht Hd Hp Hsized. split; [|split].
  - destruct (decodeDshotPacket_ok dbuf Hd) as (v & _ & Hb & ->).
    eexists; split; [reflexivity|]. apply (finishPacket_cases v Hb).
  - destruct (decodeProshotPacket_ok modulo base width Ht pbuf Hp) as (v & _ & Hb & ->).
    eexists; split; [reflexivity|]. apply (finishPacket_cases v Hb).
  - destruct (Dshot.useDshotTelemetry d) eqn:Hon.
    + destruct (pwmStartDshotMotorUpdate_spec modulo base width Ht motorCount d Hon Hsized)
        as (d' & Hd' & _ & Hval & _).
      exists d'. split; [exact Hd'|]. intros j.
      change (2 ^ 12) with 4096. unfold INVALID.
      destruct (Hval j) as [E|E]; split; intros H; first [lia|congruence].
    + exists d. unfold pwmStartDshotMotorUpdate. rewrite Hon. split; [reflexivity|].
      intros j. split; [intros H; now elim H|auto].
Qed.

Lemma sampleDriver_sized : capturesSized sampleDriver 2.
Proof.
  intros i Hi. assert (Hc : i = 0 \/ i = 1) by lia.
  destruct Hc as [ -> | -> ]; vm_compute; discriminate.
Qed.

Lemma sentinel_unambiguous_witness :
  proshotTiming 96 24 3 /\
  capturesSized sampleDriver 2 /\
  decodeDshotPacket (dshotCapture 4656) = Some 291 /\
  exists d', pwmStartDshotMotorUpdate 96 24 3 2 sampleDriver = Some d' /\
             getDshotTelemetry d' 0 = 291 /\ getDshotTelemetry d' 1 = 9 /\
             forall j, getDshotTelemetry d' j <> getDshotTelemetry sampleDriver j ->
                       0 <= getDshotTelemetry d' j < 2 ^ 12.
Proof.
  assert (Ht : proshotTiming 96 24 3) by (unfold proshotTiming; lia).
  assert (Hd : DSHOT_TELEMETRY_INPUT_LEN <= Z.of_nat (length (dshotCapture 4656)))
    by (vm_compute; discriminate).
  assert (Hp : PROSHOT_TELEMETRY_INPUT_LEN <= Z.of_nat (length (proshotCapture 24 3 4912)))
    by (vm_compute; discriminate).
  destruct (sentinel_unambiguous 96 24 3 _ _ 2 sampleDriver Ht Hd Hp sampleDriver_sized)
    as (_ & _ & d' & Hd' & Hnew).
  split; [exact Ht|]. split; [exact sampleDriver_sized|]. split; [reflexivity|].
  exists d'. split; [exact Hd'|].
  assert (E : Some d' = pwmStartDshotMotorUpdate 96 24 3 2 sampleDriver) by (symmetry; exact Hd').
  vm_compute in E. injection E as ->.
  split; [reflexivity|]. split; [reflexivity|].
  intros j. apply Hnew.
Defined.

(** ** Binary32 comparisons and products *)

Import Float32.

Lemma compare_cont_antisym p q :
  Pos.compare_cont Eq q p = CompOpp (Pos.compare_cont Eq p q).
Proof. apply (Pos.compare_antisym p q). Qed.

Lemma SFcompare_antisym x y :
  SFcompare y x = option_map CompOpp (SFcompare x y).
Proof.
  destruct x as [sx|sx| |sx mx ex], y as [sy|sy| |sy my ey]; cbn;
    try reflexivity; try (destruct sx; reflexivity); try (destruct sy; reflexivity);
    try (destruct sx, sy; reflexivity).
  destruct sx, sy; cbn; try reflexivity;
    rewrite (Z.compare_antisym ex ey); destruct (ex ?= ey); cbn; try reflexivity;
    rewrite (compare_cont_antisym mx my); destruct (Pos.compare_cont Eq mx my);
    reflexivity.
Qed.

Lemma SFcompare_nan_free x y :
  is_nan x = false -> is_nan y = false -> exists c, SFcompare x y = Some c.
Proof.
  destruct x, y; cbn; intros Hx Hy; try discriminate; eexists; reflexivity.
Qed.

(** Without NaN, [not (x < y)] is [y <= x]. *)
Lemma not_ltb_leb x y :
  is_nan x = false -> is_nan y = false -> ltb x y = false -> leb y x = true.
Proof.
  intros Hx Hy. unfold ltb, leb, SFltb, SFleb.
  rewrite (SFcompare_antisym x y).
  destruct (SFcompare_nan_free x y Hx Hy) as [c ->]. cbn.
  destruct c; cbn; congruence.
Qed.

Lemma leb_refl x : is_nan x = false -> leb x x = true.
Proof.
  intros Hx. apply not_ltb_leb; try assumption.
  unfold ltb, SFltb. pose proof (SFcompare_antisym x x) as H.
  destruct (SFcompare x x) as [[| |]|]; cbn in H; congruence.
Qed.

(** Rounding a non-negative mantissa never produces NaN. *)
Lemma shr_1_nonneg mrs : 0 <= shr_m mrs -> 0 <= shr_m (shr_1 mrs).
Proof.
  destruct mrs as [m r s]. cbn. destruct m as [|[p|p|]|[p|p|]]; cbn; lia.
Qed.

Lemma iter_shr_1_nonneg p : forall mrs,
  0 <= shr_m mrs -> 0 <= shr_m (iter_pos shr_1 p mrs).
Proof.
  induction p as [p IH|p IH|]; intros mrs H; cbn.
  - apply IH, IH, shr_1_nonneg, H.
  - apply IH, IH, H.
  - apply shr_1_nonneg, H.
Qed.

Lemma shr_fexp_nonneg m e l :
  0 <= m -> 0 <= shr_m (fst (shr_fexp prec emax m e l)).
Proof.
  intros Hm. unfold shr_fexp, shr.
  assert (H0 : 0 <= shr_m (shr_record_of_loc m l))
    by (destruct l as [|[]]; exact Hm).
  destruct (fexp prec emax (Zdigits2 m + e) - e); cbn [fst]; try exact H0.
  apply iter_shr_1_nonneg, H0.
Qed.

Lemma round_nearest_even_nonneg m l : 0 <= m -> 0 <= round_nearest_even m l.
Proof.
  intros Hm. destruct l as [|[]]; cbn; try lia. destruct (Z.even m); lia.
Qed.

Lemma binary_round_aux_not_nan sx mx ex lx :
  0 <= mx -> is_nan (binary_round_aux prec emax sx mx ex lx) = false.
Proof.
  intros Hm. unfold binary_round_aux.
  pose proof (shr_fexp_nonneg mx ex lx Hm) as H1.
  destruct (shr_fexp prec emax mx ex lx) as [mrs1 e1]. cbn [fst] in H1.
  pose proof (shr_fexp_nonneg (round_nearest_even (shr_m mrs1) (loc_of_shr_record mrs1))
                e1 loc_Exact (round_nearest_even_nonneg _ _ H1)) as H2.
  destruct (shr_fexp prec emax _ e1 loc_Exact) as [mrs2 e2]. cbn [fst] in H2.
  destruct (shr_m mrs2); [reflexivity| |lia].
  destruct (e2 <=? emax - prec); reflexivity.
Qed.

(** A finite non-zero factor keeps a product away from NaN. *)
Lemma mul_not_nan s m e y :
  is_nan y = false -> is_nan (mul (S754_finite s m e) y) = false.
Proof.
  destruct y as [sy|sy| |sy my ey]; cbn; intros Hy; try reflexivity; try discriminate.
  apply binary_round_aux_not_nan. lia.
Qed.

Import RpmFilter.

Lemma in_range lo hi i : In i (range lo hi) <-> lo <= i < hi.
Proof.
  unfold range. rewrite in_map_iff. split.
  - intros (k & <- & Hk). apply in_seq in Hk. lia.
  - intros Hi. exists (Z.to_nat (i - lo)). split; [lia|]. apply in_seq. lia.
Qed.

Lemma range_NoDup lo hi : NoDup (range lo hi).
Proof.
  unfold range. apply Injective_map_NoDup; [|apply seq_NoDup].
  intros x y H. lia.
Qed.

Lemma forallb_range (P : Z -> bool) lo hi :
  forallb P (range lo hi) = true -> forall i, lo <= i < hi -> P i = true.
Proof.
  intros H i Hi. rewrite forallb_forall in H. apply H, in_range, Hi.
Qed.

Lemma of_int_positive n : 1 <= n <= 256 -> positiveFinite (of_int n) = true.
Proof.
  intros Hn. apply (forallb_range (fun n => positiveFinite (of_int n)) 1 257); [|lia].
  vm_compute. reflexivity.
Qed.

Lemma of_int_min_not_nan m : 0 <= m < 256 -> is_nan (of_int m) = false.
Proof.
  intros Hm. apply (forallb_range (fun m => negb (is_nan (of_int m))) 0 256) in Hm.
  - now apply negb_true_iff in Hm.
  - vm_compute. reflexivity.
Qed.

Lemma of_int_min_not_zero m : 0 < m < 256 -> is_zero (of_int m) = false.
Proof.
  intros Hm. assert (H : 1 <= m <= 256) by lia.
  apply of_int_positive in H. destruct (of_int m) as [| | |[] ? ?]; try discriminate.
  reflexivity.
Qed.

Lemma half_min_shape m :
  0 <= m < 256 -> halfOf (of_int m) (mul (literal 1 2) (of_int m)) = true.
Proof.
  intros Hm.
  apply (forallb_range (fun m => halfOf (of_int m) (mul (literal 1 2) (of_int m))) 0 256);
    [|exact Hm].
  vm_compute. reflexivity.
Qed.

Lemma min_below_deactivate m :
  0 <= m < 256 ->
  ltb (of_int m) deactivateFreq = true /\ leb (of_int m) deactivateFreq = true /\
  ltb deactivateFreq (of_int m) = false.
Proof.
  intros Hm.
  apply (forallb_range
           (fun m => ltb (of_int m) deactivateFreq && leb (of_int m) deactivateFreq
                     && negb (ltb deactivateFreq (of_int m))) 0 256) in Hm.
  - apply andb_true_iff in Hm. destruct Hm as [Hm H3].
    apply andb_true_iff in Hm. destruct Hm as [H1 H2].
    apply negb_true_iff in H3. auto.
  - vm_compute. reflexivity.
Qed.

(** Below half the minimum is below the minimum, and at half a positive
    minimum is below the minimum. *)
Lemma below_half_below_min t m :
  0 <= m < 256 ->
  ltb t (mul (literal 1 2) (of_int m)) = true -> ltb t (of_int m) = true.
Proof.
  intros Hm. pose proof (half_min_shape m Hm) as Hs. unfold ltb, SFltb.
  destruct (of_int m) as [[]| | |[] p e]; try discriminate;
    destruct (mul (literal 1 2) _) as [[]| | |[] p' e']; try discriminate; [auto|].
  cbn in Hs. apply andb_true_iff in Hs. destruct Hs as [Hp He].
  apply Pos.eqb_eq in Hp. apply Z.eqb_eq in He. subst p' e'.
  destruct t as [st|st| |st mt et]; cbn; auto.
  destruct st; auto.
  destruct (Z.compare_spec et (e - 1)); destruct (Z.compare_spec et e); auto; try lia.
Qed.

Lemma at_half_below_min t m :
  0 < m < 256 ->
  SFcompare t (mul (literal 1 2) (of_int m)) = Some Eq -> ltb t (of_int m) = true.
Proof.
  intros Hm. assert (Hm' : 0 <= m < 256) by lia.
  pose proof (half_min_shape m Hm') as Hs.
  pose proof (of_int_min_not_zero m Hm) as Hz. unfold ltb, SFltb.
  destruct (of_int m) as [[]| | |[] p e]; try discriminate;
    destruct (mul (literal 1 2) _) as [[]| | |[] p' e']; try discriminate.
  cbn in Hs. apply andb_true_iff in Hs. destruct Hs as [Hp He].
  apply Pos.eqb_eq in Hp. apply Z.eqb_eq in He. subst p' e'.
  destruct t as [st|st| |st mt et]; cbn; try (destruct st; discriminate); try discriminate.
  destruct st; [discriminate|].
  destruct (Z.compare_spec et (e - 1)); destruct (Z.compare_spec et e); auto; try lia;
    discriminate.
Qed.

(** The result of the clamp is away from NaN, between the minimum and the
    deactivation frequency, and not zero under a positive minimum. *)
Lemma notchFrequency_range h f m :
  0 <= h < 256 -> 0 <= m < 256 -> is_nan f = false ->
  is_nan (notchFrequency h f m) = false /\
  leb (of_int m) (notchFrequency h f m) = true /\
  leb (notchFrequency h f m) deactivateFreq = true /\
  (0 < m -> is_zero (notchFrequency h f m) = false).
Proof.
  intros Hh Hm Hf.
  destruct (min_below_deactivate m Hm) as (Hmd & Hmd' & Hdm).
  pose proof (of_int_min_not_nan m Hm) as Hmn.
  assert (Hdn : is_nan deactivateFreq = false) by reflexivity.
  assert (Hdz : is_zero deactivateFreq = false) by reflexivity.
  assert (Hdd : leb deactivateFreq deactivateFreq = true) by reflexivity.
  assert (Hmm : leb (of_int m) (of_int m) = true) by (apply leb_refl, Hmn).
  assert (Htn : is_nan (mul (of_int (h + 1)) f) = false).
  { assert (Hp : 1 <= h + 1 <= 256) by lia. apply of_int_positive in Hp.
    destruct (of_int (h + 1)) as [| | |[] p e]; try discriminate.
    apply mul_not_nan, Hf. }
  assert (Hpos : forall x, leb (of_int m) x = true -> 0 < m -> is_zero x = false).
  { intros x Hx Hlt. assert (Hp : 1 <= m <= 256) by lia. apply of_int_positive in Hp.
    destruct (of_int m) as [| | |[] p e]; try discriminate.
    destruct x; try reflexivity. discriminate. }
  unfold notchFrequency. set (t := mul (of_int (h + 1)) f) in *.
  destruct (ltb t (of_int m)) eqn:Htm.
  - destruct (ltb t (mul (literal 1 2) (of_int m))).
    + replace (ltb deactivateFreq deactivateFreq) with false by reflexivity.
      repeat split; auto.
    + rewrite Hdm. repeat split; auto.
  - pose proof (not_ltb_leb t (of_int m) Htn Hmn Htm) as Hle.
    destruct (ltb deactivateFreq t) eqn:Hdt.
    + repeat split; auto.
    + repeat split; auto. apply not_ltb_leb; auto.
Qed.

(** ** Array updates *)

Lemma upd_same {A} (a : Z -> A) i x : upd a i x i = x.
Proof. unfold upd. now rewrite Z.eqb_refl. Qed.

Lemma upd_other {A} (a : Z -> A) i j x : j <> i -> upd a i x j = a j.
Proof. intros H. unfold upd. destruct (Z.eqb_spec j i); [contradiction|reflexivity]. Qed.

Lemma upd3_same {A} (a : Z -> Z -> Z -> A) i j k x : upd3 a i j k x i j k = x.
Proof. unfold upd3. now rewrite !upd_same. Qed.

Lemma upd3_other {A} (a : Z -> Z -> Z -> A) i j k x i' j' k' :
  (i', j', k') <> (i, j, k) -> upd3 a i j k x i' j' k' = a i' j' k'.
Proof.
  intros H. unfold upd3, upd.
  destruct (Z.eqb_spec i' i) as [->|]; [|reflexivity].
  destruct (Z.eqb_spec j' j) as [->|]; [|reflexivity].
  destruct (Z.eqb_spec k' k) as [->|]; [|reflexivity].
  now elim H.
Qed.

(** ** One recomputation *)

Import FilterLib.

Arguments upd : simpl never.
Arguments upd3 : simpl never.

Section Recompute.
Context {ops : Ops}.

Lemma recompute_bank st :
  let cur := filters st (currentFilter st) in
  let bank := filters (recompute st) (currentFilter st) in
  harmonics bank = harmonics cur /\ minHz bank = minHz cur /\
  q bank = q cur /\ loopTime bank = loopTime cur /\
  notch bank 0 (motor st) (harmonic st) = template st /\
  (forall axis, 1 <= axis < XYZ_AXIS_COUNT ->
     notch bank axis (motor st) (harmonic st)
     = copyCoefficients (notch cur axis (motor st) (harmonic st)) (template st)) /\
  (forall axis m h, (m, h) <> (motor st, harmonic st) ->
     notch bank axis m h = notch cur axis m h).
Proof.
  unfold recompute. change (range 1 XYZ_AXIS_COUNT) with [1; 2].
  cbn. rewrite upd_same. cbn.
  repeat split.
  - rewrite !upd3_other by (intros E; discriminate). apply upd3_same.
  - intros axis Haxis. unfold XYZ_AXIS_COUNT in Haxis.
    assert (Hc : axis = 1 \/ axis = 2) by lia.
    destruct Hc as [ -> | -> ].
    + rewrite upd3_other by (intros E; discriminate). rewrite upd3_same.
      rewrite !upd3_other by (intros E; discriminate). now rewrite upd3_same.
    + rewrite upd3_same.
      rewrite !upd3_other by (intros E; discriminate). now rewrite upd3_same.
  - intros axis m h Hne.
    rewrite !upd3_other; [reflexivity| | |]; intros E; apply Hne; congruence.
Qed.

Lemma recompute_other_bank st k :
  k <> currentFilter st -> filters (recompute st) k = filters st k.
Proof. intros H. unfold recompute. cbn. now apply upd_other. Qed.


End Recompute.

(** ** Loops that write cells *)


Section Init.
Context {ops : Ops}.


Lemma advance_filters e st : filters (advance e st) = filters st.
Proof.
  unfold advance.
  destruct (_ =? harmonics _); [destruct (_ =? numberRpmNotchFilters st)|]; reflexivity.
Qed.

End Init.

(** ** Claims about the frequency clamp *)

(** C1. The frequency computed for a cell is the one the specification
    describes: with [t = (h + 1) * f], the deactivation frequency 1000 Hz
    when [t < 0.5 * m], else [m] when [t < m], and at most 1000 Hz; a [t]
    equal to [0.5 * m] gives [m].  This is the frequency that the
    recomputation hands to [biquadFilterUpdate]. *)
Theorem notch_frequency_as_specified {ops : Ops} e st h f m :
  0 <= m < 256 ->
  notchFrequency h f m = specFrequency h f m /\
  (SFeqb (mul (of_int (h + 1)) f) (mul (literal 1 2) (of_int m)) = true ->
   SFeqb (notchFrequency h f m) (of_int m) = true /\
   (0 < m -> notchFrequency h f m = of_int m)) /\
  (let cur := filters st (currentFilter st) in
   minHz cur = m ->
   notch (filters (updateCell e st) (currentFilter st)) 0 (motor st) (harmonic st)
   = biquadFilterUpdate (notch cur 0 (motor st) (harmonic st))
       (specFrequency (harmonic st) (motorFrequency st (motor st)) m)
       (loopTime cur) (q cur) FILTER_NOTCH).
Proof.
  intros Hm.
  assert (Hspec : forall h f, notchFrequency h f m = specFrequency h f m).
  { clear h f. intros h f. unfold notchFrequency, specFrequency.
    set (t := mul (of_int (h + 1)) f).
    destruct (ltb t (mul (literal 1 2) (of_int m))) eqn:Hhalf.
    + now rewrite (below_half_below_min t m Hm Hhalf).
    + destruct (ltb t (of_int m)); reflexivity. }
  split; [apply Hspec|]. split; [|].
  2:{ cbn zeta. intros Hmin. unfold updateCell. rewrite advance_filters.
      destruct (recompute_bank st) as (_ & _ & _ & _ & -> & _).
      unfold template, fedFrequency. now rewrite Hmin, Hspec. }
  unfold notchFrequency.
  set (t := mul (of_int (h + 1)) f).
  destruct (min_below_deactivate m Hm) as (_ & _ & Hdm).
  intros Heq. unfold SFeqb in Heq.
  destruct (SFcompare t (mul (literal 1 2) (of_int m))) as [[| |]|] eqn:Hc;
    try discriminate.
  assert (Hhalf : ltb t (mul (literal 1 2) (of_int m)) = false)
    by (unfold ltb, SFltb; now rewrite Hc).
  rewrite Hhalf.
  destruct (Z.eq_dec m 0) as [->|Hne].
  - split; [|lia]. revert Hc. change (mul (literal 1 2) (of_int 0)) with (S754_zero false).
    change (of_int 0) with (S754_zero false).
    destruct t as [sg|sg| |sg mt et]; cbn; try discriminate;
      try (destruct sg; discriminate). reflexivity.
  - assert (Hlt : ltb t (of_int m) = true) by (apply at_half_below_min; [lia|exact Hc]).
    rewrite Hlt, Hdm. split; [|reflexivity].
    pose proof (leb_refl (of_int m) (of_int_min_not_nan m Hm)) as Hr.
    pose proof (SFcompare_antisym (of_int m) (of_int m)) as Ha.
    unfold leb, SFleb in Hr. unfold SFeqb.
    destruct (SFcompare (of_int m) (of_int m)) as [[| |]|]; cbn in Ha; congruence.
Qed.

Lemma notch_frequency_as_specified_witness :
  0 <= 100 < 256 /\
  notchFrequency 0 (of_int 50) 100 = specFrequency 0 (of_int 50) 100 /\
  notchFrequency 0 (of_int 50) 100 = of_int 100 /\
  notchFrequency 0 (of_int 49) 100 = of_int 1000.
Proof.
  assert (Hm : 0 <= 100 < 256) by lia.
  destruct (notch_frequency_as_specified (ops := sampleOps) (sampleEnv true) sampleState
              0 (of_int 50) 100 Hm) as (Hspec & Hhalf & _).
  split; [exact Hm|]. split; [exact Hspec|].
  split; [apply Hhalf; [reflexivity|lia]|reflexivity].
Defined.

(** ** Claims about the axes and about absent banks *)




(** For an absent bank, one whose pointer is [NULL], [rpmFilterGyro]
    and [rpmFilterDterm] return the sample and leave the state as it is.
    With DShot telemetry disabled [rpmFilterInit] makes both banks absent;
    with a bank's harmonics configured as zero it leaves that bank's
    pointer as it was, which is [NULL] when the program starts. *)
Theorem absent_bank_is_identity {ops : Ops} e config st axis value :
  (gyroFilter st = None -> rpmFilterGyro e st axis value = (value, st)) /\
  (dtermFilter st = None -> rpmFilterDterm e st axis value = (value, st)) /\
  (RpmFilter.useDshotTelemetry e = false ->
   exists st', rpmFilterInit e config st = Some st' /\
               rpmFilterGyro e st' axis value = (value, st') /\
               rpmFilterDterm e st' axis value = (value, st')) /\
  (forall st', rpmFilterInit e config st = Some st' ->
     (gyro_rpm_notch_harmonics config = 0 -> gyroFilter st = None ->
      rpmFilterGyro e st' axis value = (value, st')) /\
     (dterm_rpm_notch_harmonics config = 0 -> dtermFilter st = None ->
      rpmFilterDterm e st' axis value = (value, st'))).
Proof.
  split; [intros H; unfold rpmFilterGyro; now rewrite H|].
  split; [intros H; unfold rpmFilterDterm; now rewrite H|].
  split.
  - intros Hoff. unfold rpmFilterInit. rewrite Hoff. cbn [negb].
    eexists. split; [reflexivity|]. split; reflexivity.
  - intros st' Hinit. unfold rpmFilterInit in Hinit.
    destruct (RpmFilter.useDshotTelemetry e); cbn [negb] in Hinit.
    + split.
      * intros Hz Hnull. rewrite Hz in Hinit. cbn [Z.eqb negb] in Hinit.
        destruct (negb (dterm_rpm_notch_harmonics config =? 0));
          match type of Hinit with
          | bind ?m _ = _ => destruct m; [|discriminate]
          end; cbn [bind] in Hinit; injection Hinit as <-;
          unfold rpmFilterGyro; cbn [gyroFilter]; rewrite Hnull; reflexivity.
      * intros Hz Hnull. rewrite Hz in Hinit. cbn [Z.eqb negb] in Hinit.
        destruct (negb (gyro_rpm_notch_harmonics config =? 0));
          match type of Hinit with
          | bind ?m _ = _ => destruct m; [|discriminate]
          end; cbn [bind] in Hinit; injection Hinit as <-;
          unfold rpmFilterDterm; cbn [dtermFilter]; rewrite Hnull; reflexivity.
    + injection Hinit as <-. split; intros _ _; reflexivity.
Qed.

Lemma absent_bank_is_identity_witness :
  (exists st', rpmFilterInit (sampleEnv false) pgResetFn_rpmFilterConfig sampleState = Some st' /\
               rpmFilterGyro (sampleEnv false) st' 1 (of_int 7) = (of_int 7, st') /\
               rpmFilterDterm (sampleEnv false) st' 1 (of_int 7) = (of_int 7, st')) /\
  (exists st', rpmFilterInit (sampleEnv true) dtermOnlyConfig sampleBoot = Some st' /\
               rpmFilterGyro (sampleEnv true) st' 1 (of_int 7) = (of_int 7, st')).
Proof.
  split.
  - apply (absent_bank_is_identity (ops := sampleOps) (sampleEnv false)
             pgResetFn_rpmFilterConfig sampleState 1 (of_int 7)).
    reflexivity.
  - destruct (rpmFilterInit (ops := sampleOps) (sampleEnv true) dtermOnlyConfig sampleBoot)
      as [st'|] eqn:E.
    + exists st'. split; [reflexivity|].
      apply (absent_bank_is_identity (ops := sampleOps) (sampleEnv true)
               dtermOnlyConfig sampleBoot 1 (of_int 7)); [exact E|reflexivity|reflexivity].
    + exfalso.
      assert (H : match rpmFilterInit (ops := sampleOps) (sampleEnv true)
                          dtermOnlyConfig sampleBoot with
                  | Some _ => true
                  | None => false
                  end = true) by (vm_compute; reflexivity).
      rewrite E in H. discriminate.
Defined.

(** Initialising again does not reset the pointers: after a first
    initialisation with both banks, a second one without gyro harmonics
    leaves [gyroFilter] on entry 0 of [filters], now the D-term bank. *)
Example reinit_keeps_gyro_pointer :
  option_map (fun st => (gyroFilter st, dtermFilter st, numberRpmNotchFilters st))
    (rpmFilterInit (sampleEnv true) dtermOnlyConfig sampleState)
  = Some (Some 0, Some 0, 1).
Proof. vm_compute. reflexivity. Qed.

(** C6, as the code has it.  [rpmFilterInit] clears the bank pointers only
    when telemetry is off; a bank configured with zero harmonics keeps the
    pointer it had.  After a first initialisation with the default
    configuration, a second one with no gyro harmonics leaves [gyroFilter]
    on entry 0 of [filters], which is now the D-term bank, and
    [rpmFilterGyro] is not the identity: on the stand-in filter library the
    sample 7 on axis 1 comes back as 0, and the delay line of the notch has
    taken the sample. *)
Theorem reinit_gyro_bank_still_filters :
  rpmFilterInit (sampleEnv true) pgResetFn_rpmFilterConfig sampleBoot = Some sampleState /\
  rpmFilterInit (sampleEnv true) dtermOnlyConfig sampleState = Some reinitState /\
  gyro_rpm_notch_harmonics dtermOnlyConfig = 0 /\
  gyroFilter reinitState = Some 0 /\ dtermFilter reinitState = Some 0 /\
  fst (rpmFilterGyro (sampleEnv true) reinitState 1 (of_int 7)) = S754_zero false /\
  of_int 7 <> S754_zero false /\
  x1 (notch (filters reinitState 0) 1 0 0) = S754_zero false /\
  x1 (notch (filters (snd (rpmFilterGyro (sampleEnv true) reinitState 1 (of_int 7))) 0)
        1 0 0) = of_int 7.
Proof.
  split.
  { unfold sampleState.
    destruct (rpmFilterInit (ops := sampleOps) (sampleEnv true) pgResetFn_rpmFilterConfig
                sampleBoot) as [st'|] eqn:E; [reflexivity|].
    exfalso.
    assert (H : match rpmFilterInit (ops := sampleOps) (sampleEnv true)
                        pgResetFn_rpmFilterConfig sampleBoot with
                | Some _ => true
                | None => false
                end = true) by (vm_compute; reflexivity).
    rewrite E in H. discriminate. }
  split.
  { unfold reinitState.
    destruct (rpmFilterInit (ops := sampleOps) (sampleEnv true) dtermOnlyConfig sampleState)
      as [st'|] eqn:E; [reflexivity|].
    exfalso.
    assert (H : match rpmFilterInit (ops := sampleOps) (sampleEnv true)
                        dtermOnlyConfig sampleState with
                | Some _ => true
                | None => false
                end = true) by (vm_compute; reflexivity).
    rewrite E in H. discriminate. }
  split; [reflexivity|].
  split; [vm_compute; reflexivity|]. split; [vm_compute; reflexivity|].
  split; [vm_compute; reflexivity|]. split; [vm_compute; discriminate|].
  split; vm_compute; reflexivity.
Qed.

(** ** The order of the cells *)

Lemma regular_sizes g :
  regular g -> 1 <= cellsPerMotor g /\ 1 <= totalCells g /\
               totalCells g = motors g * cellsPerMotor g.
Proof.
  intros (Hm & Hb & H0 & H1). unfold totalCells, cellsPerMotor.
  destruct (Z.eqb_spec (banks g) 1) as [E|E].
  - repeat split; nia.
  - assert (Hb2 : banks g = 2) by lia. specialize (H1 Hb2). repeat split; nia.
Qed.

Lemma rank_range g c :
  regular g -> inTable g c -> 0 <= rank g c < totalCells g.
Proof.
  intros Hreg Hin. destruct c as [[k m] h].
  destruct Hreg as (Hm & Hb & H0 & H1). cbn in Hin. destruct Hin as (Hk & Hmo & Hh).
  unfold rank, totalCells, cellsPerMotor, bankHarmonics in *.
  destruct (Z.eqb_spec (banks g) 1) as [E|E].
  - assert (k = 0) by lia. subst k. cbn in *. nia.
  - assert (Hb2 : banks g = 2) by lia. specialize (H1 Hb2).
    destruct (Z.eqb_spec k 0) as [->|Hk0]; nia.
Qed.

Lemma cellAt_rank g c : regular g -> inTable g c -> cellAt g (rank g c) = c.
Proof.
  intros Hreg Hin. destruct c as [[k m] h].
  destruct (regular_sizes g Hreg) as (HS & _ & _).
  destruct Hreg as (Hm & Hb & H0 & H1). cbn in Hin. destruct Hin as (Hk & Hmo & Hh).
  unfold cellAt, rank, bankHarmonics in *.
  set (S := cellsPerMotor g) in *.
  set (r := (if k =? 0 then 0 else harmonics0 g) + h).
  assert (Hr : 0 <= r < S).
  { subst r S. unfold cellsPerMotor. destruct (Z.eqb_spec (banks g) 1) as [E|E].
    - assert (k = 0) by lia. subst k. cbn in *. lia.
    - assert (Hb2 : banks g = 2) by lia. specialize (H1 Hb2).
      destruct (Z.eqb_spec k 0); lia. }
  replace (m * S + (if k =? 0 then 0 else harmonics0 g) + h) with (r + m * S) by (subst r; lia).
  rewrite Z.div_add by lia. rewrite Zdiv.Z_mod_plus_full.
  rewrite Z.div_small, Z.mod_small by lia. subst r.
  destruct (Z.eqb_spec k 0) as [->|Hk0].
  - destruct (Z.ltb_spec (0 + h) (harmonics0 g)); [|lia]. f_equal; try f_equal; lia.
  - assert (k = 1) by lia. subst k.
    destruct (Z.ltb_spec (harmonics0 g + h) (harmonics0 g)); [lia|].
    f_equal; try f_equal; lia.
Qed.

Lemma rank_cellAt g r :
  regular g -> 0 <= r < totalCells g ->
  inTable g (cellAt g r) /\ rank g (cellAt g r) = r.
Proof.
  intros Hreg Hr.
  destruct (regular_sizes g Hreg) as (HS & _ & HN).
  destruct Hreg as (Hm & Hb & H0 & H1).
  unfold cellAt, rank, inTable, bankHarmonics.
  assert (Hq : 0 <= r / cellsPerMotor g < motors g).
  { split; [apply Z.div_pos; lia|]. apply Z.div_lt_upper_bound; lia. }
  assert (Hmod : 0 <= r mod cellsPerMotor g < cellsPerMotor g)
    by (apply Z.mod_pos_bound; lia).
  pose proof (Z.div_mod r (cellsPerMotor g)) as Hdm.
  destruct (Z.ltb_spec (r mod cellsPerMotor g) (harmonics0 g)) as [Hlt|Hge].
  - cbn. repeat split; try lia.
  - assert (Hb2 : banks g = 2).
    { unfold cellsPerMotor in Hmod, Hge. destruct (Z.eqb_spec (banks g) 1); lia. }
    specialize (H1 Hb2).
    assert (HSs : cellsPerMotor g = harmonics0 g + harmonics1 g).
    { unfold cellsPerMotor. destruct (Z.eqb_spec (banks g) 1); lia. }
    cbn. repeat split; try lia.
Qed.

Lemma nextCell_rank g c :
  regular g -> inTable g c ->
  inTable g (nextCell g c) /\
  rank g (nextCell g c) = (rank g c + 1) mod totalCells g.
Proof.
  intros Hreg Hin. pose proof (rank_range g c Hreg Hin) as Hrange.
  destruct (regular_sizes g Hreg) as (HS & HN1 & HN).
  destruct c as [[k m] h].
  destruct Hreg as (Hm & Hb & H0 & H1). cbn in Hin. destruct Hin as (Hk & Hmo & Hh).
  unfold nextCell.
  assert (HSdef : cellsPerMotor g = if banks g =? 1 then harmonics0 g
                                    else harmonics0 g + harmonics1 g) by reflexivity.
  destruct (Z.ltb_spec (h + 1) (bankHarmonics g k)) as [Hh1|Hh1].
  - split; [cbn; lia|].
    assert (Hlt : rank g (k, m, h) + 1 < totalCells g).
    { unfold rank in *. unfold bankHarmonics in *. rewrite HN.
      destruct (Z.eqb_spec (banks g) 1) as [E|E].
      - assert (k = 0) by lia. subst k. cbn in *. nia.
      - assert (Hb2 : banks g = 2) by lia. specialize (H1 Hb2).
        destruct (Z.eqb_spec k 0); nia. }
    rewrite Z.mod_small by lia. unfold rank. lia.
  - assert (Hh' : h + 1 = bankHarmonics g k) by lia.
    destruct (Z.ltb_spec (k + 1) (banks g)) as [Hk1|Hk1].
    + assert (k = 0) by lia. subst k. assert (Hb2 : banks g = 2) by lia.
      specialize (H1 Hb2). split; [cbn; lia|].
      unfold bankHarmonics in Hh'. cbn in Hh'.
      assert (Hlt : rank g (0, m, h) + 1 < totalCells g).
      { unfold rank. cbn. rewrite HN.
        destruct (Z.eqb_spec (banks g) 1) as [E|E]; [lia|]. nia. }
      rewrite Z.mod_small by lia. unfold rank. cbn. lia.
    + assert (Hlast : (if k =? 0 then 0 else harmonics0 g) + h + 1 = cellsPerMotor g).
      { unfold bankHarmonics in Hh'.
        destruct (Z.eqb_spec (banks g) 1) as [E|E].
        - assert (k = 0) by lia. subst k. cbn in *. lia.
        - assert (k = 1) by lia. subst k. cbn in *. lia. }
      destruct (Z.ltb_spec (m + 1) (motors g)) as [Hm1|Hm1].
      * split; [unfold inTable, bankHarmonics; cbn; lia|].
        assert (Hlt : rank g (k, m, h) + 1 < totalCells g).
        { unfold rank. rewrite HN. nia. }
        rewrite Z.mod_small by lia. unfold rank. cbn. nia.
      * split; [unfold inTable, bankHarmonics; cbn; lia|].
        assert (Heq : rank g (k, m, h) + 1 = totalCells g).
        { unfold rank. rewrite HN. nia. }
        rewrite Heq, Z.mod_same by lia. unfold rank. cbn. lia.
Qed.

(** ** The cursor *)

(** [recompute] writes cells: the cursor and the scalars are those of the
    state it starts from. *)
Ltac recompute_frame st :=
  change (harmonic (recompute st)) with (harmonic st);
  change (filter (recompute st)) with (filter st);
  change (motor (recompute st)) with (motor st);
  change (currentFilter (recompute st)) with (currentFilter st);
  change (numberRpmNotchFilters (recompute st)) with (numberRpmNotchFilters st);
  change (motorFrequency (recompute st)) with (motorFrequency st);
  change (erpmToHz (recompute st)) with (erpmToHz st);
  change (filteredMotorErpm (recompute st)) with (filteredMotorErpm st).

Section Scheduler.
Context {ops : Ops}.

Lemma recompute_harmonics st k :
  harmonics (filters (recompute st) k) = harmonics (filters st k).
Proof.
  destruct (Z.eq_dec k (currentFilter st)) as [->|Hne].
  - apply (recompute_bank st).
  - now rewrite recompute_other_bank.
Qed.

Lemma recompute_geometry e st : geometryOf e (recompute st) = geometryOf e st.
Proof.
  unfold geometryOf. rewrite !recompute_harmonics. reflexivity.
Qed.

Lemma advance_geometry e st : geometryOf e (advance e st) = geometryOf e st.
Proof.
  unfold geometryOf. rewrite advance_filters.
  unfold advance.
  destruct (_ =? harmonics _); [destruct (_ =? numberRpmNotchFilters st)|]; reflexivity.
Qed.

Lemma updateCell_geometry e st : geometryOf e (updateCell e st) = geometryOf e st.
Proof. unfold updateCell. now rewrite advance_geometry, recompute_geometry. Qed.

Lemma updateCell_settings e st :
  gyroFilter (updateCell e st) = gyroFilter st /\
  dtermFilter (updateCell e st) = dtermFilter st /\
  filterUpdatesPerIteration (updateCell e st) = filterUpdatesPerIteration st /\
  filteredMotorErpm (updateCell e st) = filteredMotorErpm st /\
  rpmFilters (updateCell e st) = rpmFilters st /\
  erpmToHz (updateCell e st) = erpmToHz st.
Proof.
  unfold updateCell, advance.
  destruct (_ =? harmonics _); [destruct (_ =? numberRpmNotchFilters _)|];
    repeat split; reflexivity.
Qed.

(** One iteration moves the cursor to the next cell. *)
Lemma updateCell_cursor e st :
  scheduled e st ->
  cursor (updateCell e st) = nextCell (geometryOf e st) (cursor st) /\
  currentFilter (updateCell e st) = filter (updateCell e st).
Proof.
  intros ((Hm & Hb & H0 & H1) & Hcur & Hk & Hmo & Hh).
  unfold updateCell, advance.
  rewrite recompute_harmonics.
  recompute_frame st.
  unfold cursor, nextCell, bankHarmonics in *. cbn [geometryOf motors banks harmonics0 harmonics1] in *.
  assert (HH : harmonics (filters st (currentFilter st))
               = if currentFilter st =? 0 then harmonics (filters st 0)
                 else harmonics (filters st 1)).
  { destruct (Z.eqb_spec (currentFilter st) 0) as [->|Hne]; [reflexivity|].
    replace (currentFilter st) with 1 by lia. reflexivity. }
  rewrite <- HH in *.
  assert (HHr : 1 <= harmonics (filters st (currentFilter st)) < 256).
  { rewrite HH. destruct (Z.eqb_spec (currentFilter st) 0); [lia|]. apply H1. lia. }
  rewrite (uint8_small (harmonic st + 1)) by lia.
  rewrite (uint8_small (filter st + 1)) by lia.
  rewrite (uint8_small (motor st + 1)) by lia.
  destruct (Z.eqb_spec (harmonic st + 1) (harmonics (filters st (currentFilter st))))
    as [E|E].
  - destruct (Z.ltb_spec (harmonic st + 1) (harmonics (filters st (currentFilter st))));
      [lia|].
    rewrite <- Hcur.
    destruct (Z.eqb_spec (currentFilter st + 1) (numberRpmNotchFilters st)) as [E2|E2].
    + destruct (Z.ltb_spec (currentFilter st + 1) (numberRpmNotchFilters st)); [lia|].
      destruct (Z.eqb_spec (motor st + 1) (getMotorCount e)) as [E3|E3].
      * destruct (Z.ltb_spec (motor st + 1) (getMotorCount e)); [lia|].
        split; reflexivity.
      * destruct (Z.ltb_spec (motor st + 1) (getMotorCount e)); [|lia].
        split; reflexivity.
    + destruct (Z.ltb_spec (currentFilter st + 1) (numberRpmNotchFilters st)); [|lia].
      split; reflexivity.
  - destruct (Z.ltb_spec (harmonic st + 1) (harmonics (filters st (currentFilter st))));
      [|lia].
    split; [reflexivity|exact Hcur].
Qed.

Lemma updateCell_scheduled e st : scheduled e st -> scheduled e (updateCell e st).
Proof.
  intros Hs. destruct (updateCell_cursor e st Hs) as [Hc Hf].
  destruct Hs as (Hreg & Hcur & Hin).
  unfold scheduled. rewrite updateCell_geometry, Hc.
  split; [exact Hreg|]. split; [exact Hf|].
  now apply nextCell_rank.
Qed.

End Scheduler.

Lemma fold_left_preserves {S K A : Type} (proj : S -> A) (step : S -> K -> S) :
  (forall s k, proj (step s k) = proj s) ->
  forall l s, proj (fold_left step l s) = proj s.
Proof.
  intros H. induction l as [|k l IH]; intros s; cbn [fold_left]; [reflexivity|].
  now rewrite IH.
Qed.

Section Calls.
Context {ops : Ops}.

(** The smoothing loop touches the PT1 filters and their outputs only. *)
Lemma smoothErpm_frame e t st :
  let st' := smoothErpm e t st in
  filters st' = filters st /\
  numberRpmNotchFilters st' = numberRpmNotchFilters st /\
  filterUpdatesPerIteration st' = filterUpdatesPerIteration st /\
  gyroFilter st' = gyroFilter st /\ dtermFilter st' = dtermFilter st /\
  motorFrequency st' = motorFrequency st /\ erpmToHz st' = erpmToHz st /\
  motor st' = motor st /\ harmonic st' = harmonic st /\
  filter st' = filter st /\ currentFilter st' = currentFilter st.
Proof.
  cbn zeta. unfold smoothErpm.
  pose proof (fold_left_preserves
    (fun s => (filters s, numberRpmNotchFilters s, filterUpdatesPerIteration s,
               gyroFilter s, dtermFilter s, motorFrequency s, erpmToHz s,
               motor s, harmonic s, filter s, currentFilter s))
    (smoothMotor t)) as H.
  specialize (H (fun s k => ltac:(unfold smoothMotor; destruct (pt1FilterApply _ _);
                                  reflexivity))
                (range 0 (getMotorCount e)) st).
  cbn beta in H. injection H. intros.
  repeat match goal with |- _ /\ _ => split end; assumption.
Qed.

Lemma smoothErpm_scheduled e t st :
  scheduled e st ->
  scheduled e (smoothErpm e t st) /\
  geometryOf e (smoothErpm e t st) = geometryOf e st /\
  cursor (smoothErpm e t st) = cursor st.
Proof.
  intros Hs.
  destruct (smoothErpm_frame e t st)
    as (Hf & Hn & _ & _ & _ & _ & _ & Hm & Hh & Hfi & Hc).
  assert (Hg : geometryOf e (smoothErpm e t st) = geometryOf e st)
    by (unfold geometryOf; now rewrite Hf, Hn).
  assert (Hcu : cursor (smoothErpm e t st) = cursor st)
    by (unfold cursor; now rewrite Hm, Hh, Hc).
  split; [|split; assumption].
  unfold scheduled. rewrite Hg, Hcu, Hc, Hfi. exact Hs.
Qed.

(** The cells visited by [n] iterations are the [n] cells that follow the
    cursor in the cyclic order. *)
Lemma visited_explicit e n : forall st,
  scheduled e st ->
  visited n e st
  = map (fun i => cellAt (geometryOf e st)
                    ((rank (geometryOf e st) (cursor st) + Z.of_nat i)
                     mod totalCells (geometryOf e st)))
        (seq 0 n).
Proof.
  induction n as [|n IH]; intros st Hs; [reflexivity|].
  cbn [visited seq map].
  pose proof Hs as (Hreg & Hcur & Hin).
  pose proof (rank_range _ _ Hreg Hin) as Hr.
  destruct (nextCell_rank _ _ Hreg Hin) as [_ Hnext].
  f_equal.
  - rewrite Z.add_0_r, Z.mod_small by lia. symmetry. now apply cellAt_rank.
  - rewrite IH by (apply updateCell_scheduled; exact Hs).
    rewrite updateCell_geometry.
    destruct (updateCell_cursor e st Hs) as [-> _].
    rewrite Hnext. rewrite <- seq_shift, map_map.
    apply map_ext. intros i. f_equal.
    rewrite Zdiv.Zplus_mod_idemp_l. f_equal. lia.
Qed.

Lemma updateCells_scheduled e n : forall st,
  scheduled e st ->
  scheduled e (updateCells n e st) /\
  geometryOf e (updateCells n e st) = geometryOf e st /\
  gyroFilter (updateCells n e st) = gyroFilter st /\
  dtermFilter (updateCells n e st) = dtermFilter st /\
  filterUpdatesPerIteration (updateCells n e st) = filterUpdatesPerIteration st /\
  rank (geometryOf e st) (cursor (updateCells n e st))
  = (rank (geometryOf e st) (cursor st) + Z.of_nat n) mod totalCells (geometryOf e st).
Proof.
  induction n as [|n IH]; intros st Hs.
  - cbn [updateCells]. split; [exact Hs|]. do 4 (split; [reflexivity|]).
    destruct Hs as (Hreg & _ & Hin). pose proof (rank_range _ _ Hreg Hin).
    change (Z.of_nat 0) with 0. rewrite Z.add_0_r, Z.mod_small by lia. reflexivity.
  - cbn [updateCells].
    destruct (IH (updateCell e st) (updateCell_scheduled e st Hs))
      as (Hs' & Hg & Hgy & Hdt & Hu & Hr).
    destruct (updateCell_settings e st) as (Hgy1 & Hdt1 & Hu1 & _).
    destruct (updateCell_cursor e st Hs) as [Hc _].
    rewrite updateCell_geometry in Hg, Hr.
    split; [exact Hs'|]. split; [now rewrite Hg|].
    split; [congruence|]. split; [congruence|]. split; [congruence|].
    rewrite Hr, Hc.
    destruct Hs as (Hreg & _ & Hin).
    destruct (nextCell_rank _ _ Hreg Hin) as [_ ->].
    rewrite Zdiv.Zplus_mod_idemp_l. f_equal. lia.
Qed.

End Calls.

Lemma firstn_seq_le k a n : (k <= n)%nat -> firstn k (seq a n) = seq a k.
Proof.
  intros H. replace n with (k + (n - k))%nat by lia.
  rewrite seq_app, firstn_app, length_seq, Nat.sub_diag. cbn [firstn].
  rewrite app_nil_r. rewrite <- (length_seq k a) at 1. apply firstn_all.
Qed.

Lemma seq_from a n : seq a n = map (fun i => (a + i)%nat) (seq 0 n).
Proof.
  revert a. induction n as [|n IH]; intros a; cbn [seq map]; [reflexivity|].
  f_equal; [lia|].
  rewrite (IH (S a)), <- seq_shift, map_map. apply map_ext. intros i. lia.
Qed.

Section Fairness.
Context {ops : Ops}.

Lemma active_call e t st :
  active st ->
  visitedByCall e t st
  = visited (Z.to_nat (filterUpdatesPerIteration st)) e (smoothErpm e t st) /\
  rpmFilterUpdate e t st
  = updateCells (Z.to_nat (filterUpdatesPerIteration st)) e (smoothErpm e t st).
Proof.
  unfold active, visitedByCall, rpmFilterUpdate.
  destruct (gyroFilter st), (dtermFilter st); intros [H|H]; try (now elim H);
    split; reflexivity.
Qed.

(** The position of the cell visited at step [i] of a run that starts at
    position [r0]. *)
Lemma visitedByCalls_explicit e ts : forall st,
  scheduled e st -> active st ->
  visitedByCalls e ts st
  = map (fun i => cellAt (geometryOf e st)
                    ((rank (geometryOf e st) (cursor st) + Z.of_nat i)
                     mod totalCells (geometryOf e st)))
        (seq 0 (length ts * Z.to_nat (filterUpdatesPerIteration st))).
Proof.
  induction ts as [|t ts IH]; intros st Hs Hact; [reflexivity|].
  cbn [visitedByCalls length].
  destruct (active_call e t st Hact) as [-> ->].
  destruct (smoothErpm_scheduled e t st Hs) as (Hs1 & Hg1 & Hc1).
  destruct (smoothErpm_frame e t st) as (_ & _ & Hu1 & Hgy1 & Hdt1 & _).
  set (U := Z.to_nat (filterUpdatesPerIteration st)).
  destruct (updateCells_scheduled e U _ Hs1) as (Hs2 & Hg2 & Hgy2 & Hdt2 & Hu2 & Hr2).
  rewrite IH; [|exact Hs2|unfold active; rewrite Hgy2, Hdt2, Hgy1, Hdt1; exact Hact].
  rewrite visited_explicit by exact Hs1.
  rewrite Hg2, Hu2, Hu1, Hg1 in *. rewrite Hc1 in *. fold U.
  rewrite Hr2.
  replace (S (length ts) * U)%nat with (U + length ts * U)%nat by lia.
  rewrite seq_app, map_app. f_equal.
  cbn [Nat.add]. rewrite (seq_from U).
  rewrite map_map. apply map_ext. intros i.
  f_equal. rewrite Zdiv.Zplus_mod_idemp_l. f_equal. lia.
Qed.

End Fairness.

(** ** Windows of the cyclic order *)

Section Windows.
Variable g : geometry.
Hypothesis Hreg : regular g.
Variable r0 : Z.

Let at_step (i : nat) : cell := cellAt g ((r0 + Z.of_nat i) mod totalCells g).

Lemma at_step_inTable i : inTable g (at_step i).
Proof.
  destruct (regular_sizes g Hreg) as (_ & HN & _).
  apply rank_cellAt; [exact Hreg|]. apply Z.mod_pos_bound. lia.
Qed.

Lemma at_step_next i : at_step (S i) = nextCell g (at_step i).
Proof.
  destruct (regular_sizes g Hreg) as (_ & HN & _).
  assert (Hr : 0 <= (r0 + Z.of_nat i) mod totalCells g < totalCells g)
    by (apply Z.mod_pos_bound; lia).
  destruct (rank_cellAt g _ Hreg Hr) as [Hin Hrank].
  destruct (nextCell_rank g _ Hreg Hin) as [Hin' Hrank'].
  rewrite <- (cellAt_rank g (nextCell g (at_step i)) Hreg Hin').
  unfold at_step at 1. f_equal. unfold at_step. rewrite Hrank', Hrank.
  rewrite Zdiv.Zplus_mod_idemp_l. f_equal. lia.
Qed.

Lemma at_step_inj i j :
  Z.abs (Z.of_nat i - Z.of_nat j) < totalCells g -> at_step i = at_step j -> i = j.
Proof.
  intros Hd He. destruct (regular_sizes g Hreg) as (_ & HN & _).
  assert (Hi : 0 <= (r0 + Z.of_nat i) mod totalCells g < totalCells g)
    by (apply Z.mod_pos_bound; lia).
  assert (Hj : 0 <= (r0 + Z.of_nat j) mod totalCells g < totalCells g)
    by (apply Z.mod_pos_bound; lia).
  apply (f_equal (rank g)) in He. unfold at_step in He.
  rewrite (proj2 (rank_cellAt g _ Hreg Hi)), (proj2 (rank_cellAt g _ Hreg Hj)) in He.
  clear Hi Hj.
  assert (Hz : (Z.of_nat i - Z.of_nat j) mod totalCells g = 0).
  { replace (Z.of_nat i - Z.of_nat j) with ((r0 + Z.of_nat i) - (r0 + Z.of_nat j)) by lia.
    rewrite Zdiv.Zminus_mod, He, Z.sub_diag. apply Z.mod_0_l. lia. }
  apply Z.mod_divide in Hz; [|lia]. destruct Hz as [q Hq].
  assert (q = 0) by nia. subst q. lia.
Qed.

Lemma at_step_cover a c :
  inTable g c ->
  exists j, (j < Z.to_nat (totalCells g))%nat /\ at_step (a + j) = c.
Proof.
  intros Hin. destruct (regular_sizes g Hreg) as (_ & HN & _).
  pose proof (rank_range g c Hreg Hin) as Hr.
  set (j := (rank g c - r0 - Z.of_nat a) mod totalCells g).
  assert (Hj : 0 <= j < totalCells g) by (apply Z.mod_pos_bound; lia).
  exists (Z.to_nat j). split; [lia|].
  unfold at_step. transitivity (cellAt g (rank g c)); [|now apply cellAt_rank]. f_equal.
  rewrite Nat2Z.inj_add, Z2Nat.id by lia. subst j.
  replace (r0 + (Z.of_nat a + (rank g c - r0 - Z.of_nat a) mod totalCells g))
    with ((r0 + Z.of_nat a) + (rank g c - r0 - Z.of_nat a) mod totalCells g) by lia.
  rewrite Zdiv.Zplus_mod_idemp_r.
  replace (r0 + Z.of_nat a + (rank g c - r0 - Z.of_nat a)) with (rank g c) by lia.
  apply Z.mod_small. lia.
Qed.

(** Any [totalCells] consecutive steps visit every cell once. *)
Lemma window_fair n i :
  (i + Z.to_nat (totalCells g) <= n)%nat ->
  let W := firstn (Z.to_nat (totalCells g)) (skipn i (map at_step (seq 0 n))) in
  NoDup W /\ forall c, inTable g c -> In c W.
Proof.
  intros Hle. cbn zeta.
  rewrite skipn_map, firstn_map, skipn_seq, firstn_seq_le by lia. cbn [Nat.add].
  split.
  - apply Injective_map_NoDup_in; [|apply seq_NoDup].
    intros x y Hx Hy. apply in_seq in Hx, Hy. apply at_step_inj. lia.
  - intros c Hc. destruct (at_step_cover i c Hc) as (j & Hj & <-).
    apply in_map. apply in_seq. lia.
Qed.

End Windows.

(** ** The table that [rpmFilterInit] sets up *)

Section InitGeometry.
Context {ops : Ops}.

Lemma initCells_harmonics f motorCount hcount min looptime :
  harmonics (initCells f motorCount hcount min looptime) = harmonics f.
Proof.
  unfold initCells. apply fold_left_preserves. intros g axis.
  apply fold_left_preserves. intros g' mo.
  apply fold_left_preserves. intros g'' i. reflexivity.
Qed.

Lemma rpmNotchFilterInit_harmonics e f hcount min qcfg looptime :
  harmonics (rpmNotchFilterInit e f hcount min qcfg looptime) = uint8 hcount.
Proof. unfold rpmNotchFilterInit. now rewrite initCells_harmonics. Qed.

(** With telemetry enabled and harmonics that fit [uint8_t], not both zero,
    the active banks are the configured ones, in the order gyro, D-term. *)
Lemma rpmFilterInit_geometry e config st st' :
  RpmFilter.useDshotTelemetry e = true ->
  rpmFilterInit e config st = Some st' ->
  0 <= gyro_rpm_notch_harmonics config < 256 ->
  0 <= dterm_rpm_notch_harmonics config < 256 ->
  0 < gyro_rpm_notch_harmonics config + dterm_rpm_notch_harmonics config ->
  1 <= getMotorCount e < 256 ->
  regular (geometryOf e st') /\
  active st' /\
  totalCells (geometryOf e st')
  = getMotorCount e * (gyro_rpm_notch_harmonics config + dterm_rpm_notch_harmonics config) /\
  cursor st' = cursor st /\ currentFilter st' = currentFilter st /\
  filter st' = filter st.
Proof.
  intros Hon Hinit Hg Hd Hsum Hmc. unfold rpmFilterInit in Hinit.
  rewrite Hon in Hinit. cbn [negb] in Hinit.
  destruct (Z.eqb_spec (gyro_rpm_notch_harmonics config) 0) as [Eg|Eg];
    destruct (Z.eqb_spec (dterm_rpm_notch_harmonics config) 0) as [Ed|Ed];
    cbn [negb] in Hinit; try lia;
    match type of Hinit with
    | bind ?m _ = _ => destruct m; [|discriminate]
    end; cbn [bind] in Hinit; injection Hinit as <-;
    unfold regular, active, totalCells, cellsPerMotor, geometryOf, cursor;
    cbn [motors banks harmonics0 harmonics1 numberRpmNotchFilters filters gyroFilter
         dtermFilter currentFilter motor harmonic filter];
    change (uint8 1) with 1; change (uint8 2) with 2;
    cbn [Z.eqb Pos.eqb];
    rewrite ?upd_same; rewrite ?(upd_other _ 1 0) by lia; rewrite ?upd_same;
    rewrite ?rpmNotchFilterInit_harmonics;
    rewrite ?(uint8_small (gyro_rpm_notch_harmonics config)) by lia;
    rewrite ?(uint8_small (dterm_rpm_notch_harmonics config)) by lia.
  - split; [repeat split; lia|]. split; [right; discriminate|].
    split; [f_equal; lia|]. repeat split.
  - split; [repeat split; lia|]. split; [left; discriminate|].
    split; [f_equal; lia|]. repeat split.
  - split; [repeat split; lia|]. split; [left; discriminate|].
    split; [f_equal; lia|]. repeat split.
Qed.

(** From the state in which the program starts, [rpmFilterInit] leads to a
    state whose cursor is on the first cell of the table. *)
Lemma rpmFilterInit_scheduled e config pt1 st' :
  RpmFilter.useDshotTelemetry e = true ->
  rpmFilterInit e config (bootState pt1) = Some st' ->
  0 <= gyro_rpm_notch_harmonics config < 256 ->
  0 <= dterm_rpm_notch_harmonics config < 256 ->
  0 < gyro_rpm_notch_harmonics config + dterm_rpm_notch_harmonics config ->
  1 <= getMotorCount e < 256 ->
  scheduled e st' /\ active st' /\ cursor st' = (0, 0, 0).
Proof.
  intros Hon Hinit Hg Hd Hsum Hmc.
  destruct (rpmFilterInit_geometry e config _ st' Hon Hinit Hg Hd Hsum Hmc)
    as (Hreg & Hact & _ & Hcur & Hcf & Hf).
  split; [|split; [exact Hact|exact Hcur]].
  split; [exact Hreg|]. split; [now rewrite Hcf, Hf|].
  rewrite Hcur. destruct Hreg as (Hm & Hb & H0 & _).
  unfold inTable, bankHarmonics. cbn [bootState cursor currentFilter motor harmonic Z.eqb].
  lia.
Qed.

End InitGeometry.

(** ** Claims about the round-robin scheduler *)

(** *** The iterations of a call *)

Section Iterations.
Context {ops : Ops}.

Lemma recompute_cell st k a m h :
  (k, m, h) <> cursor st ->
  notch (filters (recompute st) k) a m h = notch (filters st k) a m h.
Proof.
  intros Hne. destruct (Z.eq_dec k (currentFilter st)) as [->|Hk];
    [|now rewrite recompute_other_bank].
  destruct (recompute_bank st) as (_ & _ & _ & _ & _ & _ & Hother). cbv zeta in Hother.
  apply Hother. intros E. apply Hne. unfold cursor. congruence.
Qed.

Lemma updateCells_snoc e n : forall st,
  updateCells (S n) e st = updateCell e (updateCells n e st).
Proof.
  induction n as [|n IH]; intros st; [reflexivity|].
  cbn [updateCells] in *. now rewrite IH.
Qed.

Lemma visited_nth e n : forall st i,
  (i < n)%nat -> nth_error (visited n e st) i = Some (cursor (updateCells i e st)).
Proof.
  induction n as [|n IH]; intros st i Hi; [lia|].
  destruct i as [|i]; cbn [visited nth_error updateCells]; [reflexivity|].
  apply IH. lia.
Qed.

Lemma inTable_inArray M g c : regular g -> fits M g -> inTable g c -> inArray M c.
Proof.
  destruct c as [[k m] h]. unfold regular, fits, inTable, inArray, bankHarmonics.
  intros (Hm & Hb & H0 & H1) (Fm & F0 & F1) (Hk & Hmo & Hh).
  destruct (Z.eqb_spec k 0); lia.
Qed.

Lemma visited_inArray M e n : forall st,
  scheduled e st -> fits M (geometryOf e st) ->
  forall c, In c (visited n e st) -> inArray M c.
Proof.
  induction n as [|n IH]; intros st Hs Hfits c Hc; [destruct Hc|].
  cbn [visited] in Hc. destruct Hc as [<-|Hc].
  - destruct Hs as (Hreg & _ & Hin). exact (inTable_inArray _ _ _ Hreg Hfits Hin).
  - apply (IH (updateCell e st)); [now apply updateCell_scheduled| |exact Hc].
    now rewrite updateCell_geometry.
Qed.

Lemma visitedByCall_inArray M e t st :
  scheduled e st -> fits M (geometryOf e st) ->
  forall c, In c (visitedByCall e t st) -> inArray M c.
Proof.
  intros Hs Hfits c. unfold visitedByCall.
  destruct (smoothErpm_scheduled e t st Hs) as (Hs1 & Hg1 & _).
  assert (Hfits1 : fits M (geometryOf e (smoothErpm e t st))) by now rewrite Hg1.
  destruct (gyroFilter st), (dtermFilter st);
    try apply (visited_inArray M e _ _ Hs1 Hfits1).
  intros [].
Qed.

Lemma rpmFilterUpdate_scheduled e t st :
  scheduled e st -> active st ->
  scheduled e (rpmFilterUpdate e t st) /\ active (rpmFilterUpdate e t st) /\
  geometryOf e (rpmFilterUpdate e t st) = geometryOf e st.
Proof.
  intros Hs Hact. destruct (active_call e t st Hact) as [_ ->].
  destruct (smoothErpm_scheduled e t st Hs) as (Hs1 & Hg1 & _).
  destruct (smoothErpm_frame e t st) as (_ & _ & _ & Hgy1 & Hdt1 & _).
  cbv zeta in Hgy1, Hdt1.
  destruct (updateCells_scheduled e (Z.to_nat (filterUpdatesPerIteration st)) _ Hs1)
    as (Hs2 & Hg2 & Hgy2 & Hdt2 & _).
  split; [exact Hs2|]. split; [|congruence].
  unfold active. rewrite Hgy2, Hdt2, Hgy1, Hdt1. exact Hact.
Qed.

(** One iteration of the loop writes the notch under the cursor and no
    other: [biquadFilterUpdate] on axis 0, the copies of its coefficients on
    the other axes. *)
Lemma updateCell_writes e s :
  let s' := updateCell e s in
  let cur := filters s (currentFilter s) in
  notch (filters s' (currentFilter s)) 0 (motor s) (harmonic s)
  = biquadFilterUpdate (notch cur 0 (motor s) (harmonic s)) (fedFrequency s)
      (loopTime cur) (q cur) FILTER_NOTCH /\
  (forall axis, 1 <= axis < XYZ_AXIS_COUNT ->
     notch (filters s' (currentFilter s)) axis (motor s) (harmonic s)
     = copyCoefficients (notch cur axis (motor s) (harmonic s))
         (notch (filters s' (currentFilter s)) 0 (motor s) (harmonic s))) /\
  (forall k a m h, (k, m, h) <> cursor s ->
     notch (filters s' k) a m h = notch (filters s k) a m h).
Proof.
  cbv zeta. unfold updateCell. rewrite advance_filters.
  destruct (recompute_bank s) as (_ & _ & _ & _ & Htemplate & Hclone & _).
  cbv zeta in Htemplate, Hclone.
  split; [exact Htemplate|]. split.
  - intros axis Haxis. rewrite Htemplate. now apply Hclone.
  - intros k a m h Hne. now apply recompute_cell.
Qed.

End Iterations.

(** The order of the visits: the statement of the round-robin order for a
    cursor on the table, in terms of the cells under the cursor at the
    successive iterations. *)
Lemma round_robin_order {ops : Ops} e st ts :
  scheduled e st -> active st ->
  let g := geometryOf e st in
  let U := Z.to_nat (filterUpdatesPerIteration st) in
  let N := Z.to_nat (totalCells g) in
  let L := visitedByCalls e ts st in
  (forall t, length (visitedByCall e t st) = U) /\
  length L = (length ts * U)%nat /\
  (forall i c c', nth_error L i = Some c -> nth_error L (S i) = Some c' ->
                  c' = nextCell g c) /\
  (forall c, In c L -> inTable g c) /\
  (forall i, (i + N <= length L)%nat ->
     NoDup (firstn N (skipn i L)) /\
     forall c, inTable g c -> In c (firstn N (skipn i L))) /\
  (1 <= filterUpdatesPerIteration st ->
   Z.of_nat (length ts) = ceilDiv (totalCells g) (filterUpdatesPerIteration st) ->
   forall c, inTable g c -> In c L) /\
  (forall config st0,
     RpmFilter.useDshotTelemetry e = true ->
     rpmFilterInit e config st0 = Some st ->
     0 <= gyro_rpm_notch_harmonics config < 256 ->
     0 <= dterm_rpm_notch_harmonics config < 256 ->
     0 < gyro_rpm_notch_harmonics config + dterm_rpm_notch_harmonics config ->
     totalCells g
     = getMotorCount e * (gyro_rpm_notch_harmonics config + dterm_rpm_notch_harmonics config)).
Proof.
  intros Hs Hact. cbn zeta.
  pose proof Hs as (Hreg & Hcur & Hin).
  destruct (regular_sizes _ Hreg) as (_ & HN & _).
  rewrite (visitedByCalls_explicit e ts st Hs Hact).
  set (g := geometryOf e st). set (U := Z.to_nat (filterUpdatesPerIteration st)).
  set (r0 := rank g (cursor st)).
  assert (Hlen : length (map (fun i => cellAt g ((r0 + Z.of_nat i) mod totalCells g))
                             (seq 0 (length ts * U))) = (length ts * U)%nat)
    by now rewrite length_map, length_seq.
  split; [|split; [exact Hlen|split; [|split; [|split; [|split]]]]].
  - intros t. destruct (active_call e t st Hact) as [-> _]. fold U.
    destruct (smoothErpm_scheduled e t st Hs) as (Hs1 & _ & _).
    now rewrite visited_explicit, length_map, length_seq.
  - intros i c c'. rewrite !nth_error_map, !nth_error_seq.
    destruct (Nat.ltb i (length ts * U)); [|discriminate].
    destruct (Nat.ltb (S i) (length ts * U)); [|discriminate].
    cbn. intros [= <-] [= <-]. apply (at_step_next g Hreg r0 i).
  - intros c Hc. apply in_map_iff in Hc. destruct Hc as (i & <- & _).
    apply (at_step_inTable g Hreg r0 i).
  - intros i Hi. rewrite Hlen in Hi. apply (window_fair g Hreg r0 _ i Hi).
  - intros HU Hcalls c Hc.
    assert (Hcover : (0 + Z.to_nat (totalCells g) <= length ts * U)%nat).
    { unfold ceilDiv in Hcalls. subst U.
      assert (totalCells g <= Z.of_nat (length ts) * filterUpdatesPerIteration st).
      { rewrite Hcalls. generalize (filterUpdatesPerIteration st) HU. intros u Hu.
        Z.div_mod_to_equations. nia. }
      nia. }
    destruct (window_fair g Hreg r0 _ 0%nat Hcover) as [_ Hall].
    specialize (Hall c Hc). cbn [skipn] in Hall.
    match type of Hall with
    | In _ (firstn ?n ?l) => rewrite <- (firstn_skipn n l)
    end.
    apply in_or_app. now left.
  - intros config st0 Hon Hinit Hg Hd Hsum.
    destruct Hreg as (Hm & _).
    apply (rpmFilterInit_geometry e config st0 st Hon Hinit Hg Hd Hsum Hm).
Qed.

(** C2 amended.  From any state whose cursor is on a cell of the table,
    with a table that fits the arrays, every call of [rpmFilterUpdate] is
    exactly [filterUpdatesPerIteration] iterations of its loop, and each
    iteration recomputes the notch of the cell under the cursor on axis 0
    with [biquadFilterUpdate], copies the coefficients to the other axes
    and writes no other notch; the cells are inside the arrays; over the
    calls the cursor runs through the harmonics of a bank, then through the
    banks, then through the motors; any [totalCells] consecutive
    recomputations visit every cell of the active banks exactly once, so no
    cell is skipped or repeated before the others have had their turn, and
    [ceil (totalCells / filterUpdatesPerIteration)] calls cover the table;
    a call leaves the cursor on the table.  After [rpmFilterInit],
    [totalCells] is the motor count times the sum of the configured
    harmonics. *)
Theorem round_robin_fair {ops : Ops} MAX_SUPPORTED_MOTORS e st ts :
  scheduled e st -> active st -> fits MAX_SUPPORTED_MOTORS (geometryOf e st) ->
  let g := geometryOf e st in
  let U := Z.to_nat (filterUpdatesPerIteration st) in
  let N := Z.to_nat (totalCells g) in
  let L := visitedByCalls e ts st in
  (forall t, rpmFilterUpdate e t st = updateCells U e (smoothErpm e t st) /\
             length (visitedByCall e t st) = U) /\
  (forall t i, (i < U)%nat ->
     let s := updateCells i e (smoothErpm e t st) in
     let s' := updateCell e s in
     let cur := filters s (currentFilter s) in
     updateCells (S i) e (smoothErpm e t st) = s' /\
     nth_error (visitedByCall e t st) i = Some (cursor s) /\
     inTable g (cursor s) /\ inArray MAX_SUPPORTED_MOTORS (cursor s) /\
     notch (filters s' (currentFilter s)) 0 (motor s) (harmonic s)
     = biquadFilterUpdate (notch cur 0 (motor s) (harmonic s)) (fedFrequency s)
         (loopTime cur) (q cur) FILTER_NOTCH /\
     (forall axis, 1 <= axis < XYZ_AXIS_COUNT ->
        notch (filters s' (currentFilter s)) axis (motor s) (harmonic s)
        = copyCoefficients (notch cur axis (motor s) (harmonic s))
            (notch (filters s' (currentFilter s)) 0 (motor s) (harmonic s))) /\
     (forall k a m h, (k, m, h) <> cursor s ->
        notch (filters s' k) a m h = notch (filters s k) a m h)) /\
  (forall t, scheduled e (rpmFilterUpdate e t st) /\ active (rpmFilterUpdate e t st) /\
             fits MAX_SUPPORTED_MOTORS (geometryOf e (rpmFilterUpdate e t st))) /\
  length L = (length ts * U)%nat /\
  (forall i c c', nth_error L i = Some c -> nth_error L (S i) = Some c' ->
                  c' = nextCell g c) /\
  (forall c, In c L -> inTable g c /\ inArray MAX_SUPPORTED_MOTORS c) /\
  (forall i, (i + N <= length L)%nat ->
     NoDup (firstn N (skipn i L)) /\
     forall c, inTable g c -> In c (firstn N (skipn i L))) /\
  (1 <= filterUpdatesPerIteration st ->
   Z.of_nat (length ts) = ceilDiv (totalCells g) (filterUpdatesPerIteration st) ->
   forall c, inTable g c -> In c L) /\
  (forall config st0,
     RpmFilter.useDshotTelemetry e = true ->
     rpmFilterInit e config st0 = Some st ->
     0 <= gyro_rpm_notch_harmonics config < 256 ->
     0 <= dterm_rpm_notch_harmonics config < 256 ->
     0 < gyro_rpm_notch_harmonics config + dterm_rpm_notch_harmonics config ->
     totalCells g
     = getMotorCount e * (gyro_rpm_notch_harmonics config + dterm_rpm_notch_harmonics config)).
Proof.
  intros Hs Hact Hfits. cbv zeta.
  destruct (round_robin_order e st ts Hs Hact)
    as (Hcall & Hlen & Hnext & Htable & Hwindow & Hcover & Hinit).
  cbv zeta in Hcall, Hlen, Hnext, Htable, Hwindow, Hcover, Hinit.
  pose proof Hs as (Hreg & _ & _).
  split; [|split; [|split; [|split; [exact Hlen|split; [exact Hnext|split;
    [|split; [exact Hwindow|split; [exact Hcover|exact Hinit]]]]]]]].
  - intros t. destruct (active_call e t st Hact) as [_ Hupdate].
    split; [exact Hupdate|apply Hcall].
  - intros t i Hi.
    destruct (active_call e t st Hact) as [Hvisited _].
    destruct (smoothErpm_scheduled e t st Hs) as (Hs1 & Hg1 & _).
    destruct (updateCells_scheduled e i _ Hs1) as (Hsi & Hgi & _).
    destruct (updateCell_writes e (updateCells i e (smoothErpm e t st)))
      as (Haxis0 & Hclones & Hothers).
    cbv zeta in Haxis0, Hclones, Hothers.
    assert (Hin : inTable (geometryOf e st) (cursor (updateCells i e (smoothErpm e t st)))).
    { destruct Hsi as (_ & _ & Hin). now rewrite Hgi, Hg1 in Hin. }
    split; [apply updateCells_snoc|].
    split; [rewrite Hvisited; now apply visited_nth|].
    split; [exact Hin|].
    split; [exact (inTable_inArray _ _ _ Hreg Hfits Hin)|].
    split; [exact Haxis0|]. split; [exact Hclones|exact Hothers].
  - intros t. destruct (rpmFilterUpdate_scheduled e t st Hs Hact) as (Hs' & Hact' & Hg').
    split; [exact Hs'|]. split; [exact Hact'|]. now rewrite Hg'.
  - intros c Hc. pose proof (Htable c Hc) as Hin.
    split; [exact Hin|exact (inTable_inArray _ _ _ Hreg Hfits Hin)].
Qed.

Example sample_updates_per_tick :
  filterUpdatesPerIteration sampleState = 2 /\
  numberFilters sampleState = 16 /\
  geometryOf (sampleEnv true) sampleState
  = {| motors := 4; banks := 2; harmonics0 := 3; harmonics1 := 1 |}.
Proof. vm_compute. repeat split. Qed.

Lemma sampleState_scheduled : scheduled (sampleEnv true) sampleState.
Proof.
  destruct sample_updates_per_tick as (_ & _ & Hg).
  unfold scheduled. rewrite Hg. unfold regular, inTable, bankHarmonics.
  change (cursor sampleState) with (0, 0, 0).
  change (currentFilter sampleState) with 0. change (filter sampleState) with 0.
  cbn. repeat split; try lia.
Qed.

Lemma sampleState_active : active sampleState.
Proof. left. change (gyroFilter sampleState) with (Some 0). discriminate. Qed.

Lemma sampleState_fits : fits 8 (geometryOf (sampleEnv true) sampleState).
Proof.
  destruct sample_updates_per_tick as (_ & _ & ->).
  unfold fits, RPM_FILTER_MAXHARMONICS. cbn. lia.
Qed.

Lemma round_robin_fair_witness :
  scheduled (sampleEnv true) sampleState /\
  active sampleState /\
  fits 8 (geometryOf (sampleEnv true) sampleState) /\
  let g := geometryOf (sampleEnv true) sampleState in
  let L := visitedByCalls (sampleEnv true) (repeat (fun _ => 0) 8) sampleState in
  length L = 16%nat /\ NoDup L /\ (forall c, inTable g c -> In c L) /\
  (forall c, In c L -> inArray 8 c) /\
  nth_error L 3 = Some (1, 0, 0) /\ nth_error L 4 = Some (0, 1, 0).
Proof.
  split; [exact sampleState_scheduled|]. split; [exact sampleState_active|].
  split; [exact sampleState_fits|].
  destruct (round_robin_fair 8 (sampleEnv true) sampleState (repeat (fun _ => 0) 8)
              sampleState_scheduled sampleState_active sampleState_fits)
    as (_ & _ & _ & Hlen & _ & Harray & Hwin & _).
  destruct sample_updates_per_tick as (HU & _ & Hg).
  cbv zeta in Hlen, Hwin, Harray |- *. rewrite HU in Hlen. rewrite Hg in Hwin |- *.
  change (Z.to_nat (totalCells {| motors := 4; banks := 2; harmonics0 := 3; harmonics1 := 1 |}))
    with 16%nat in Hwin.
  change (length (repeat (fun _ : Z => 0%Z) 8) * Z.to_nat 2)%nat with 16%nat in Hlen.
  split; [exact Hlen|].
  destruct (Hwin 0%nat) as [Hnd Hall]; [rewrite Hlen; apply Nat.le_refl|].
  cbn [skipn] in Hnd, Hall. rewrite <- Hlen, firstn_all in Hnd, Hall.
  split; [exact Hnd|]. split; [exact Hall|].
  split; [intros c Hc; exact (proj2 (Harray c Hc))|].
  split; vm_compute; reflexivity.
Defined.

(** C2, as the code has it.  [rpmFilterInit] does not reset the cursor, which
    is local to [rpmFilterUpdate].  After a first initialisation with three
    and one harmonics and one call, the cursor is on harmonic 2 of the gyro
    bank; a second initialisation with one harmonic a bank leaves it there,
    off the new table of eight cells, and since the wrap test is an
    equality the harmonic counts on: the eight calls that should cover the
    table visit none of its cells. *)
Lemma stale_cursor_misses_table :
  rpmFilterInit (sampleEnv true) narrowConfig
    (rpmFilterUpdate (sampleEnv true) (fun _ => 0) sampleState) = Some staleState /\
  active staleState /\
  cursor staleState = (0, 0, 2) /\
  let g := geometryOf (sampleEnv true) staleState in
  let L := visitedByCalls (sampleEnv true) (repeat (fun _ => 0) 8) staleState in
  g = {| motors := 4; banks := 2; harmonics0 := 1; harmonics1 := 1 |} /\
  filterUpdatesPerIteration staleState = 1 /\
  ceilDiv (totalCells g) (filterUpdatesPerIteration staleState) = 8 /\
  L = [(0, 0, 2); (0, 0, 3); (0, 0, 4); (0, 0, 5); (0, 0, 6); (0, 0, 7); (0, 0, 8); (0, 0, 9)] /\
  inTable g (0, 0, 0) /\ ~ In (0, 0, 0) L /\
  (forall c, In c L -> ~ inTable g c).
Proof.
  assert (Hg : geometryOf (sampleEnv true) staleState
               = {| motors := 4; banks := 2; harmonics0 := 1; harmonics1 := 1 |})
    by (vm_compute; reflexivity).
  assert (HL : visitedByCalls (sampleEnv true) (repeat (fun _ => 0) 8) staleState
               = [(0, 0, 2); (0, 0, 3); (0, 0, 4); (0, 0, 5); (0, 0, 6); (0, 0, 7);
                  (0, 0, 8); (0, 0, 9)])
    by (vm_compute; reflexivity).
  split.
  { unfold staleState.
    destruct (rpmFilterInit (ops := sampleOps) (sampleEnv true) narrowConfig
                (rpmFilterUpdate (sampleEnv true) (fun _ => 0) sampleState))
      as [st'|] eqn:E; [reflexivity|].
    exfalso.
    assert (H : match rpmFilterInit (ops := sampleOps) (sampleEnv true) narrowConfig
                        (rpmFilterUpdate (sampleEnv true) (fun _ => 0) sampleState) with
                | Some _ => true
                | None => false
                end = true) by (vm_compute; reflexivity).
    rewrite E in H. discriminate. }
  split; [left; change (gyroFilter staleState) with (Some 0); discriminate|].
  split; [vm_compute; reflexivity|].
  cbv zeta. rewrite Hg, HL.
  split; [reflexivity|]. split; [vm_compute; reflexivity|].
  split; [vm_compute; reflexivity|]. split; [reflexivity|].
  split; [unfold inTable, bankHarmonics; cbn; lia|].
  split.
  - intros H. repeat (destruct H as [H|H]; [discriminate|]). exact H.
  - intros c Hc. unfold inTable, bankHarmonics.
    repeat (destruct Hc as [<-|Hc]; [cbn; lia|]). destruct Hc.
Qed.

(** ** Claims about the frequencies handed to the notches *)

Section Frequencies.
Context {ops : Ops}.

Lemma updateCell_numeric e st : numeric st -> numeric (updateCell e st).
Proof.
  intros (Hh & Hmin & Hmf & Hpend).
  destruct (updateCell_settings e st) as (_ & _ & _ & Hfe & _ & Herpm).
  unfold numeric. rewrite Hfe, Herpm. repeat split.
  - unfold updateCell, advance.
    destruct (_ =? harmonics _); [destruct (_ =? numberRpmNotchFilters _)|];
      cbn [harmonic setCursor]; try lia.
    pose proof (uint8_range (harmonic (recompute st) + 1)). lia.
  - unfold updateCell, advance.
    destruct (_ =? harmonics _); [destruct (_ =? numberRpmNotchFilters _)|];
      cbn [harmonic setCursor]; try lia.
    pose proof (uint8_range (harmonic (recompute st) + 1)). lia.
  - unfold updateCell. rewrite advance_filters.
    destruct (Z.eq_dec k (currentFilter st)) as [->|Hne].
    + destruct (recompute_bank st) as (_ & -> & _). apply Hmin.
    + rewrite recompute_other_bank by exact Hne. apply Hmin.
  - unfold updateCell. rewrite advance_filters.
    destruct (Z.eq_dec k (currentFilter st)) as [->|Hne].
    + destruct (recompute_bank st) as (_ & -> & _). apply Hmin.
    + rewrite recompute_other_bank by exact Hne. apply Hmin.
  - intros m. unfold updateCell, advance.
    destruct (_ =? harmonics _); [destruct (_ =? numberRpmNotchFilters _)|];
      cbn [motorFrequency setCursor]; try apply Hmf.
    unfold upd. destruct (m =? _); [apply Hpend|apply Hmf].
  - exact Hpend.
Qed.

Lemma fedFrequency_clamped st :
  numeric st -> clamped (minHz (filters st (currentFilter st)), fedFrequency st).
Proof.
  intros (Hh & Hmin & Hmf & _). unfold clamped, fedFrequency.
  apply notchFrequency_range; auto.
Qed.

End Frequencies.

(** C4, as the code has it.  The claim fails where the minimum is zero:
    with a stopped motor [rpmFilterUpdate] then hands 0 Hz to the notch;
    and [rpmNotchFilterInit] hands [minHz * 0], which is 0 Hz, to the first
    harmonic of every motor. *)
Lemma notch_frequency_can_be_zero :
  (fedFrequency zeroMinState = S754_zero false /\
   is_zero (notchFrequency 0 (S754_zero false) 0) = true) /\
  (initFrequency 100 0 = S754_zero false /\
   leb (of_int 100) (initFrequency 100 0) = false /\
   b0 (notch (filters sampleState 0) 2 3 0) = S754_zero false).
Proof. vm_compute. repeat split. Qed.

(** C4 amended.  In every run of recomputations from a state whose motor
    frequency estimates are numbers, each frequency handed to
    [biquadFilterUpdate] lies between the minimum of its bank and the
    deactivation frequency 1000 Hz, and is not zero when that minimum is
    positive. *)
Theorem fed_frequencies_clamped {ops : Ops} e n st :
  numeric st -> Forall clamped (fed n e st).
Proof.
  revert st. induction n as [|n IH]; intros st Hnum; cbn [fed]; constructor.
  - now apply fedFrequency_clamped.
  - apply IH. now apply updateCell_numeric.
Qed.

Lemma initCells_minHz {ops : Ops} f motorCount hcount min looptime :
  minHz (initCells f motorCount hcount min looptime) = minHz f.
Proof.
  unfold initCells. apply fold_left_preserves. intros g axis.
  apply fold_left_preserves. intros g' mo.
  apply fold_left_preserves. intros g'' i. reflexivity.
Qed.

(** [rpmFilterInit] keeps the minimum of every bank within [uint8_t]. *)
Lemma rpmFilterInit_minHz {ops : Ops} e config st st' :
  (forall k, 0 <= minHz (filters st k) < 256) ->
  rpmFilterInit e config st = Some st' ->
  forall k, 0 <= minHz (filters st' k) < 256.
Proof.
  intros Hmin Hinit k. unfold rpmFilterInit in Hinit.
  assert (Hnew : forall f h m qc lt,
             0 <= minHz (rpmNotchFilterInit e f h m qc lt) < 256).
  { intros. unfold rpmNotchFilterInit. rewrite initCells_minHz. apply uint8_range. }
  destruct (negb (RpmFilter.useDshotTelemetry e)); [injection Hinit as <-; apply Hmin|].
  destruct (negb (gyro_rpm_notch_harmonics config =? 0));
    destruct (negb (dterm_rpm_notch_harmonics config =? 0));
    match type of Hinit with
    | bind ?m _ = _ => destruct m; [|discriminate]
    end; cbn [bind] in Hinit; injection Hinit as <-; cbn [filters];
    unfold upd; repeat match goal with |- context [if ?b then _ else _] => destruct b end;
    auto.
Qed.

Lemma sampleState_numeric : numeric sampleState.
Proof.
  unfold numeric. split; [vm_compute; split; [discriminate|reflexivity]|].
  split; [|split].
  - assert (Hb : forall k, 0 <= minHz (filters sampleBoot k) < 256)
      by (intros k; cbn; lia).
    unfold sampleState.
    destruct (rpmFilterInit (sampleEnv true) pgResetFn_rpmFilterConfig sampleBoot)
      as [st'|] eqn:E.
    + apply (rpmFilterInit_minHz _ _ _ _ Hb E).
    + exact Hb.
  - intros m. vm_compute. reflexivity.
  - intros m. vm_compute. reflexivity.
Qed.

Lemma fed_frequencies_clamped_witness :
  numeric sampleState /\
  Forall clamped (fed 16 (sampleEnv true) sampleState) /\
  nth_error (fed 16 (sampleEnv true) sampleState) 0 = Some (100, of_int 1000).
Proof.
  split; [exact sampleState_numeric|].
  split; [exact (fed_frequencies_clamped (sampleEnv true) 16 sampleState sampleState_numeric)|].
  vm_compute. reflexivity.
Defined.

(** ** Claims about the refresh of the frequency estimates *)

(** C8, as the code has it.  The claim fails when the cursor leaves the
    last cell of motor 0 of four motors: the motor index becomes 1, it does
    not wrap to zero, and the estimate of motor 1 is refreshed. *)
Lemma refresh_without_wrap_to_zero :
  cursor lastCellState = (1, 0, 0) /\
  motor (updateCell (sampleEnv true) lastCellState) = 1 /\
  motorFrequency (updateCell (sampleEnv true) lastCellState) 1
  = mul (erpmToHz lastCellState) (filteredMotorErpm lastCellState 1) /\
  is_zero (motorFrequency lastCellState 1) = true /\
  is_zero (motorFrequency (updateCell (sampleEnv true) lastCellState) 1) = false.
Proof. vm_compute. repeat split. Qed.

(** C8 amended.  A recomputation refreshes a frequency estimate exactly
    when it moves the cursor to the first cell of a motor, that is when the
    bank index wraps: the motor index has then advanced by one, back to
    zero after the last motor, and the estimate of that motor, and of no
    other, becomes [erpmToHz * filteredMotorErpm]; every other
    recomputation leaves the motor index and all estimates as they are. *)
Theorem frequency_refreshed_on_motor_entry {ops : Ops} e st :
  scheduled e st ->
  let st' := updateCell e st in
  (currentFilter st' = 0 /\ harmonic st' = 0 ->
   motor st' = (motor st + 1) mod getMotorCount e /\
   motorFrequency st'
   = upd (motorFrequency st) (motor st')
       (mul (erpmToHz st) (filteredMotorErpm st (motor st')))) /\
  (~ (currentFilter st' = 0 /\ harmonic st' = 0) ->
   motor st' = motor st /\ motorFrequency st' = motorFrequency st).
Proof.
  intros ((Hm & Hb & H0 & H1) & Hcur & Hk & Hmo & Hh). cbn zeta.
  unfold updateCell, advance.
  rewrite recompute_harmonics.
  recompute_frame st.
  unfold cursor, bankHarmonics in *. cbn [geometryOf motors banks harmonics0 harmonics1] in *.
  assert (Hhr : 0 <= harmonic st < 255).
  { destruct (Z.eqb_spec (currentFilter st) 0); [lia|].
    assert (Hb2 : numberRpmNotchFilters st = 2) by lia. specialize (H1 Hb2). lia. }
  rewrite (uint8_small (harmonic st + 1)) by lia.
  rewrite (uint8_small (filter st + 1)) by lia.
  rewrite (uint8_small (motor st + 1)) by lia.
  destruct (Z.eqb_spec (harmonic st + 1) (harmonics (filters st (currentFilter st))))
    as [E|E].
  - destruct (Z.eqb_spec (filter st + 1) (numberRpmNotchFilters st)) as [E2|E2].
    + destruct (Z.eqb_spec (motor st + 1) (getMotorCount e)) as [E3|E3];
        cbn [setCursor currentFilter harmonic motor motorFrequency].
      * split; [intros _|intros Hn; elim Hn; split; reflexivity].
        split; [|reflexivity]. rewrite E3. symmetry. apply Z.mod_same. lia.
      * split; [intros _|intros Hn; elim Hn; split; reflexivity].
        split; [|reflexivity]. symmetry. apply Z.mod_small. lia.
    + cbn [setCursor currentFilter harmonic motor motorFrequency].
      split; [intros [Hz _]; lia|intros _; split; reflexivity].
  - cbn [setCursor currentFilter harmonic motor motorFrequency].
    split; [intros [_ Hz]; lia|intros _; split; reflexivity].
Qed.

Lemma lastCellState_scheduled : scheduled (sampleEnv true) lastCellState.
Proof.
  unfold lastCellState.
  apply updateCells_scheduled, smoothErpm_scheduled, sampleState_scheduled.
Qed.

Lemma frequency_refreshed_on_motor_entry_witness :
  scheduled (sampleEnv true) lastCellState /\
  motor (updateCell (sampleEnv true) lastCellState) = 1 /\
  motorFrequency (updateCell (sampleEnv true) lastCellState)
  = upd (motorFrequency lastCellState) 1
      (mul (erpmToHz lastCellState) (filteredMotorErpm lastCellState 1)).
Proof.
  split; [exact lastCellState_scheduled|].
  destruct (frequency_refreshed_on_motor_entry (sampleEnv true) lastCellState
              lastCellState_scheduled) as [Hin _].
  cbn zeta in Hin.
  assert (Hm : motor (updateCell (sampleEnv true) lastCellState) = 1)
    by (vm_compute; reflexivity).
  rewrite Hm in Hin. split; [reflexivity|].
  apply Hin. split; vm_compute; reflexivity.
Defined.

(** ** Claims about an invalid capture *)

Section Smoothing.
Context {ops : Ops}.

Lemma smoothMotors_spec t l : NoDup l -> forall st,
  let st' := fold_left (smoothMotor t) l st in
  (forall i, In i l ->
     filteredMotorErpm st' i = snd (pt1FilterApply (rpmFilters st i) (of_int (t i)))) /\
  (forall i, ~ In i l ->
     rpmFilters st' i = rpmFilters st i /\
     filteredMotorErpm st' i = filteredMotorErpm st i).
Proof.
  induction 1 as [|k l Hnin Hnd IH]; intros st; cbn zeta; cbn [fold_left].
  - split; [intros i []|intros i _; split; reflexivity].
  - destruct (IH (smoothMotor t st k)) as [Hin Hout]. cbn zeta in Hin, Hout.
    assert (Hk : rpmFilters (smoothMotor t st k) k
                 = fst (pt1FilterApply (rpmFilters st k) (of_int (t k))) /\
                 filteredMotorErpm (smoothMotor t st k) k
                 = snd (pt1FilterApply (rpmFilters st k) (of_int (t k)))).
    { unfold smoothMotor. destruct (pt1FilterApply _ _). cbn. now rewrite !upd_same. }
    assert (Hother : forall i, i <> k ->
               rpmFilters (smoothMotor t st k) i = rpmFilters st i /\
               filteredMotorErpm (smoothMotor t st k) i = filteredMotorErpm st i).
    { intros i Hne. unfold smoothMotor. destruct (pt1FilterApply _ _). cbn.
      now rewrite !upd_other by exact Hne. }
    split.
    + intros i [<-|Hi].
      * destruct (Hout k Hnin) as [_ ->]. apply Hk.
      * rewrite (Hin i Hi). destruct (Hother i) as [-> _]; [|reflexivity].
        intros ->. contradiction.
    + intros i Hni.
      destruct (Hout i) as [-> ->]; [intros Hi; apply Hni; now right|].
      apply Hother. intros ->. apply Hni. now left.
Qed.

(** After the smoothing loop, the output of motor [i] is its PT1 filter
    applied to the telemetry value of motor [i]. *)
Lemma smoothErpm_at e t st i :
  0 <= i < getMotorCount e ->
  filteredMotorErpm (smoothErpm e t st) i
  = snd (pt1FilterApply (rpmFilters st i) (of_int (t i))).
Proof.
  intros Hi. unfold smoothErpm.
  apply (smoothMotors_spec t _ (range_NoDup 0 (getMotorCount e)) st).
  apply in_range. lia.
Qed.

Lemma updateCells_filteredMotorErpm e n : forall st,
  filteredMotorErpm (updateCells n e st) = filteredMotorErpm st.
Proof.
  induction n as [|n IH]; intros st; cbn [updateCells]; [reflexivity|].
  rewrite IH. apply (updateCell_settings e st).
Qed.

Lemma rpmFilterUpdate_filteredMotorErpm e t st i :
  active st -> 0 <= i < getMotorCount e ->
  filteredMotorErpm (rpmFilterUpdate e t st) i
  = snd (pt1FilterApply (rpmFilters st i) (of_int (t i))).
Proof.
  intros Hact Hi. destruct (active_call e t st Hact) as [_ ->].
  rewrite updateCells_filteredMotorErpm. now apply smoothErpm_at.
Qed.

End Smoothing.

(** C7, as the code has it.  Motor 1 of the sample driver has a capture
    that fails the checksum and a stored telemetry value of 9.  The frame
    start keeps the 9 and counts the packet, and [rpmFilterUpdate] then
    feeds the 9 to the PT1 filter of motor 1 again: with the filter half
    way (state 0, gain 1/2) the smoothed value moves from 0 to 4.5, it does
    not hold. *)
Lemma invalid_capture_moves_estimate :
  invalidCapture 96 24 3 (dmaMotors sampleDriver 1) = true /\
  exists d',
    pwmStartDshotMotorUpdate 96 24 3 2 sampleDriver = Some d' /\
    getDshotTelemetry d' 1 = 9 /\
    dshotInvalidPacketCount d' = 1 /\
    filteredMotorErpm halfwayState 1 = S754_zero false /\
    filteredMotorErpm
      (rpmFilterUpdate (sampleEnv true) (getDshotTelemetry d') halfwayState) 1
    = literal 9 2.
Proof.
  split; [vm_compute; reflexivity|].
  destruct (pwmStartDshotMotorUpdate 96 24 3 2 sampleDriver) as [d'|] eqn:E;
    [|vm_compute in E; discriminate].
  exists d'. split; [reflexivity|].
  assert (E' : Some d' = pwmStartDshotMotorUpdate 96 24 3 2 sampleDriver)
    by (symmetry; exact E).
  vm_compute in E'. injection E' as ->.
  vm_compute. repeat split.
Qed.

Lemma filter_length_pos {A : Type} (f : A -> bool) l x :
  In x l -> f x = true -> (1 <= length (List.filter f l))%nat.
Proof.
  intros Hin Hf. assert (H : In x (List.filter f l)) by (apply filter_In; auto).
  destruct (List.filter f l); [destruct H|cbn; lia].
Qed.

(** C7 amended.  When the capture of a motor fails the checksum, the frame
    start leaves the motor's stored telemetry value as it was and advances
    the invalid-packet counter by one for each such motor (a 32-bit
    counter); the next [rpmFilterUpdate] feeds the stored value, the last
    valid one, to the motor's PT1 filter again, and the smoothed eRPM is
    that filter's output. *)
Theorem invalid_capture_keeps_telemetry {ops : Ops}
    modulo base width motorCount d e st i :
  proshotTiming modulo base width ->
  Dshot.useDshotTelemetry d = true ->
  capturesSized d motorCount ->
  0 <= i < motorCount ->
  invalidCapture modulo base width (dmaMotors d i) = true ->
  exists d',
    pwmStartDshotMotorUpdate modulo base width motorCount d = Some d' /\
    getDshotTelemetry d' i = getDshotTelemetry d i /\
    1 <= invalidCaptures modulo base width d motorCount /\
    uint32 (dshotInvalidPacketCount d')
    = uint32 (dshotInvalidPacketCount d + invalidCaptures modulo base width d motorCount) /\
    (active st -> 0 <= i < getMotorCount e ->
     filteredMotorErpm (rpmFilterUpdate e (getDshotTelemetry d') st) i
     = snd (pt1FilterApply (rpmFilters st i) (of_int (getDshotTelemetry d i)))).
Proof.
  intros Ht Hon Hsized Hi Hinv.
  destruct (pwmStartDshotMotorUpdate_spec modulo base width Ht motorCount d Hon Hsized)
    as (d' & Hd' & Hkeep & _ & Hcount).
  exists d'. split; [exact Hd'|]. split; [now apply Hkeep|]. split; [|split].
  - unfold invalidCaptures.
    pose proof (filter_length_pos
                  (fun j => invalidCapture modulo base width (dmaMotors d j))
                  (upto motorCount) i (proj2 (in_upto motorCount i) Hi) Hinv).
    lia.
  - exact Hcount.
  - intros Hact Hie. rewrite rpmFilterUpdate_filteredMotorErpm by assumption.
    now rewrite (Hkeep i Hi Hinv).
Qed.

Lemma invalid_capture_keeps_telemetry_witness :
  proshotTiming 96 24 3 /\
  Dshot.useDshotTelemetry sampleDriver = true /\
  capturesSized sampleDriver 2 /\
  invalidCapture 96 24 3 (dmaMotors sampleDriver 1) = true /\
  exists d',
    pwmStartDshotMotorUpdate 96 24 3 2 sampleDriver = Some d' /\
    getDshotTelemetry d' 1 = getDshotTelemetry sampleDriver 1 /\
    filteredMotorErpm
      (rpmFilterUpdate (sampleEnv true) (getDshotTelemetry d') halfwayState) 1
    = snd (pt1Apply {| pt1State := S754_zero false; pt1K := literal 1 2 |} (of_int 9)).
Proof.
  assert (Ht : proshotTiming 96 24 3) by (unfold proshotTiming; lia).
  assert (Hinv : invalidCapture 96 24 3 (dmaMotors sampleDriver 1) = true)
    by (vm_compute; reflexivity).
  assert (Hi : 0 <= 1 < 2) by lia.
  destruct (invalid_capture_keeps_telemetry (ops := sampleOps) 96 24 3 2 sampleDriver
              (sampleEnv true) halfwayState 1 Ht eq_refl sampleDriver_sized Hi Hinv)
    as (d' & Hd' & Hkeep & _ & _ & Hsmooth).
  split; [exact Ht|]. split; [reflexivity|]. split; [exact sampleDriver_sized|].
  split; [exact Hinv|].
  exists d'. split; [exact Hd'|]. split; [exact Hkeep|].
  apply Hsmooth.
  - left. change (gyroFilter halfwayState) with (Some 0). discriminate.
  - cbn. lia.
Defined.

(** * Further properties of the link driver *)

Import DshotLink.

(** ** The timer table *)

Section TimerTable.
Variable MAX_DMA_TIMERS : Z.
Hypothesis Hmax : MAX_DMA_TIMERS < 256.

Lemma findTimer_Some t tim i :
  findTimer t tim = Some i ->
  0 <= i < dmaMotorTimerCount t /\ timer (dmaMotorTimers t i) = tim.
Proof.
  unfold findTimer. intros H. apply find_some in H. destruct H as [Hin Heq].
  apply in_upto in Hin. apply Z.eqb_eq in Heq. auto.
Qed.

Lemma findTimer_None t tim :
  findTimer t tim = None ->
  forall i, 0 <= i < dmaMotorTimerCount t -> timer (dmaMotorTimers t i) <> tim.
Proof.
  unfold findTimer. intros H i Hi E.
  pose proof (find_none _ _ H i (proj2 (in_upto _ i) Hi)) as Hn.
  cbn in Hn. apply Z.eqb_neq in Hn. contradiction.
Qed.

Lemma findTimer_present t tim i :
  tableOk MAX_DMA_TIMERS t ->
  0 <= i < dmaMotorTimerCount t -> timer (dmaMotorTimers t i) = tim ->
  findTimer t tim = Some i.
Proof.
  intros [_ Hdist] Hi Heq.
  destruct (findTimer t tim) as [j|] eqn:E.
  - destruct (findTimer_Some t tim j E) as [Hj Hjt].
    f_equal. apply Hdist; congruence.
  - exfalso. exact (findTimer_None t tim E i Hi Heq).
Qed.

Lemma getTimerIndex_new t tim :
  tableOk MAX_DMA_TIMERS t -> findTimer t tim = None ->
  dmaMotorTimerCount t < MAX_DMA_TIMERS ->
  let i := dmaMotorTimerCount t in
  let t' := setTimerEntry t (i + 1) i
              {| timer := tim; timerDmaSources := timerDmaSources (dmaMotorTimers t i) |} in
  getTimerIndex MAX_DMA_TIMERS t tim = Some (i, t') /\ tableOk MAX_DMA_TIMERS t'.
Proof.
  intros [Hc Hdist] Hnone Hlt. cbn zeta. unfold getTimerIndex. rewrite Hnone.
  destruct (Z.leb_spec 0 (dmaMotorTimerCount t)); [|lia].
  destruct (Z.ltb_spec (dmaMotorTimerCount t) MAX_DMA_TIMERS); [|lia].
  cbn [andb]. rewrite (uint8_small (dmaMotorTimerCount t + 1)) by lia.
  replace (dmaMotorTimerCount t + 1 - 1) with (dmaMotorTimerCount t) by lia.
  rewrite uint8_small by lia. split; [reflexivity|].
  split; [cbn; lia|]. cbn [setTimerEntry dmaMotorTimerCount dmaMotorTimers].
  intros a b Ha Hb.
  destruct (Z.eqb_spec a (dmaMotorTimerCount t)), (Z.eqb_spec b (dmaMotorTimerCount t));
    cbn [timer]; intros E; try lia.
  - exfalso. apply (findTimer_None t tim Hnone b); [lia|congruence].
  - exfalso. apply (findTimer_None t tim Hnone a); [lia|congruence].
  - apply Hdist; [lia|lia|exact E].
Qed.

Lemma getTimerIndex_absent t tim i t' :
  tableOk MAX_DMA_TIMERS t -> findTimer t tim = None ->
  getTimerIndex MAX_DMA_TIMERS t tim = Some (i, t') ->
  i = dmaMotorTimerCount t /\ dmaMotorTimerCount t' = dmaMotorTimerCount t + 1 /\
  dmaMotorTimerCount t < MAX_DMA_TIMERS.
Proof.
  intros Hok Hnone Hget. pose proof Hok as [Hc _].
  destruct (Z_lt_le_dec (dmaMotorTimerCount t) MAX_DMA_TIMERS) as [Hlt|Hge].
  - destruct (getTimerIndex_new t tim Hok Hnone Hlt) as [Hnew _]. cbn zeta in Hnew.
    rewrite Hnew in Hget. injection Hget as <- <-. cbn. auto.
  - unfold getTimerIndex in Hget. rewrite Hnone in Hget.
    destruct (Z.ltb_spec (dmaMotorTimerCount t) MAX_DMA_TIMERS); [lia|].
    rewrite andb_false_r in Hget. discriminate.
Qed.

Lemma getTimerIndex_again t tim i :
  tableOk MAX_DMA_TIMERS t ->
  0 <= i < dmaMotorTimerCount t -> timer (dmaMotorTimers t i) = tim ->
  getTimerIndex MAX_DMA_TIMERS t tim = Some (i, t).
Proof.
  intros Hok Hi Ht. unfold getTimerIndex.
  rewrite (findTimer_present t tim i Hok Hi Ht).
  destruct Hok as [Hc _]. now rewrite uint8_small by lia.
Qed.

Lemma getTimerIndex_spec t tim i t' :
  tableOk MAX_DMA_TIMERS t ->
  getTimerIndex MAX_DMA_TIMERS t tim = Some (i, t') ->
  0 <= i < dmaMotorTimerCount t' /\
  timer (dmaMotorTimers t' i) = tim /\
  tableOk MAX_DMA_TIMERS t' /\
  (forall j, 0 <= j < dmaMotorTimerCount t -> dmaMotorTimers t' j = dmaMotorTimers t j) /\
  (forall j, timerDmaSources (dmaMotorTimers t' j) = timerDmaSources (dmaMotorTimers t j)) /\
  dmaMotorTimerCount t <= dmaMotorTimerCount t' <= dmaMotorTimerCount t + 1.
Proof.
  intros Hok Hget. pose proof Hok as [Hc Hdist].
  destruct (findTimer t tim) as [k|] eqn:E.
  - unfold getTimerIndex in Hget. rewrite E in Hget.
    destruct (findTimer_Some t tim k E) as [Hk Hkt].
    rewrite uint8_small in Hget by lia. injection Hget as <- <-.
    repeat split; auto; try lia.
  - destruct (getTimerIndex_absent t tim i t' Hok E Hget) as (_ & _ & Hlt).
    destruct (getTimerIndex_new t tim Hok E Hlt) as [Hnew Hok'].
    cbn zeta in Hnew, Hok'. rewrite Hnew in Hget. injection Hget as <- <-.
    cbn [setTimerEntry dmaMotorTimerCount dmaMotorTimers].
    split; [lia|]. split; [now rewrite Z.eqb_refl|]. split; [exact Hok'|].
    split; [intros j Hj; destruct (Z.eqb_spec j (dmaMotorTimerCount t)); [lia|reflexivity]|].
    split; [intros j; destruct (Z.eqb_spec j (dmaMotorTimerCount t)) as [->|];
            reflexivity|].
    lia.
Qed.

(** [getTimerIndex] returns the index of an entry that holds the timer,
    keeps the entries that were there, adds at most one, and keeps the table
    free of duplicates; asked again, it returns the same index and changes
    nothing. *)
Theorem getTimerIndex_registers t tim i t' :
  tableOk MAX_DMA_TIMERS t ->
  getTimerIndex MAX_DMA_TIMERS t tim = Some (i, t') ->
  0 <= i < dmaMotorTimerCount t' /\
  timer (dmaMotorTimers t' i) = tim /\
  tableOk MAX_DMA_TIMERS t' /\
  (forall j, 0 <= j < dmaMotorTimerCount t -> dmaMotorTimers t' j = dmaMotorTimers t j) /\
  (forall j, timerDmaSources (dmaMotorTimers t' j) = timerDmaSources (dmaMotorTimers t j)) /\
  dmaMotorTimerCount t <= dmaMotorTimerCount t' <= dmaMotorTimerCount t + 1 /\
  getTimerIndex MAX_DMA_TIMERS t' tim = Some (i, t').
Proof.
  intros Hok Hget.
  destruct (getTimerIndex_spec t tim i t' Hok Hget)
    as (Hi & Ht & Hok' & Hkeep & Hsources & Hcount).
  split; [exact Hi|]. split; [exact Ht|]. split; [exact Hok'|].
  split; [exact Hkeep|]. split; [exact Hsources|]. split; [exact Hcount|].
  now apply getTimerIndex_again.
Qed.

(** [getTimerIndex] faults exactly when the timer is not in the table and
    the table is full. *)
Theorem getTimerIndex_fault t tim :
  tableOk MAX_DMA_TIMERS t ->
  getTimerIndex MAX_DMA_TIMERS t tim = None <->
  dmaMotorTimerCount t = MAX_DMA_TIMERS /\
  forall i, 0 <= i < dmaMotorTimerCount t -> timer (dmaMotorTimers t i) <> tim.
Proof.
  intros Hok. pose proof Hok as [Hc _]. split.
  - intros Hnone. destruct (findTimer t tim) as [k|] eqn:E.
    + unfold getTimerIndex in Hnone. rewrite E in Hnone. discriminate.
    + split; [|exact (findTimer_None t tim E)].
      destruct (Z_lt_le_dec (dmaMotorTimerCount t) MAX_DMA_TIMERS) as [Hlt|Hge]; [|lia].
      destruct (getTimerIndex_new t tim Hok E Hlt) as [Hnew _]. cbn zeta in Hnew.
      congruence.
  - intros [Hfull Habsent]. unfold getTimerIndex.
    destruct (findTimer t tim) as [k|] eqn:E.
    + destruct (findTimer_Some t tim k E) as [Hk Hkt]. now elim (Habsent k Hk).
    + destruct (Z.ltb_spec (dmaMotorTimerCount t) MAX_DMA_TIMERS); [lia|].
      now rewrite andb_false_r.
Qed.

(** Two different timers get two different indices, and registering the
    second leaves the index of the first as it was. *)
Theorem getTimerIndex_distinct t a b i j t1 t2 :
  tableOk MAX_DMA_TIMERS t ->
  getTimerIndex MAX_DMA_TIMERS t a = Some (i, t1) ->
  getTimerIndex MAX_DMA_TIMERS t1 b = Some (j, t2) ->
  a <> b ->
  i <> j /\ getTimerIndex MAX_DMA_TIMERS t2 a = Some (i, t2).
Proof.
  intros Hok Ha Hb Hne.
  destruct (getTimerIndex_spec t a i t1 Hok Ha) as (Hi & Hit & Hok1 & _).
  destruct (getTimerIndex_spec t1 b j t2 Hok1 Hb)
    as (Hj & Hjt & Hok2 & Hkeep & _ & Hcount).
  assert (Hit2 : timer (dmaMotorTimers t2 i) = a) by (rewrite Hkeep; assumption).
  split; [intros ->; congruence|].
  apply getTimerIndex_again; [exact Hok2|lia|exact Hit2].
Qed.

(** The timer of a new entry is configured, again so while channels of the
    same timer follow one another, and not any more once another timer has
    been added after it. *)
Theorem configureTimer_in_sequence t tim r :
  tableOk MAX_DMA_TIMERS t ->
  findTimer t tim = None ->
  getTimerIndex MAX_DMA_TIMERS t tim = Some r ->
  configureTimer r = true /\
  getTimerIndex MAX_DMA_TIMERS (snd r) tim = Some r /\
  (forall other r2 r3,
     findTimer (snd r) other = None ->
     getTimerIndex MAX_DMA_TIMERS (snd r) other = Some r2 ->
     getTimerIndex MAX_DMA_TIMERS (snd r2) tim = Some r3 ->
     configureTimer r3 = false).
Proof.
  intros Hok Hnone Hget. destruct r as [i t1].
  destruct (getTimerIndex_absent t tim i t1 Hok Hnone Hget) as (Hi & Hc1 & _).
  destruct (getTimerIndex_spec t tim i t1 Hok Hget) as (Hir & Hit & Hok1 & _).
  split; [unfold configureTimer; cbn; apply Z.eqb_eq; lia|].
  split; [now apply getTimerIndex_again|].
  intros other [j t2] [k t3] Hnone2 Hget2 Hget3. cbn [snd] in *.
  destruct (getTimerIndex_absent t1 other j t2 Hok1 Hnone2 Hget2) as (Hj & Hc2 & _).
  destruct (getTimerIndex_spec t1 other j t2 Hok1 Hget2)
    as (_ & _ & Hok2 & Hkeep & _).
  assert (Hfind : findTimer t2 tim = Some i).
  { apply findTimer_present; [exact Hok2|lia|]. rewrite Hkeep; assumption. }
  unfold getTimerIndex in Hget3. rewrite Hfind in Hget3.
  destruct Hok2 as [Hb2 _]. rewrite uint8_small in Hget3 by lia.
  injection Hget3 as <- <-. unfold configureTimer. cbn. apply Z.eqb_neq. lia.
Qed.

(** *** The capacity of the table *)

Lemma upto_succ c : 0 <= c -> upto (c + 1) = upto c ++ [c].
Proof.
  intros Hc. unfold upto.
  replace (Z.to_nat (c + 1)) with (S (Z.to_nat c)) by lia.
  rewrite seq_S, map_app. cbn. f_equal. f_equal. lia.
Qed.

Lemma tableTimers_length t :
  0 <= dmaMotorTimerCount t -> Z.of_nat (length (tableTimers t)) = dmaMotorTimerCount t.
Proof.
  intros Hc. unfold tableTimers, upto. rewrite !length_map, length_seq. lia.
Qed.

Lemma tableTimers_NoDup t : tableOk MAX_DMA_TIMERS t -> NoDup (tableTimers t).
Proof.
  intros [_ Hdist]. unfold tableTimers.
  apply Injective_map_NoDup_in; [|apply upto_NoDup].
  intros i j Hi Hj E. apply in_upto in Hi. apply in_upto in Hj. now apply Hdist.
Qed.

Lemma tableTimers_In t tim :
  In tim (tableTimers t) <->
  exists i, 0 <= i < dmaMotorTimerCount t /\ timer (dmaMotorTimers t i) = tim.
Proof.
  unfold tableTimers. rewrite in_map_iff. split.
  - intros (i & E & Hi). exists i. split; [now apply in_upto|exact E].
  - intros (i & Hi & E). exists i. split; [exact E|now apply in_upto].
Qed.

Lemma tableTimers_new t tim sources :
  0 <= dmaMotorTimerCount t ->
  tableTimers (setTimerEntry t (dmaMotorTimerCount t + 1) (dmaMotorTimerCount t)
                 {| timer := tim; timerDmaSources := sources |})
  = tableTimers t ++ [tim].
Proof.
  intros Hc. unfold tableTimers. cbn [setTimerEntry dmaMotorTimerCount dmaMotorTimers].
  rewrite (upto_succ _ Hc), map_app. cbn [map]. rewrite Z.eqb_refl. cbn [timer].
  f_equal. apply map_ext_in. intros i Hi. apply in_upto in Hi.
  destruct (Z.eqb_spec i (dmaMotorTimerCount t)); [lia|reflexivity].
Qed.

Lemma nodup_length_ext (l l' : list Z) :
  (forall x, In x l <-> In x l') ->
  length (nodup Z.eq_dec l) = length (nodup Z.eq_dec l').
Proof.
  intros H. apply Nat.le_antisymm; apply NoDup_incl_length;
    try apply NoDup_nodup; intros x Hx; apply nodup_In; apply nodup_In in Hx; now apply H.
Qed.

Lemma registerAll_fault tims :
  fold_left (fun acc tim => ' t <- acc; ' r <- getTimerIndex MAX_DMA_TIMERS t tim;
                            Some (snd r)) tims None = None.
Proof. induction tims as [|tim tims IH]; [reflexivity|exact IH]. Qed.

Lemma registerAll_spec tims : forall t,
  tableOk MAX_DMA_TIMERS t ->
  match registerAll MAX_DMA_TIMERS tims t with
  | Some t' =>
      tableOk MAX_DMA_TIMERS t' /\
      dmaMotorTimerCount t'
      = Z.of_nat (length (nodup Z.eq_dec (tableTimers t ++ tims))) /\
      (forall tim, In tim (tableTimers t') <-> In tim (tableTimers t ++ tims))
  | None => MAX_DMA_TIMERS < Z.of_nat (length (nodup Z.eq_dec (tableTimers t ++ tims)))
  end.
Proof.
  induction tims as [|tim tims IH]; intros t Hok.
  - cbn [registerAll fold_left]. split; [exact Hok|].
    rewrite app_nil_r, (nodup_fixed_point Z.eq_dec (tableTimers_NoDup t Hok)).
    destruct Hok as [Hc _]. split; [now rewrite tableTimers_length by lia|reflexivity].
  - unfold registerAll. cbn [fold_left bind].
    pose proof Hok as [Hc _].
    destruct (findTimer t tim) as [k|] eqn:E.
    + destruct (findTimer_Some t tim k E) as [Hk Hkt].
      rewrite (getTimerIndex_again t tim k Hok Hk Hkt). cbn [bind snd].
      specialize (IH t Hok). unfold registerAll in IH.
      assert (Hhave : In tim (tableTimers t)) by (apply tableTimers_In; eauto).
      assert (Hset : forall x, In x (tableTimers t ++ tim :: tims)
                               <-> In x (tableTimers t ++ tims)).
      { intros x. rewrite !in_app_iff. cbn [In].
        split; [intros [H|[<-|H]]; auto|intros [H|H]; auto]. }
      rewrite (nodup_length_ext _ _ Hset).
      destruct (fold_left _ tims (Some t)) as [t'|]; [|exact IH].
      destruct IH as (Hok' & Hcount & Hall). split; [exact Hok'|]. split; [exact Hcount|].
      intros x. rewrite Hset. apply Hall.
    + destruct (Z_lt_le_dec (dmaMotorTimerCount t) MAX_DMA_TIMERS) as [Hlt|Hge].
      * destruct (getTimerIndex_new t tim Hok E Hlt) as [Hnew Hok1]. cbn zeta in Hnew, Hok1.
        rewrite Hnew. cbn [bind snd].
        match type of Hok1 with tableOk _ ?t1 => specialize (IH t1 Hok1) end.
        unfold registerAll in IH.
        rewrite tableTimers_new in IH by lia. rewrite <- app_assoc in IH. cbn [app] in IH.
        exact IH.
      * assert (Hnone : getTimerIndex MAX_DMA_TIMERS t tim = None).
        { apply getTimerIndex_fault; [exact Hok|].
          split; [lia|exact (findTimer_None t tim E)]. }
        rewrite Hnone. cbn [bind]. rewrite registerAll_fault.
        assert (Hnd : NoDup (tableTimers t ++ [tim])).
        { apply NoDup_app; [apply tableTimers_NoDup; exact Hok|repeat constructor; intros []|].
          intros x Hx [<-|[]]. apply tableTimers_In in Hx. destruct Hx as (i & Hi & Hx).
          exact (findTimer_None t tim E i Hi Hx). }
        assert (Hincl : incl (tableTimers t ++ [tim])
                          (nodup Z.eq_dec (tableTimers t ++ tim :: tims))).
        { intros x Hx. apply nodup_In. rewrite in_app_iff in *. cbn [In] in *.
          destruct Hx as [Hx|[<-|[]]]; auto. }
        pose proof (NoDup_incl_length Hnd Hincl) as Hle.
        rewrite length_app in Hle. cbn [length] in Hle.
        assert (Hc0 : 0 <= dmaMotorTimerCount t) by lia.
        pose proof (tableTimers_length t Hc0). lia.
Qed.

(** Registering the timers of the motors one after the other writes beyond
    [dmaMotorTimers] exactly when the table and the timers asked for hold
    more than [MAX_DMA_TIMERS] different timers; otherwise the run ends
    with a table free of duplicates that has one entry for each of them and
    for no other timer. *)
Theorem registration_capacity tims t :
  tableOk MAX_DMA_TIMERS t ->
  let distinct := Z.of_nat (length (nodup Z.eq_dec (tableTimers t ++ tims))) in
  (registerAll MAX_DMA_TIMERS tims t = None <-> MAX_DMA_TIMERS < distinct) /\
  (forall t', registerAll MAX_DMA_TIMERS tims t = Some t' ->
     tableOk MAX_DMA_TIMERS t' /\ dmaMotorTimerCount t' = distinct /\
     forall tim, In tim (tableTimers t') <-> In tim (tableTimers t ++ tims)).
Proof.
  intros Hok. cbv zeta. pose proof (registerAll_spec tims t Hok) as Hspec.
  destruct (registerAll MAX_DMA_TIMERS tims t) as [t1|].
  - destruct Hspec as (Hok1 & Hcount & Hall). split.
    + split; [discriminate|]. intros Hmore. destruct Hok1 as [Hc1 _]. lia.
    + intros t' [= <-]. split; [exact Hok1|]. split; [exact Hcount|exact Hall].
  - split; [split; [intros _; exact Hspec|reflexivity]|discriminate].
Qed.


End TimerTable.

Lemma emptyTable_ok : tableOk 8 emptyTable.
Proof. split; cbn; [lia|intros; lia]. Qed.

Lemma getTimerIndex_registers_witness :
  tableOk 8 emptyTable /\
  getTimerIndex 8 emptyTable 1073807360 = Some (0, oneTimer) /\
  timer (dmaMotorTimers oneTimer 0) = 1073807360 /\
  getTimerIndex 8 oneTimer 1073807360 = Some (0, oneTimer).
Proof.
  assert (Hmax : 8 < 256) by lia.
  assert (Hget : getTimerIndex 8 emptyTable 1073807360 = Some (0, oneTimer)) by reflexivity.
  pose proof (getTimerIndex_registers 8 Hmax emptyTable 1073807360 0 oneTimer
                emptyTable_ok Hget) as (_ & Ht & _ & _ & _ & _ & Hagain).
  split; [exact emptyTable_ok|]. split; [exact Hget|]. split; [exact Ht|exact Hagain].
Defined.

Lemma registration_capacity_witness :
  tableOk 8 emptyTable /\
  registerAll 8 nineTimers emptyTable = None /\
  exists t', registerAll 8 (firstn 8 nineTimers ++ firstn 3 nineTimers) emptyTable = Some t' /\
             dmaMotorTimerCount t' = 8.
Proof.
  assert (Hmax : 8 < 256) by lia.
  split; [exact emptyTable_ok|]. split.
  - destruct (registration_capacity 8 Hmax nineTimers emptyTable emptyTable_ok)
      as [Hfault _].
    apply Hfault. vm_compute. reflexivity.
  - destruct (registration_capacity 8 Hmax (firstn 8 nineTimers ++ firstn 3 nineTimers)
                emptyTable emptyTable_ok) as [Hfault Hdone].
    destruct (registerAll 8 (firstn 8 nineTimers ++ firstn 3 nineTimers) emptyTable)
      as [t'|] eqn:E.
    + exists t'. split; [reflexivity|].
      destruct (Hdone t' eq_refl) as (_ & Hcount & _). rewrite Hcount.
      vm_compute. reflexivity.
    + exfalso. assert (H : 8 < 8); [|lia].
      apply Z.lt_le_trans with
        (Z.of_nat (length (nodup Z.eq_dec
                             (tableTimers emptyTable
                              ++ firstn 8 nineTimers ++ firstn 3 nineTimers))));
        [now apply Hfault|vm_compute; discriminate].
Defined.

Lemma getTimerIndex_distinct_witness :
  tableOk 8 emptyTable /\
  getTimerIndex 8 emptyTable 1073807360 = Some (0, oneTimer) /\
  getTimerIndex 8 oneTimer 1073742848 = Some (1, twoTimers) /\
  1073807360 <> 1073742848 /\
  0 <> 1 /\ getTimerIndex 8 twoTimers 1073807360 = Some (0, twoTimers).
Proof.
  assert (Hmax : 8 < 256) by lia.
  assert (Ha : getTimerIndex 8 emptyTable 1073807360 = Some (0, oneTimer)) by reflexivity.
  assert (Hb : getTimerIndex 8 oneTimer 1073742848 = Some (1, twoTimers)) by reflexivity.
  assert (Hne : 1073807360 <> 1073742848) by lia.
  split; [exact emptyTable_ok|]. split; [exact Ha|]. split; [exact Hb|].
  split; [exact Hne|].
  exact (getTimerIndex_distinct 8 Hmax emptyTable _ _ 0 1 oneTimer twoTimers
           emptyTable_ok Ha Hb Hne).
Defined.

Lemma configureTimer_in_sequence_witness :
  tableOk 8 emptyTable /\
  findTimer emptyTable 1073807360 = None /\
  getTimerIndex 8 emptyTable 1073807360 = Some (0, oneTimer) /\
  configureTimer (0, oneTimer) = true /\
  getTimerIndex 8 oneTimer 1073807360 = Some (0, oneTimer).
Proof.
  assert (Hmax : 8 < 256) by lia.
  assert (Hnone : findTimer emptyTable 1073807360 = None) by reflexivity.
  assert (Hget : getTimerIndex 8 emptyTable 1073807360 = Some (0, oneTimer)) by reflexivity.
  split; [exact emptyTable_ok|]. split; [exact Hnone|]. split; [exact Hget|].
  destruct (configureTimer_in_sequence 8 Hmax emptyTable 1073807360 (0, oneTimer)
              emptyTable_ok Hnone Hget) as (Hc & Hagain & _).
  split; [exact Hc|exact Hagain].
Defined.

(** ** The frame start, motor by motor *)

Lemma setIsInput_same m : isInput m = false -> setIsInput m false = m.
Proof. destruct m. cbn. now intros ->. Qed.

Section FrameStart.
Variables modulo base width : Z.
Hypothesis Htiming : proshotTiming modulo base width.

Lemma startMotor_exact d i :
  DSHOT_TELEMETRY_INPUT_LEN <= Z.of_nat (length (dmaBuffer (dmaMotors d i))) ->
  exists d', startMotor modulo base width d i = Some d' /\
    dmaMotors d' i = startedMotor modulo base width (dmaMotors d i) /\
    (forall j, j <> i -> dmaMotors d' j = dmaMotors d j) /\
    Dshot.useDshotTelemetry d' = Dshot.useDshotTelemetry d /\
    inputBuffer d' =
      (if (i =? 0) && invalidCapture modulo base width (dmaMotors d i)
       then firstn (Z.to_nat DSHOT_TELEMETRY_INPUT_LEN) (dmaBuffer (dmaMotors d i))
       else inputBuffer d).
Proof.
  intros Hlen. unfold startMotor, startedMotor, invalidCapture.
  destruct (decodeMotor_ok modulo base width Htiming (dmaMotors d i) Hlen) as (v & Hv & _).
  rewrite Hv. destruct (hasTelemetry (dmaMotors d i)) eqn:Hready; cbn [bind andb].
  - destruct (Z.eqb_spec v INVALID) as [E|E]; cbn [negb];
      eexists; (split; [reflexivity|]); cbn; rewrite ?Z.eqb_refl; cbn;
      (split; [reflexivity|]);
      (split; [intros j Hj; destruct (Z.eqb_spec j i); [contradiction|reflexivity]|]);
      (split; [reflexivity|]).
    + now rewrite andb_true_r.
    + now rewrite andb_false_r.
  - eexists; (split; [reflexivity|]); cbn; rewrite ?Z.eqb_refl; cbn.
    split; [unfold setIsInput; now rewrite Hready|].
    split; [intros j Hj; destruct (Z.eqb_spec j i); [contradiction|reflexivity]|].
    split; [reflexivity|]. now rewrite andb_false_r.
Qed.

Lemma startMotors_exact l :
  NoDup l -> forall d,
  (forall i, In i l ->
     DSHOT_TELEMETRY_INPUT_LEN <= Z.of_nat (length (dmaBuffer (dmaMotors d i)))) ->
  exists d',
    fold_left (fun acc i => ' d1 <- acc; startMotor modulo base width d1 i) l (Some d)
      = Some d' /\
    (forall j, In j l -> dmaMotors d' j = startedMotor modulo base width (dmaMotors d j)) /\
    (forall j, ~ In j l -> dmaMotors d' j = dmaMotors d j) /\
    Dshot.useDshotTelemetry d' = Dshot.useDshotTelemetry d /\
    inputBuffer d' =
      (if existsb (fun i => i =? 0) l && invalidCapture modulo base width (dmaMotors d 0)
       then firstn (Z.to_nat DSHOT_TELEMETRY_INPUT_LEN) (dmaBuffer (dmaMotors d 0))
       else inputBuffer d).
Proof.
  induction 1 as [|i l Hnin Hnd IH]; intros d Hlen.
  - exists d. cbn. repeat split; auto. intros j [].
  - destruct (startMotor_exact d i) as (d1 & Hd1 & Hi & Hother & Huse & Hbuf);
      [apply Hlen; now left|].
    assert (Hsame : forall j, In j l -> dmaMotors d1 j = dmaMotors d j).
    { intros j Hj. apply Hother. intros ->. contradiction. }
    destruct (IH d1) as (d' & Hd' & Hin & Hout & Huse' & Hbuf').
    { intros j Hj. rewrite (Hsame j Hj). apply Hlen. now right. }
    exists d'. cbn [fold_left bind]. rewrite Hd1. split; [exact Hd'|].
    split; [|split; [|split]].
    + intros j [<-|Hj].
      * rewrite (Hout i Hnin). exact Hi.
      * rewrite (Hin j Hj). now rewrite (Hsame j Hj).
    + intros j Hj. rewrite Hout by (intros Hl; apply Hj; now right).
      apply Hother. intros ->. apply Hj. now left.
    + congruence.
    + rewrite Hbuf', Hbuf. cbn [existsb].
      destruct (Z.eqb_spec i 0) as [->|Hne]; cbn [orb andb].
      * assert (Hex : existsb (fun i => i =? 0) l = false).
        { destruct (existsb (fun i => i =? 0) l) eqn:Ex; [|reflexivity].
          apply existsb_exists in Ex. destruct Ex as (x & Hx & Hx0).
          apply Z.eqb_eq in Hx0. subst x. contradiction. }
        rewrite Hex. cbn [andb]. reflexivity.
      * destruct (existsb (fun i => i =? 0) l) eqn:Ex; cbn [andb]; [|reflexivity].
        apply existsb_exists in Ex. destruct Ex as (x & Hx & Hx0).
        apply Z.eqb_eq in Hx0. subst x. now rewrite (Hsame 0 Hx).
Qed.

(** A frame start with telemetry on leaves every motor below [motorCount]
    in output mode and with no capture pending; it stores the value decoded
    from a capture that was ready and passed the checksum, keeps the stored
    value of a motor whose capture was not ready, and changes neither the
    capture buffers, nor the protocol, nor any motor beyond
    [motorCount]. *)
Theorem frame_start_outcome motorCount d :
  Dshot.useDshotTelemetry d = true ->
  capturesSized d motorCount ->
  exists d',
    pwmStartDshotMotorUpdate modulo base width motorCount d = Some d' /\
    (forall j, 0 <= j < motorCount ->
       hasTelemetry (dmaMotors d' j) = false /\
       isInput (dmaMotors d' j) = false /\
       dmaBuffer (dmaMotors d' j) = dmaBuffer (dmaMotors d j) /\
       useProshot (dmaMotors d' j) = useProshot (dmaMotors d j) /\
       (hasTelemetry (dmaMotors d j) = false ->
        getDshotTelemetry d' j = getDshotTelemetry d j) /\
       (forall value, hasTelemetry (dmaMotors d j) = true ->
          decodeMotor modulo base width (dmaMotors d j) = Some value ->
          value <> INVALID -> getDshotTelemetry d' j = value)) /\
    (forall j, ~ 0 <= j < motorCount -> dmaMotors d' j = dmaMotors d j) /\
    Dshot.useDshotTelemetry d' = true.
Proof.
  intros Hon Hsized. unfold pwmStartDshotMotorUpdate. rewrite Hon.
  destruct (startMotors_exact (upto motorCount) (upto_NoDup motorCount) d)
    as (d' & Hd' & Hin & Hout & Huse & _).
  { intros i Hi. apply Hsized. now apply in_upto. }
  exists d'. split; [exact Hd'|]. split; [|split].
  - intros j Hj. unfold getDshotTelemetry.
    rewrite (Hin j (proj2 (in_upto motorCount j) Hj)). unfold startedMotor. cbn.
    split; [reflexivity|]. split; [reflexivity|]. split; [reflexivity|].
    split; [reflexivity|]. split.
    + now intros ->.
    + intros value -> ->. destruct (Z.eqb_spec value INVALID); [contradiction|reflexivity].
  - intros j Hj. apply Hout. rewrite in_upto. exact Hj.
  - congruence.
Qed.

(** The debug copy [inputBuffer] changes only when the capture of motor 0
    fails the checksum, and then holds that capture. *)
Theorem frame_start_debug_copy motorCount d :
  Dshot.useDshotTelemetry d = true ->
  capturesSized d motorCount ->
  exists d',
    pwmStartDshotMotorUpdate modulo base width motorCount d = Some d' /\
    inputBuffer d' =
      (if (0 <? motorCount) && invalidCapture modulo base width (dmaMotors d 0)
       then firstn (Z.to_nat DSHOT_TELEMETRY_INPUT_LEN) (dmaBuffer (dmaMotors d 0))
       else inputBuffer d).
Proof.
  intros Hon Hsized. unfold pwmStartDshotMotorUpdate. rewrite Hon.
  destruct (startMotors_exact (upto motorCount) (upto_NoDup motorCount) d)
    as (d' & Hd' & _ & _ & _ & Hbuf).
  { intros i Hi. apply Hsized. now apply in_upto. }
  exists d'. split; [exact Hd'|]. rewrite Hbuf.
  replace (existsb (fun i => i =? 0) (upto motorCount)) with (0 <? motorCount);
    [reflexivity|].
  destruct (Z.ltb_spec 0 motorCount) as [H|H]; symmetry.
  - apply existsb_exists. exists 0. split; [apply in_upto; lia|reflexivity].
  - destruct (existsb (fun i => i =? 0) (upto motorCount)) eqn:Ex; [|reflexivity].
    apply existsb_exists in Ex. destruct Ex as (x & Hx & _). apply in_upto in Hx. lia.
Qed.

Lemma startMotors_idle l : forall d,
  (forall i, In i l -> hasTelemetry (dmaMotors d i) = false /\
                       isInput (dmaMotors d i) = false) ->
  exists d',
    fold_left (fun acc i => ' d1 <- acc; startMotor modulo base width d1 i) l (Some d)
      = Some d' /\
    (forall j, dmaMotors d' j = dmaMotors d j) /\
    dshotInvalidPacketCount d' = dshotInvalidPacketCount d /\
    inputBuffer d' = inputBuffer d /\
    Dshot.useDshotTelemetry d' = Dshot.useDshotTelemetry d.
Proof.
  induction l as [|i l IH]; intros d Hidle.
  - exists d. cbn. auto.
  - destruct (Hidle i (or_introl eq_refl)) as [Hready Hin].
    cbn [fold_left bind]. unfold startMotor at 2. rewrite Hready. cbn [bind].
    set (d1 := pwmDshotSetDirectionOutput d i true).
    assert (Hsame : forall j, dmaMotors d1 j = dmaMotors d j).
    { intros j. unfold d1, pwmDshotSetDirectionOutput. cbn.
      destruct (Z.eqb_spec j i) as [->|]; [|reflexivity].
      now apply setIsInput_same. }
    destruct (IH d1) as (d' & Hd' & Hm & Hc & Hb & Hu).
    { intros j Hj. rewrite Hsame. apply Hidle. now right. }
    exists d'. split; [exact Hd'|].
    split; [intros j; now rewrite Hm, Hsame|]. auto.
Qed.

(** A second frame start right after the first changes nothing: no value,
    no flag, no counter and no debug copy. *)
Theorem frame_start_idempotent motorCount d d' :
  capturesSized d motorCount ->
  pwmStartDshotMotorUpdate modulo base width motorCount d = Some d' ->
  exists d'',
    pwmStartDshotMotorUpdate modulo base width motorCount d' = Some d'' /\
    (forall j, dmaMotors d'' j = dmaMotors d' j) /\
    dshotInvalidPacketCount d'' = dshotInvalidPacketCount d' /\
    inputBuffer d'' = inputBuffer d' /\
    Dshot.useDshotTelemetry d'' = Dshot.useDshotTelemetry d'.
Proof.
  intros Hsized Hstart.
  destruct (Dshot.useDshotTelemetry d) eqn:Hon.
  - unfold pwmStartDshotMotorUpdate in Hstart. rewrite Hon in Hstart.
    destruct (startMotors_exact (upto motorCount) (upto_NoDup motorCount) d)
      as (d1 & Hd1 & Hin & _ & Huse & _).
    { intros i Hi. apply Hsized. now apply in_upto. }
    rewrite Hd1 in Hstart. injection Hstart as ->.
    destruct (startMotors_idle (upto motorCount) d') as (d'' & Hd'' & Hrest).
    { intros i Hi. rewrite (Hin i Hi). split; reflexivity. }
    exists d''. split; [|exact Hrest].
    unfold pwmStartDshotMotorUpdate. rewrite Huse, Hon. exact Hd''.
  - unfold pwmStartDshotMotorUpdate in Hstart. rewrite Hon in Hstart.
    injection Hstart as <-. exists d. unfold pwmStartDshotMotorUpdate. rewrite Hon. auto.
Qed.

End FrameStart.

(** ** A telemetry frame: command out, capture in, frame start *)

Section Handshake.
Variables modulo base width : Z.
Hypothesis Htiming : proshotTiming modulo base width.

Lemma capture_ready d i edges readDoneCount :
  Dshot.useDshotTelemetry d = true ->
  isInput (dmaMotors d i) = false ->
  let '(s1, _) := motor_DMA_IRQHandler true i (d, readDoneCount) in
  let s2 := (capture (fst s1) i edges, snd s1) in
  let '(s3, flag) := motor_DMA_IRQHandler true i s2 in
  flag = false /\
  snd s3 = uint32 (readDoneCount + 1) /\
  Dshot.useDshotTelemetry (fst s3) = true /\
  dshotInvalidPacketCount (fst s3) = dshotInvalidPacketCount d /\
  (forall j, j <> i -> dmaMotors (fst s3) j = dmaMotors d j) /\
  dmaMotors (fst s3) i =
    {| hasTelemetry := true; useProshot := useProshot (dmaMotors d i);
       isInput := true; dmaBuffer := edges;
       dshotTelemetryValue := dshotTelemetryValue (dmaMotors d i) |}.
Proof.
  intros Hon Hout. unfold motor_DMA_IRQHandler at 1. rewrite Hout, Hon.
  cbn [fst snd]. unfold motor_DMA_IRQHandler, capture, pwmDshotSetDirectionOutput.
  cbn. rewrite !Z.eqb_refl. cbn. rewrite !Z.eqb_refl. cbn.
  split; [reflexivity|]. split; [reflexivity|]. split; [exact Hon|].
  split; [reflexivity|]. split; [|reflexivity].
  intros j Hj. destruct (Z.eqb_spec j i); [contradiction|reflexivity].
Qed.

(** One telemetry frame of a motor that is in output mode: the first
    interrupt turns the line to input, the second marks the capture ready
    and counts it, and the frame start decodes the capture, stores the
    value when it passes the checksum and keeps the old one otherwise; the
    motor ends in output mode with no capture pending. *)
Theorem telemetry_frame_handshake motorCount i edges d readDoneCount :
  Dshot.useDshotTelemetry d = true ->
  capturesSized d motorCount ->
  0 <= i < motorCount ->
  isInput (dmaMotors d i) = false ->
  DSHOT_TELEMETRY_INPUT_LEN <= Z.of_nat (length edges) ->
  exists d' value,
    telemetryFrame modulo base width motorCount i edges (d, readDoneCount)
      = Some (d', uint32 (readDoneCount + 1)) /\
    (if useProshot (dmaMotors d i)
     then decodeProshotPacket modulo base width edges
     else decodeDshotPacket edges) = Some value /\
    getDshotTelemetry d' i =
      (if value =? INVALID then getDshotTelemetry d i else value) /\
    hasTelemetry (dmaMotors d' i) = false /\
    isInput (dmaMotors d' i) = false /\
    dmaBuffer (dmaMotors d' i) = edges.
Proof.
  intros Hon Hsized Hi Hout Hlen.
  pose proof (capture_ready d i edges readDoneCount Hon Hout) as Hready.
  unfold telemetryFrame.
  destruct (motor_DMA_IRQHandler true i (d, readDoneCount)) as [s1 f1].
  cbv zeta in Hready.
  destruct (motor_DMA_IRQHandler true i (capture (fst s1) i edges, snd s1)) as [s3 f3].
  destruct Hready as (_ & Hcount & Hon3 & _ & Hother & Hmotor).
  assert (Hsized3 : forall j, In j (upto motorCount) ->
            DSHOT_TELEMETRY_INPUT_LEN <= Z.of_nat (length (dmaBuffer (dmaMotors (fst s3) j)))).
  { intros j Hj. apply in_upto in Hj. destruct (Z.eq_dec j i) as [->|Hne].
    - rewrite Hmotor. exact Hlen.
    - rewrite (Hother j Hne). now apply Hsized. }
  destruct (startMotors_exact modulo base width Htiming (upto motorCount)
              (upto_NoDup motorCount) (fst s3) Hsized3) as (d' & Hd' & Hin & _).
  destruct (decodeMotor_ok modulo base width Htiming (dmaMotors (fst s3) i))
    as (value & Hvalue & _); [rewrite Hmotor; exact Hlen|].
  exists d', value. unfold pwmStartDshotMotorUpdate. rewrite Hon3, Hd'. cbn [bind].
  rewrite Hcount. split; [reflexivity|].
  unfold getDshotTelemetry. rewrite (Hin i (proj2 (in_upto motorCount i) Hi)).
  unfold startedMotor. rewrite Hvalue. rewrite Hmotor in *. cbn.
  unfold decodeMotor in Hvalue. cbn in Hvalue.
  split; [exact Hvalue|]. repeat split.
Qed.

End Handshake.

Lemma idleDriver_sized : capturesSized idleDriver 2.
Proof. intros i Hi. vm_compute. discriminate. Qed.

Lemma frame_start_outcome_witness :
  proshotTiming 96 24 3 /\
  Dshot.useDshotTelemetry sampleDriver = true /\
  capturesSized sampleDriver 2 /\
  exists d',
    pwmStartDshotMotorUpdate 96 24 3 2 sampleDriver = Some d' /\
    getDshotTelemetry d' 0 = 291 /\
    hasTelemetry (dmaMotors d' 1) = false /\
    isInput (dmaMotors d' 1) = false /\
    dmaMotors d' 2 = dmaMotors sampleDriver 2.
Proof.
  assert (Ht : proshotTiming 96 24 3) by (unfold proshotTiming; lia).
  split; [exact Ht|]. split; [reflexivity|]. split; [exact sampleDriver_sized|].
  destruct (frame_start_outcome 96 24 3 Ht 2 sampleDriver eq_refl sampleDriver_sized)
    as (d' & Hd' & Hin & Hout & _).
  exists d'. split; [exact Hd'|].
  destruct (Hin 0 ltac:(lia)) as (_ & _ & _ & _ & _ & Hvalue).
  destruct (Hin 1 ltac:(lia)) as (Hready & Hinput & _).
  split; [apply Hvalue; [reflexivity|reflexivity|discriminate]|].
  split; [exact Hready|]. split; [exact Hinput|]. apply Hout. lia.
Defined.

Lemma frame_start_debug_copy_witness :
  proshotTiming 96 24 3 /\
  Dshot.useDshotTelemetry sampleDriver = true /\
  capturesSized sampleDriver 2 /\
  exists d',
    pwmStartDshotMotorUpdate 96 24 3 2 sampleDriver = Some d' /\
    inputBuffer d' = inputBuffer sampleDriver.
Proof.
  assert (Ht : proshotTiming 96 24 3) by (unfold proshotTiming; lia).
  split; [exact Ht|]. split; [reflexivity|]. split; [exact sampleDriver_sized|].
  destruct (frame_start_debug_copy 96 24 3 Ht 2 sampleDriver eq_refl sampleDriver_sized)
    as (d' & Hd' & Hbuf).
  exists d'. split; [exact Hd'|]. rewrite Hbuf.
  replace (invalidCapture 96 24 3 (dmaMotors sampleDriver 0)) with false
    by (vm_compute; reflexivity).
  reflexivity.
Defined.

Lemma frame_start_idempotent_witness :
  proshotTiming 96 24 3 /\
  capturesSized sampleDriver 2 /\
  exists d' d'',
    pwmStartDshotMotorUpdate 96 24 3 2 sampleDriver = Some d' /\
    pwmStartDshotMotorUpdate 96 24 3 2 d' = Some d'' /\
    (forall j, dmaMotors d'' j = dmaMotors d' j) /\
    dshotInvalidPacketCount d'' = dshotInvalidPacketCount d'.
Proof.
  assert (Ht : proshotTiming 96 24 3) by (unfold proshotTiming; lia).
  split; [exact Ht|]. split; [exact sampleDriver_sized|].
  destruct (pwmStartDshotMotorUpdate_spec 96 24 3 Ht 2 sampleDriver eq_refl
              sampleDriver_sized) as (d' & Hd' & _).
  destruct (frame_start_idempotent 96 24 3 Ht 2 sampleDriver d' sampleDriver_sized Hd')
    as (d'' & Hd'' & Hm & Hc & _).
  exists d', d''. split; [exact Hd'|]. split; [exact Hd''|]. split; [exact Hm|exact Hc].
Defined.

Lemma telemetry_frame_handshake_witness :
  proshotTiming 96 24 3 /\
  capturesSized idleDriver 2 /\
  DSHOT_TELEMETRY_INPUT_LEN <= Z.of_nat (length (dshotCapture 4656)) /\
  exists d',
    telemetryFrame 96 24 3 2 1 (dshotCapture 4656) (idleDriver, 0) = Some (d', 1) /\
    getDshotTelemetry d' 1 = 291 /\
    hasTelemetry (dmaMotors d' 1) = false /\
    isInput (dmaMotors d' 1) = false.
Proof.
  assert (Ht : proshotTiming 96 24 3) by (unfold proshotTiming; lia).
  assert (Hlen : DSHOT_TELEMETRY_INPUT_LEN <= Z.of_nat (length (dshotCapture 4656)))
    by (vm_compute; discriminate).
  split; [exact Ht|]. split; [exact idleDriver_sized|]. split; [exact Hlen|].
  destruct (telemetry_frame_handshake 96 24 3 Ht 2 1 (dshotCapture 4656) idleDriver 0
              eq_refl idleDriver_sized ltac:(lia) eq_refl Hlen)
    as (d' & value & Hframe & Hvalue & Hstored & Hready & Hinput & _).
  exists d'. split; [exact Hframe|].
  assert (E : value = 291).
  { change (decodeDshotPacket (dshotCapture 4656) = Some value) in Hvalue.
    assert (Hd : decodeDshotPacket (dshotCapture 4656) = Some 291) by reflexivity.
    congruence. }
  subst value. split; [exact Hstored|]. split; [exact Hready|exact Hinput].
Defined.

(** ** Further properties of the decoders *)

Lemma double_step value (bit : bool) :
  0 <= value < 2 ^ 16 ->
  let value' := if bit then Z.lor (uint32 (Z.shiftl value 1)) 1
                else uint32 (Z.shiftl value 1) in
  Z.testbit value' 0 = bit /\ Z.shiftr value' 1 = value.
Proof.
  intros Hv. change (2 ^ 16) with 65536 in Hv.
  assert (Hs : uint32 (Z.shiftl value 1) = 2 * value).
  { rewrite Z.shiftl_mul_pow2 by lia. change (2 ^ 1) with 2.
    rewrite uint32_small by lia. lia. }
  cbv zeta. rewrite Hs. destruct bit.
  - split.
    + rewrite Z.lor_spec, Z.testbit_even_0. reflexivity.
    + rewrite Z.shiftr_lor. change (Z.shiftr 1 1) with 0. rewrite Z.lor_0_r.
      rewrite Z.shiftr_div_pow2 by lia. change (2 ^ 1) with 2.
      rewrite Z.mul_comm. apply Z.div_mul. lia.
  - split; [apply Z.testbit_even_0|].
    rewrite Z.shiftr_div_pow2 by lia. change (2 ^ 1) with 2.
    rewrite Z.mul_comm. apply Z.div_mul. lia.
Qed.

Lemma dshotLoop_bits buffer : forall fuel j value v,
  0 <= j <= 16 -> 0 <= value < 2 ^ j ->
  dshotLoop fuel buffer (2 * j + 1) value = Some v ->
  Z.shiftr v (16 - j) = value /\
  forall k hi lo, j <= k < 16 ->
    read buffer (2 * k + 1) = Some hi -> read buffer (2 * k) = Some lo ->
    Z.testbit v (15 - k) = dshotBit (int32 (hi - lo)).
Proof.
  induction fuel as [|fuel IH]; intros j value v Hj Hv Hloop; [discriminate|].
  cbn [dshotLoop] in Hloop. unfold DSHOT_TELEMETRY_INPUT_LEN in Hloop.
  destruct (Z.ltb_spec (2 * j + 1) 32) as [Hlt|Hge].
  - unfold dshotStep in Hloop.
    destruct (read buffer (2 * j + 1)) as [hi0|] eqn:Ehi; [|discriminate].
    replace (2 * j + 1 - 1) with (2 * j) in Hloop by lia.
    destruct (read buffer (2 * j)) as [lo0|] eqn:Elo; [|discriminate].
    cbn [bind] in Hloop.
    assert (Hv16 : 0 <= value < 2 ^ 16).
    { split; [lia|]. apply Z.lt_le_trans with (2 ^ j); [lia|].
      apply Z.pow_le_mono_r; lia. }
    destruct (double_step value (dshotBit (int32 (hi0 - lo0))) Hv16) as [Hbit Hrest].
    cbv zeta in Hbit, Hrest.
    set (value' := if dshotBit (int32 (hi0 - lo0))
                   then Z.lor (uint32 (Z.shiftl value 1)) 1
                   else uint32 (Z.shiftl value 1)) in *.
    replace (2 * j + 1 + 2) with (2 * (j + 1) + 1) in Hloop by lia.
    assert (Hv' : 0 <= value' < 2 ^ (j + 1)).
    { destruct (shift_in j 1 value 1) as [H0 H1]; try lia.
      unfold value'. destruct (dshotBit (int32 (hi0 - lo0))); assumption. }
    assert (Hj' : 0 <= j + 1 <= 16) by lia.
    destruct (IH (j + 1) value' v Hj' Hv' Hloop) as [Hhigh Hbits].
    replace (16 - (j + 1)) with (15 - j) in Hhigh by lia.
    split.
    + replace (16 - j) with (15 - j + 1) by lia.
      rewrite <- Z.shiftr_shiftr by lia. rewrite Hhigh. exact Hrest.
    + intros k hi lo Hk Hhi Hlo. destruct (Z.eq_dec k j) as [->|Hne].
      * rewrite Ehi in Hhi. rewrite Elo in Hlo.
        injection Hhi as <-. injection Hlo as <-.
        rewrite <- Hbit, <- Hhigh. rewrite Z.shiftr_spec by lia. reflexivity.
      * apply Hbits; [lia|assumption|assumption].
  - assert (j = 16) by lia. subst j. injection Hloop as <-.
    split; [apply Z.shiftr_0_r|]. intros k hi lo Hk. lia.
Qed.

(** The word accumulated by [decodeDshotPacket] holds the bit decided from
    the [k]-th pair of timestamps at position [15 - k]: the first pair is
    the most significant bit, and nothing else enters the word. *)
Theorem dshotWord_bit_layout buffer v :
  dshotWord buffer = Some v ->
  0 <= v < 2 ^ 16 /\
  forall k hi lo, 0 <= k < 16 ->
    read buffer (2 * k + 1) = Some hi -> read buffer (2 * k) = Some lo ->
    Z.testbit v (15 - k) = dshotBit (int32 (hi - lo)).
Proof.
  intros Hword. unfold dshotWord in Hword.
  assert (H0 : 0 <= 0 <= 16) by lia.
  assert (H1 : 0 <= 0 < 2 ^ 0) by (cbn; lia).
  destruct (dshotLoop_bits buffer _ 0 0 v H0 H1 Hword) as [Hhigh Hbits].
  split; [|exact Hbits].
  change (16 - 0) with 16 in Hhigh. rewrite Z.shiftr_div_pow2 in Hhigh by lia.
  change (2 ^ 16) with 65536 in *. Z.div_mod_to_equations. lia.
Qed.

Lemma dshotWord_bit_layout_witness :
  dshotWord (dshotCapture 4656) = Some 4656 /\
  Z.testbit 4656 (15 - 3) = dshotBit (int32 (20 - 0)).
Proof.
  assert (Hword : dshotWord (dshotCapture 4656) = Some 4656) by reflexivity.
  split; [exact Hword|].
  destruct (dshotWord_bit_layout (dshotCapture 4656) 4656 Hword) as [_ Hbits].
  apply (Hbits 3 20 0); [lia|reflexivity|reflexivity].
Defined.

Lemma nibble_step value n :
  0 <= value < 2 ^ 12 ->
  let value' := Z.lor (uint32 (Z.shiftl value 4)) (Z.land n 15) in
  Z.land value' 15 = Z.land n 15 /\ Z.shiftr value' 4 = value.
Proof.
  intros Hv. change (2 ^ 12) with 4096 in Hv.
  assert (Hs : uint32 (Z.shiftl value 4) = Z.shiftl value 4).
  { apply uint32_small. rewrite Z.shiftl_mul_pow2 by lia. change (2 ^ 4) with 16. lia. }
  cbv zeta. rewrite Hs. split.
  - apply Z.bits_inj'. intros i Hi.
    rewrite !Z.land_spec, Z.lor_spec, Z.land_spec.
    destruct (Z.ltb_spec i 4) as [Hlt|Hge].
    + rewrite Z.shiftl_spec_low by lia. cbn [orb].
      now destruct (Z.testbit n i), (Z.testbit 15 i).
    + assert (H15 : Z.testbit 15 i = false).
      { change 15 with (Z.ones 4). apply Z.ones_spec_high. lia. }
      rewrite H15. now rewrite !andb_false_r.
  - apply Z.bits_inj'. intros i Hi.
    rewrite Z.shiftr_spec, Z.lor_spec, Z.land_spec by lia.
    rewrite Z.shiftl_spec by lia.
    assert (H15 : Z.testbit 15 (i + 4) = false).
    { change 15 with (Z.ones 4). apply Z.ones_spec_high. lia. }
    rewrite H15, andb_false_r, orb_false_r. f_equal. lia.
Qed.

Section ProshotLayout.
Variables modulo base width : Z.

Lemma proshotLoop_nibbles buffer : forall fuel j value v,
  0 <= j <= 4 -> 0 <= value < 2 ^ (4 * j) ->
  proshotLoop modulo base width fuel buffer (2 * j + 1) value = Some v ->
  Z.shiftr v (16 - 4 * j) = value /\
  forall k hi lo n, j <= k < 4 ->
    read buffer (2 * k + 1) = Some hi -> read buffer (2 * k) = Some lo ->
    proshotNibble modulo base width hi lo = Some n ->
    nibble (3 - k) v = Z.land n 15.
Proof.
  induction fuel as [|fuel IH]; intros j value v Hj Hv Hloop; [discriminate|].
  cbn [proshotLoop] in Hloop. unfold PROSHOT_TELEMETRY_INPUT_LEN in Hloop.
  destruct (Z.ltb_spec (2 * j + 1) 8) as [Hlt|Hge].
  - unfold proshotStep in Hloop.
    destruct (read buffer (2 * j + 1)) as [hi0|] eqn:Ehi; [|discriminate].
    replace (2 * j + 1 - 1) with (2 * j) in Hloop by lia.
    destruct (read buffer (2 * j)) as [lo0|] eqn:Elo; [|discriminate].
    cbn [bind] in Hloop.
    destruct (proshotNibble modulo base width hi0 lo0) as [n0|] eqn:En; [|discriminate].
    cbn [bind] in Hloop.
    assert (Hv12 : 0 <= value < 2 ^ 12).
    { split; [lia|]. apply Z.lt_le_trans with (2 ^ (4 * j)); [lia|].
      apply Z.pow_le_mono_r; lia. }
    destruct (nibble_step value n0 Hv12) as [Hlow Hrest]. cbv zeta in Hlow, Hrest.
    set (value' := Z.lor (uint32 (Z.shiftl value 4)) (Z.land n0 15)) in *.
    replace (2 * j + 1 + 2) with (2 * (j + 1) + 1) in Hloop by lia.
    assert (Hv' : 0 <= value' < 2 ^ (4 * (j + 1))).
    { replace (4 * (j + 1)) with (4 * j + 4) by lia.
      destruct (shift_in (4 * j) 4 value (Z.land n0 15)) as [_ H1];
        [lia|lia|lia|exact Hv|apply land_15_range|exact H1]. }
    assert (Hj' : 0 <= j + 1 <= 4) by lia.
    destruct (IH (j + 1) value' v Hj' Hv' Hloop) as [Hhigh Hnibbles].
    replace (16 - 4 * (j + 1)) with (12 - 4 * j) in Hhigh by lia.
    split.
    + replace (16 - 4 * j) with (12 - 4 * j + 4) by lia.
      rewrite <- Z.shiftr_shiftr by lia. rewrite Hhigh. exact Hrest.
    + intros k hi lo n Hk Hhi Hlo Hn. destruct (Z.eq_dec k j) as [->|Hne].
      * rewrite Ehi in Hhi. rewrite Elo in Hlo.
        injection Hhi as <-. injection Hlo as <-.
        rewrite En in Hn. injection Hn as <-.
        unfold nibble. replace (4 * (3 - j)) with (12 - 4 * j) by lia.
        rewrite Hhigh. exact Hlow.
      * apply (Hnibbles k hi lo n); [lia|assumption|assumption|assumption].
  - assert (j = 4) by lia. subst j. injection Hloop as <-.
    split; [apply Z.shiftr_0_r|]. intros k hi lo n Hk. lia.
Qed.

(** The word accumulated by [decodeProshotPacket] holds the low four bits
    of the symbol decided from the [k]-th pair of timestamps as nibble
    [3 - k]: the first pair is the most significant nibble. *)
Theorem proshotWord_nibble_layout buffer v :
  proshotWord modulo base width buffer = Some v ->
  0 <= v < 2 ^ 16 /\
  forall k hi lo n, 0 <= k < 4 ->
    read buffer (2 * k + 1) = Some hi -> read buffer (2 * k) = Some lo ->
    proshotNibble modulo base width hi lo = Some n ->
    nibble (3 - k) v = Z.land n 15.
Proof.
  intros Hword. unfold proshotWord in Hword.
  assert (H0 : 0 <= 0 <= 4) by lia.
  assert (H1 : 0 <= 0 < 2 ^ (4 * 0)) by (cbn; lia).
  destruct (proshotLoop_nibbles buffer _ 0 0 v H0 H1 Hword) as [Hhigh Hnibbles].
  split; [|exact Hnibbles].
  change (16 - 4 * 0) with 16 in Hhigh. rewrite Z.shiftr_div_pow2 in Hhigh by lia.
  change (2 ^ 16) with 65536 in *. Z.div_mod_to_equations. lia.
Qed.

(** An edge distance within half a bit width of the nominal length of
    symbol [n] decodes to [n]. *)
Theorem proshotNibble_tolerance hi lo n e :
  proshotTiming modulo base width ->
  0 <= n ->
  uint32 (hi + modulo - lo) mod modulo = base + width * n + e ->
  - Z.quot width 2 <= e < width - Z.quot width 2 ->
  proshotNibble modulo base width hi lo = Some n.
Proof.
  intros (Hm & Hb & Hw & Hsum) Hn Hdist He. unfold proshotNibble.
  change (2 ^ 31) with 2147483648 in *.
  assert (Hum : uint32 modulo = modulo) by (apply uint32_small; lia).
  rewrite Hum. destruct (Z.eqb_spec modulo 0) as [E|_]; [lia|].
  assert (Hx : 0 <= uint32 (hi + modulo - lo) mod modulo < modulo)
    by (apply Z.mod_pos_bound; lia).
  rewrite Hdist in *.
  assert (Hq : 0 <= Z.quot width 2 <= width).
  { rewrite Z.quot_div_nonneg by lia. Z.div_mod_to_equations. lia. }
  replace (base + width * n + e - base) with (width * n + e) by lia.
  assert (Hd : int32 (width * n + e) = width * n + e).
  { unfold int32. change (2 ^ 32) with 4294967296. change (2 ^ 31) with 2147483648.
    destruct (Z.ltb_spec ((width * n + e) mod 4294967296) 2147483648);
      Z.div_mod_to_equations; lia. }
  rewrite Hd.
  destruct (Z.ltb_spec (width * n + e) 0) as [Hneg|Hpos].
  - f_equal. nia.
  - destruct (Z.eqb_spec width 0) as [E|_]; [lia|].
    unfold INT_MAX. change (2 ^ 31 - 1) with 2147483647.
    destruct (Z.gtb_spec (width * n + e + Z.quot width 2) 2147483647) as [Hgt|_]; [lia|].
    f_equal. rewrite Z.quot_div_nonneg by lia.
    symmetry. apply (Z.div_unique_pos _ _ _ (e + Z.quot width 2)); lia.
Qed.

End ProshotLayout.

Lemma proshotWord_nibble_layout_witness :
  proshotWord 96 24 3 (proshotCapture 24 3 4912) = Some 4912 /\
  nibble (3 - 1) 4912 = Z.land 3 15.
Proof.
  assert (Hword : proshotWord 96 24 3 (proshotCapture 24 3 4912) = Some 4912)
    by reflexivity.
  split; [exact Hword|].
  destruct (proshotWord_nibble_layout 96 24 3 _ 4912 Hword) as [_ Hnibbles].
  apply (Hnibbles 1 33 0 3); [lia|reflexivity|reflexivity|reflexivity].
Defined.

Lemma proshotNibble_tolerance_witness :
  proshotTiming 96 24 3 /\
  uint32 (40 + 96 - 0) mod 96 = 24 + 3 * 5 + 1 /\
  proshotNibble 96 24 3 40 0 = Some 5.
Proof.
  assert (Ht : proshotTiming 96 24 3) by (unfold proshotTiming; lia).
  split; [exact Ht|]. split; [reflexivity|].
  apply (proshotNibble_tolerance 96 24 3 40 0 5 1 Ht); [lia|reflexivity|].
  change (Z.quot 3 2) with 1. lia.
Defined.

(** *** The origin of the timestamps *)

Lemma int32_mod a b : a mod 2 ^ 32 = b mod 2 ^ 32 -> int32 a = int32 b.
Proof. unfold int32. now intros ->. Qed.

Lemma read_map f buffer i : read (map f buffer) i = option_map f (read buffer i).
Proof. unfold read. destruct (i <? 0); [reflexivity|apply nth_error_map]. Qed.

Lemma dshotStep_shifted c buffer i value :
  dshotStep (shifted c buffer) i value = dshotStep buffer i value.
Proof.
  unfold dshotStep, shifted. rewrite !read_map.
  destruct (read buffer i) as [hi|]; [|reflexivity].
  destruct (read buffer (i - 1)) as [lo|]; [|reflexivity].
  cbn [option_map bind].
  replace (int32 (uint32 (hi + c) - uint32 (lo + c))) with (int32 (hi - lo));
    [reflexivity|].
  apply int32_mod. unfold uint32. change 4294967296 with (2 ^ 32).
  rewrite Zminus_mod_idemp_l, Zminus_mod_idemp_r. f_equal. lia.
Qed.

Lemma dshotLoop_shifted c buffer : forall fuel i value,
  dshotLoop fuel (shifted c buffer) i value = dshotLoop fuel buffer i value.
Proof.
  induction fuel as [|fuel IH]; intros i value; [reflexivity|].
  cbn [dshotLoop]. rewrite dshotStep_shifted.
  destruct (i <? DSHOT_TELEMETRY_INPUT_LEN); [|reflexivity].
  destruct (dshotStep buffer i value); [cbn [bind]; apply IH|reflexivity].
Qed.

Lemma proshotNibble_shifted c modulo base width hi lo :
  proshotNibble modulo base width (uint32 (hi + c)) (uint32 (lo + c))
  = proshotNibble modulo base width hi lo.
Proof.
  unfold proshotNibble.
  replace (uint32 (uint32 (hi + c) + modulo - uint32 (lo + c)))
    with (uint32 (hi + modulo - lo)); [reflexivity|].
  unfold uint32.
  rewrite Zminus_mod_idemp_r.
  rewrite <- (Zminus_mod_idemp_l ((hi + c) mod 4294967296 + modulo)).
  rewrite Zplus_mod_idemp_l. rewrite Zminus_mod_idemp_l. f_equal. lia.
Qed.

Lemma proshotLoop_shifted c modulo base width buffer : forall fuel i value,
  proshotLoop modulo base width fuel (shifted c buffer) i value
  = proshotLoop modulo base width fuel buffer i value.
Proof.
  induction fuel as [|fuel IH]; intros i value; [reflexivity|].
  cbn [proshotLoop].
  destruct (i <? PROSHOT_TELEMETRY_INPUT_LEN); [|reflexivity].
  assert (Hstep : proshotStep modulo base width (shifted c buffer) i value
                  = proshotStep modulo base width buffer i value).
  { unfold proshotStep, shifted. rewrite !read_map.
    destruct (read buffer i) as [hi|]; [|reflexivity].
    destruct (read buffer (i - 1)) as [lo|]; [|reflexivity].
    cbn [option_map bind]. now rewrite proshotNibble_shifted. }
  rewrite Hstep.
  destruct (proshotStep modulo base width buffer i value); [cbn [bind]; apply IH|reflexivity].
Qed.

(** Both decoders see only distances between timestamps: moving the origin
    of the capture timer by any amount, with the 32-bit wrap-around of the
    timestamps, changes no result. *)
Theorem decoders_ignore_time_origin c modulo base width buffer :
  decodeDshotPacket (shifted c buffer) = decodeDshotPacket buffer /\
  decodeProshotPacket modulo base width (shifted c buffer)
  = decodeProshotPacket modulo base width buffer.
Proof.
  unfold decodeDshotPacket, decodeProshotPacket, dshotWord, proshotWord.
  now rewrite dshotLoop_shifted, proshotLoop_shifted.
Qed.


(** * Further properties of the notch banks *)

Import RpmViews.

(** ** What a call of [rpmFilterUpdate] leaves alone *)

Section DelayLines.
Context {ops : Ops}.

Lemma recompute_settings st k :
  settings (filters (recompute st) k) = settings (filters st k).
Proof.
  destruct (Z.eq_dec k (currentFilter st)) as [->|Hk];
    [|now rewrite recompute_other_bank].
  destruct (recompute_bank st) as (H1 & H2 & H3 & H4 & _). cbv zeta in *.
  unfold settings. now rewrite H1, H2, H3, H4.
Qed.

Lemma recompute_delayLine st k axis m h :
  axis <> 0 ->
  delayLine (notch (filters (recompute st) k) axis m h)
  = delayLine (notch (filters st k) axis m h).
Proof.
  intros Haxis.
  destruct (Z.eq_dec k (currentFilter st)) as [->|Hk];
    [|now rewrite recompute_other_bank].
  destruct (recompute_bank st) as (_ & _ & _ & _ & _ & Hclone & Hother). cbv zeta in *.
  destruct (Z.eq_dec m (motor st)) as [->|Hm];
    [|rewrite Hother; [reflexivity|intros E; injection E; contradiction]].
  destruct (Z.eq_dec h (harmonic st)) as [->|Hh];
    [|rewrite Hother; [reflexivity|intros E; injection E; contradiction]].
  destruct (Z_lt_le_dec axis 1) as [Hlo|Hlo];
    [|destruct (Z_lt_le_dec axis XYZ_AXIS_COUNT) as [Hhi|Hhi]].
  - unfold recompute. change (range 1 XYZ_AXIS_COUNT) with [1; 2].
    cbn. rewrite upd_same. cbn.
    rewrite !upd3_other; [reflexivity| | |]; intros E; injection E; lia.
  - rewrite Hclone by lia. reflexivity.
  - unfold XYZ_AXIS_COUNT in Hhi. unfold recompute.
    change (range 1 XYZ_AXIS_COUNT) with [1; 2].
    cbn. rewrite upd_same. cbn.
    rewrite !upd3_other; [reflexivity| | |]; intros E; injection E; lia.
Qed.

Lemma updateCells_delayLine e n k axis m h : forall st,
  axis <> 0 ->
  delayLine (notch (filters (updateCells n e st) k) axis m h)
  = delayLine (notch (filters st k) axis m h) /\
  settings (filters (updateCells n e st) k) = settings (filters st k).
Proof.
  induction n as [|n IH]; intros st Haxis; [split; reflexivity|].
  cbn [updateCells]. destruct (IH (updateCell e st) Haxis) as [Hd Hs].
  rewrite Hd, Hs. unfold updateCell. rewrite advance_filters.
  split; [now apply recompute_delayLine|apply recompute_settings].
Qed.

(** From a cursor on the table, with a table that fits the arrays, a call
    of [rpmFilterUpdate] writes inside the arrays and rewrites coefficients
    only: on the axes that take copies of the coefficients it leaves the
    delay line of every notch of the arrays as it was, so a running filter
    keeps its history, and it changes no setting of a bank. *)
Theorem update_keeps_delay_lines MAX_SUPPORTED_MOTORS e t st k axis m h :
  scheduled e st -> fits MAX_SUPPORTED_MOTORS (geometryOf e st) ->
  inArray MAX_SUPPORTED_MOTORS (k, m, h) -> 1 <= axis < XYZ_AXIS_COUNT ->
  (forall c, In c (visitedByCall e t st) -> inArray MAX_SUPPORTED_MOTORS c) /\
  delayLine (notch (filters (rpmFilterUpdate e t st) k) axis m h)
  = delayLine (notch (filters st k) axis m h) /\
  settings (filters (rpmFilterUpdate e t st) k) = settings (filters st k).
Proof.
  intros Hs Hfits _ Haxis.
  split; [exact (visitedByCall_inArray _ e t st Hs Hfits)|].
  assert (Hne : axis <> 0) by lia.
  unfold rpmFilterUpdate.
  destruct (smoothErpm_frame e t st) as (Hf & _). cbv zeta in Hf.
  destruct (gyroFilter st), (dtermFilter st);
    try (destruct (updateCells_delayLine e (Z.to_nat (filterUpdatesPerIteration st))
                     k axis m h (smoothErpm e t st) Hne) as [Hd Hset];
         rewrite Hd, Hset, Hf; split; reflexivity).
  split; reflexivity.
Qed.

End DelayLines.

Lemma update_keeps_delay_lines_witness :
  scheduled (sampleEnv true) sampleState /\
  fits 8 (geometryOf (sampleEnv true) sampleState) /\
  inArray 8 (0, 0, 0) /\ 1 <= 2 < XYZ_AXIS_COUNT /\
  delayLine (notch (filters (rpmFilterUpdate (sampleEnv true) (fun _ => 100) sampleState) 0)
               2 0 0)
  = delayLine (notch (filters sampleState 0) 2 0 0).
Proof.
  assert (Hin : inArray 8 (0, 0, 0)) by (unfold inArray, RPM_FILTER_MAXHARMONICS; lia).
  assert (Haxis : 1 <= 2 < XYZ_AXIS_COUNT) by (unfold XYZ_AXIS_COUNT; lia).
  split; [exact sampleState_scheduled|]. split; [exact sampleState_fits|].
  split; [exact Hin|]. split; [exact Haxis|].
  destruct (update_keeps_delay_lines (ops := sampleOps) 8 (sampleEnv true) (fun _ => 100)
              sampleState 0 2 0 0 sampleState_scheduled sampleState_fits Hin Haxis)
    as (_ & Hd & _).
  exact Hd.
Defined.

(** ** The period of the cursor *)

Section Period.
Context {ops : Ops}.



End Period.


(** ** The two banks and the three axes *)


Section Isolation.
Context {ops : Ops}.



End Isolation.


(** ** The update rate chosen by [rpmFilterInit] *)

Lemma rateTable_spec minUpdate micro offset cells lo hi :
  rateTable minUpdate micro offset cells lo hi = true ->
  forall n p, 0 <= n <= cells -> lo <= p < hi ->
  rateCheck n p (rateFrom (div minUpdate (mul (of_int p) micro)) offset n) = true.
Proof.
  unfold rateTable. intros Ht n p Hn Hp.
  pose proof (forallb_range _ lo hi Ht p Hp) as Hrow. cbv beta zeta in Hrow.
  assert (Hn' : 0 <= n < cells + 1) by lia.
  exact (forallb_range _ 0 (cells + 1) Hrow n Hn').
Qed.

Lemma rate_table_checked :
  rateTable MIN_UPDATE_T (literal 1 1000000) (literal 49 100) 48 11 1001 = true.
Proof. vm_compute. reflexivity. Qed.

Lemma rate_table n p : 0 <= n <= 48 -> 11 <= p <= 1000 -> rateOk n p = true.
Proof.
  intros Hn Hp.
  change (rateCheck n p (rateFrom (div MIN_UPDATE_T (mul (of_int p) (literal 1 1000000)))
                           (literal 49 100) n) = true).
  apply (rateTable_spec _ _ _ 48 11 1001 rate_table_checked); lia.
Qed.

Section Rate.
Context {ops : Ops}.

Lemma rpmFilterInit_boot e config pt1 :
  RpmFilter.useDshotTelemetry e = true ->
  0 <= gyro_rpm_notch_harmonics config < 256 ->
  0 <= dterm_rpm_notch_harmonics config < 256 ->
  match updatesPerIteration
          (uint8 (getMotorCount e *
                  (gyro_rpm_notch_harmonics config + dterm_rpm_notch_harmonics config)))
          (of_int (uint32 (targetLooptime e * pid_process_denom e))) with
  | Some u =>
      exists st', rpmFilterInit e config (bootState pt1) = Some st' /\
        numberFilters st'
        = uint8 (getMotorCount e *
                 (gyro_rpm_notch_harmonics config + dterm_rpm_notch_harmonics config)) /\
        filterUpdatesPerIteration st' = u
  | None => rpmFilterInit e config (bootState pt1) = None
  end.
Proof.
  intros Hon Hg Hd. unfold rpmFilterInit, updatesPerIteration. rewrite Hon. cbn [negb].
  destruct (Z.eqb_spec (gyro_rpm_notch_harmonics config) 0) as [Eg|Eg];
    destruct (Z.eqb_spec (dterm_rpm_notch_harmonics config) 0) as [Ed|Ed];
    cbn [negb bootState filters];
    change (uint8 (0 + 1)) with 1;
    rewrite ?upd_same; rewrite ?(upd_other _ 1 0) by lia; rewrite ?upd_same;
    rewrite ?(upd_other _ 0 1) by lia;
    rewrite ?rpmNotchFilterInit_harmonics;
    cbn [zeroBank harmonics];
    rewrite ?(uint8_small (gyro_rpm_notch_harmonics config)) by lia;
    rewrite ?(uint8_small (dterm_rpm_notch_harmonics config)) by lia;
    rewrite ?Eg, ?Ed, ?Z.add_0_r, ?Z.add_0_l;
    match goal with
    | |- match ?m with _ => _ end => destruct m as [u|]; cbn [bind]
    end;
    try reflexivity;
    eexists; (split; [reflexivity|]); split; reflexivity.
Qed.

(** From the state in which the program starts, with up to eight motors,
    up to three harmonics a bank and a PID loop time between 11 and 1000
    microseconds, [rpmFilterInit] returns, counts the notches of both banks,
    and picks a rate that recomputes at least one and at most all of them
    in a loop iteration and gets through the whole table in about a
    millisecond. *)
Theorem init_rate_covers_table e config pt1 :
  RpmFilter.useDshotTelemetry e = true ->
  1 <= getMotorCount e <= 8 ->
  0 <= gyro_rpm_notch_harmonics config <= RPM_FILTER_MAXHARMONICS ->
  0 <= dterm_rpm_notch_harmonics config <= RPM_FILTER_MAXHARMONICS ->
  11 <= targetLooptime e * pid_process_denom e <= 1000 ->
  exists st',
    rpmFilterInit e config (bootState pt1) = Some st' /\
    numberFilters st'
    = getMotorCount e * (gyro_rpm_notch_harmonics config + dterm_rpm_notch_harmonics config) /\
    (numberFilters st' = 0 -> filterUpdatesPerIteration st' = 0) /\
    (0 < numberFilters st' -> 1 <= filterUpdatesPerIteration st' <= numberFilters st') /\
    numberFilters st' * (targetLooptime e * pid_process_denom e)
    <= 1000 * filterUpdatesPerIteration st' + 10.
Proof.
  unfold RPM_FILTER_MAXHARMONICS. intros Hon Hmc Hg Hd Hp.
  set (n := getMotorCount e *
            (gyro_rpm_notch_harmonics config + dterm_rpm_notch_harmonics config)).
  set (p := targetLooptime e * pid_process_denom e) in *.
  assert (Hn : 0 <= n <= 48) by (unfold n; nia).
  pose proof (rpmFilterInit_boot e config pt1 Hon ltac:(lia) ltac:(lia)) as Hinit.
  fold n p in Hinit.
  rewrite (uint8_small n) in Hinit by lia. rewrite (uint32_small p) in Hinit by lia.
  pose proof (rate_table n p Hn Hp) as Hrate. unfold rateOk, rateCheck in Hrate.
  destruct (updatesPerIteration n (of_int p)) as [u|]; [|discriminate].
  destruct Hinit as (st' & Hst' & Hnum & Hu). exists st'.
  split; [exact Hst'|]. rewrite Hnum, Hu. split; [reflexivity|].
  apply andb_true_iff in Hrate. destruct Hrate as [Hbounds Hcover].
  apply Z.leb_le in Hcover.
  destruct (Z.eqb_spec n 0) as [E|E].
  - apply Z.eqb_eq in Hbounds. split; [auto|]. split; [lia|exact Hcover].
  - apply andb_true_iff in Hbounds. destruct Hbounds as [H1 H2].
    apply Z.leb_le in H1. apply Z.leb_le in H2.
    split; [intros; contradiction|]. split; [lia|exact Hcover].
Qed.

End Rate.

Lemma init_rate_covers_table_witness :
  RpmFilter.useDshotTelemetry (sampleEnv true) = true /\
  exists st',
    rpmFilterInit (sampleEnv true) pgResetFn_rpmFilterConfig sampleBoot = Some st' /\
    numberFilters st' = 16 /\
    1 <= filterUpdatesPerIteration st' <= 16 /\
    16 * 125 <= 1000 * filterUpdatesPerIteration st' + 10.
Proof.
  split; [reflexivity|].
  destruct (init_rate_covers_table (ops := sampleOps) (sampleEnv true)
              pgResetFn_rpmFilterConfig samplePt1 eq_refl)
    as (st' & Hst' & Hnum & _ & Hpos & Hcover);
    [cbn; lia|cbn; unfold RPM_FILTER_MAXHARMONICS; lia
    |cbn; unfold RPM_FILTER_MAXHARMONICS; lia|cbn; lia|].
  exists st'. split; [exact Hst'|].
  change (getMotorCount (sampleEnv true) *
          (gyro_rpm_notch_harmonics pgResetFn_rpmFilterConfig +
           dterm_rpm_notch_harmonics pgResetFn_rpmFilterConfig)) with 16 in Hnum.
  change (targetLooptime (sampleEnv true) * pid_process_denom (sampleEnv true))
    with 125 in Hcover.
  rewrite Hnum in *. split; [reflexivity|]. split; [apply Hpos; lia|exact Hcover].
Defined.

(** * Further properties of the output path *)

Lemma uint16_testbit x b : 0 <= b < 16 -> Z.testbit (uint16 x) b = Z.testbit x b.
Proof.
  intros Hb. unfold uint16. change 65536 with (2 ^ 16).
  apply Z.mod_pow2_bits_low. lia.
Qed.

Lemma nth_error_upto n i : 0 <= i < n -> nth_error (upto n) (Z.to_nat i) = Some i.
Proof.
  intros Hi. unfold upto. rewrite nth_error_map.
  rewrite (nth_error_nth' _ 0%nat) by (rewrite length_seq; lia).
  rewrite seq_nth by lia. cbn. f_equal. lia.
Qed.

Section Flush.

Lemma flush_spec l : NoDup l -> forall t enabled,
  let r := fold_left (fun '(t, enabled) i =>
                        (setSources t i 0,
                         enabled ++ [(timer (dmaMotorTimers t i),
                                      timerDmaSources (dmaMotorTimers t i))]))
             l (t, enabled) in
  dmaMotorTimerCount (fst r) = dmaMotorTimerCount t /\
  (forall i, In i l ->
     dmaMotorTimers (fst r) i
     = {| timer := timer (dmaMotorTimers t i); timerDmaSources := 0 |}) /\
  (forall i, ~ In i l -> dmaMotorTimers (fst r) i = dmaMotorTimers t i) /\
  snd r = enabled ++ map (fun i => (timer (dmaMotorTimers t i),
                                    timerDmaSources (dmaMotorTimers t i))) l.
Proof.
  induction 1 as [|k l Hnin Hnd IH]; intros t enabled.
  - cbn. repeat split; auto. intros i []. now rewrite app_nil_r.
  - cbn [fold_left].
    destruct (IH (setSources t k 0)
                (enabled ++ [(timer (dmaMotorTimers t k),
                              timerDmaSources (dmaMotorTimers t k))]))
      as (Hc & Hin & Hout & Hen).
    cbv zeta. split; [exact Hc|]. split; [|split].
    + intros i [<-|Hi].
      * rewrite (Hout k Hnin). cbn. now rewrite Z.eqb_refl.
      * rewrite (Hin i Hi). cbn. destruct (Z.eqb_spec i k); [subst; contradiction|].
        reflexivity.
    + intros i Hi. rewrite Hout by (intros H; apply Hi; now right).
      cbn. destruct (Z.eqb_spec i k) as [->|]; [elim Hi; now left|reflexivity].
    + rewrite Hen. rewrite <- app_assoc. cbn [app map]. f_equal. f_equal.
      apply map_ext_in. intros i Hi. cbn.
      destruct (Z.eqb_spec i k); [subst; contradiction|reflexivity].
Qed.

(** Unless a queued command holds the output back, in which case nothing
    happens, [pwmCompleteDshotMotorUpdate] enables for every timer of the
    table the DMA sources gathered for it, in the order of the table, and
    leaves every timer with no source gathered; it touches no timer beyond
    the count and no motor. *)
Theorem complete_flushes_sources commandIsQueued commandOutputIsEnabled s :
  let r := pwmCompleteDshotMotorUpdate commandIsQueued commandOutputIsEnabled s in
  let t := outputTimers s in
  (commandIsQueued && negb commandOutputIsEnabled = true -> r = (s, [])) /\
  (commandIsQueued && negb commandOutputIsEnabled = false ->
   outputMotors (fst r) = outputMotors s /\
   dmaMotorTimerCount (outputTimers (fst r)) = dmaMotorTimerCount t /\
   (forall i, 0 <= i < dmaMotorTimerCount t ->
      dmaMotorTimers (outputTimers (fst r)) i
      = {| timer := timer (dmaMotorTimers t i); timerDmaSources := 0 |}) /\
   (forall i, ~ 0 <= i < dmaMotorTimerCount t ->
      dmaMotorTimers (outputTimers (fst r)) i = dmaMotorTimers t i) /\
   snd r = map (fun i => (timer (dmaMotorTimers t i), timerDmaSources (dmaMotorTimers t i)))
               (upto (dmaMotorTimerCount t))).
Proof.
  cbv zeta. unfold pwmCompleteDshotMotorUpdate.
  split; [now intros ->|]. intros ->.
  pose proof (flush_spec (upto (dmaMotorTimerCount (outputTimers s)))
                (upto_NoDup _) (outputTimers s) []) as H.
  cbv zeta in H.
  destruct (fold_left _ _ (outputTimers s, [])) as [t' enabled].
  cbn [fst snd outputMotors outputTimers] in *.
  destruct H as (Hc & Hin & Hout & Hen).
  split; [reflexivity|]. split; [exact Hc|]. split; [|split].
  - intros i Hi. apply Hin. now apply in_upto.
  - intros i Hi. apply Hout. now rewrite in_upto.
  - exact Hen.
Qed.

End Flush.

Lemma complete_flushes_sources_witness :
  true && negb true = false /\
  snd (pwmCompleteDshotMotorUpdate true true sampleOutput)
  = [(1073807360, 0); (1073742848, 0)].
Proof.
  assert (H : true && negb true = false) by reflexivity.
  split; [exact H|].
  destruct (complete_flushes_sources true true sampleOutput) as [_ Hflush].
  destruct (Hflush H) as (_ & _ & _ & _ & Hen).
  rewrite Hen. reflexivity.
Defined.

Section Frame.
Variable pwmGetDshotCommand : Z -> Z.
Variable prepareDshotPacket : outputMotor_t -> Z * outputMotor_t.
Hypothesis Hprepare : forall m, wiring (snd (prepareDshotPacket m)) = wiring m.

Lemma pwmWriteDshotInt_spec processing index v s :
  let s' := pwmWriteDshotInt pwmGetDshotCommand prepareDshotPacket processing index v s in
  let m := outputMotors s index in
  let t := outputTimers s in
  (forall j, wiring (outputMotors s' j) = wiring (outputMotors s j)) /\
  dmaMotorTimerCount (outputTimers s') = dmaMotorTimerCount t /\
  (forall i, timer (dmaMotorTimers (outputTimers s') i) = timer (dmaMotorTimers t i)) /\
  (forall i, timerDmaSources (dmaMotorTimers (outputTimers s') i)
             = if configured m && (motorTimer m =? i)
               then uint16 (Z.lor (timerDmaSources (dmaMotorTimers t i)) (timerDmaSource m))
               else timerDmaSources (dmaMotorTimers t i)).
Proof.
  cbv zeta. unfold pwmWriteDshotInt.
  destruct (configured (outputMotors s index)) eqn:Hconf; cbn [negb andb];
    [|repeat split; reflexivity].
  set (m1 := setValue
               (snd (if processing
                     then (uint16 (pwmGetDshotCommand index),
                           if negb (uint16 (pwmGetDshotCommand index) =? 0)
                           then setRequestTelemetry (outputMotors s index) true
                           else outputMotors s index)
                     else (v, outputMotors s index)))
               (fst (if processing
                     then (uint16 (pwmGetDshotCommand index),
                           if negb (uint16 (pwmGetDshotCommand index) =? 0)
                           then setRequestTelemetry (outputMotors s index) true
                           else outputMotors s index)
                     else (v, outputMotors s index)))).
  assert (Hm1 : wiring m1 = wiring (outputMotors s index)).
  { unfold m1. destruct processing; cbn [fst snd]; [|reflexivity].
    destruct (negb (uint16 (pwmGetDshotCommand index) =? 0)); reflexivity. }
  assert (Hw : wiring (snd (prepareDshotPacket m1)) = wiring (outputMotors s index))
    by (rewrite Hprepare; exact Hm1).
  assert (Hgoal : forall r : output,
            r = (let '(packet, motor) := prepareDshotPacket m1 in
                 {| outputMotors := fun j => if j =? index then motor else outputMotors s j;
                    outputTimers :=
                      setSources (outputTimers s) (motorTimer motor)
                        (uint16 (Z.lor (timerDmaSources
                                          (dmaMotorTimers (outputTimers s) (motorTimer motor)))
                                       (timerDmaSource motor))) |}) ->
            (forall j, wiring (outputMotors r j) = wiring (outputMotors s j)) /\
            dmaMotorTimerCount (outputTimers r) = dmaMotorTimerCount (outputTimers s) /\
            (forall i, timer (dmaMotorTimers (outputTimers r) i)
                       = timer (dmaMotorTimers (outputTimers s) i)) /\
            (forall i, timerDmaSources (dmaMotorTimers (outputTimers r) i)
                       = if motorTimer (outputMotors s index) =? i
                         then uint16 (Z.lor (timerDmaSources (dmaMotorTimers (outputTimers s) i))
                                            (timerDmaSource (outputMotors s index)))
                         else timerDmaSources (dmaMotorTimers (outputTimers s) i))).
  { intros r ->. destruct (prepareDshotPacket m1) as [packet m2]. cbn [snd] in Hw.
    unfold wiring in Hw. injection Hw as Hc Ht Hs.
    cbn [outputMotors outputTimers setSources dmaMotorTimerCount dmaMotorTimers].
    rewrite Ht, Hs. split; [|split; [reflexivity|split]].
    - intros j. destruct (Z.eqb_spec j index) as [->|]; [|reflexivity].
      unfold wiring. now rewrite Hc, Ht, Hs.
    - intros i. destruct (Z.eqb_spec i (motorTimer (outputMotors s index))) as [->|];
        reflexivity.
    - intros i. rewrite (Z.eqb_sym (motorTimer (outputMotors s index)) i).
      destruct (Z.eqb_spec i (motorTimer (outputMotors s index))) as [->|];
        reflexivity. }
  apply Hgoal. unfold m1. destruct processing; reflexivity.
Qed.

Lemma requested_wiring s s' ws i b :
  (forall j, wiring (outputMotors s' j) = wiring (outputMotors s j)) ->
  requested s' ws i b = requested s ws i b.
Proof.
  intros Hw. unfold requested. induction ws as [|w ws IH]; [reflexivity|].
  cbn [existsb]. rewrite IH. f_equal.
  pose proof (Hw (snd (fst w))) as E. unfold wiring in E. injection E as -> -> ->.
  reflexivity.
Qed.

Lemma writes_spec ws : forall s,
  let s' := writes pwmGetDshotCommand prepareDshotPacket ws s in
  (forall j, wiring (outputMotors s' j) = wiring (outputMotors s j)) /\
  dmaMotorTimerCount (outputTimers s') = dmaMotorTimerCount (outputTimers s) /\
  (forall i, timer (dmaMotorTimers (outputTimers s') i)
             = timer (dmaMotorTimers (outputTimers s) i)) /\
  (forall i b, 0 <= b < 16 ->
     Z.testbit (timerDmaSources (dmaMotorTimers (outputTimers s') i)) b
     = Z.testbit (timerDmaSources (dmaMotorTimers (outputTimers s) i)) b
       || requested s ws i b).
Proof.
  induction ws as [|[[processing index] v] ws IH]; intros s; cbv zeta.
  - cbn. repeat split; auto. intros i b _. now rewrite orb_false_r.
  - unfold writes. cbn [fold_left].
    destruct (pwmWriteDshotInt_spec processing index v s) as (Hw1 & Hc1 & Ht1 & Hs1).
    cbv zeta in Hw1, Hc1, Ht1, Hs1.
    destruct (IH (pwmWriteDshotInt pwmGetDshotCommand prepareDshotPacket
                    processing index v s)) as (Hw & Hc & Ht & Hs).
    cbv zeta in Hw, Hc, Ht, Hs. unfold writes in Hw, Hc, Ht, Hs.
    split; [intros j; now rewrite Hw, Hw1|]. split; [now rewrite Hc, Hc1|].
    split; [intros i; now rewrite Ht, Ht1|].
    intros i b Hb. rewrite (Hs i b Hb), (requested_wiring _ _ _ _ _ Hw1), Hs1.
    unfold requested at 2. cbn [existsb fst snd]. fold (requested s ws i b).
    destruct (configured (outputMotors s index) && (motorTimer (outputMotors s index) =? i));
      cbn [andb orb].
    + rewrite uint16_testbit by exact Hb. rewrite Z.lor_spec. now rewrite orb_assoc.
    + reflexivity.
Qed.

(** A frame of the output path: from a table with no source gathered, a
    sequence of [pwmWriteDshotInt] calls followed by
    [pwmCompleteDshotMotorUpdate] enables for each timer exactly the DMA
    sources of the configured motors of that timer that were written, and
    leaves the table with no source gathered again. *)
Theorem written_sources_enabled ws s i :
  (forall j, 0 <= j < dmaMotorTimerCount (outputTimers s) ->
             timerDmaSources (dmaMotorTimers (outputTimers s) j) = 0) ->
  0 <= i < dmaMotorTimerCount (outputTimers s) ->
  let r := pwmCompleteDshotMotorUpdate false false
             (writes pwmGetDshotCommand prepareDshotPacket ws s) in
  (forall j, 0 <= j < dmaMotorTimerCount (outputTimers s) ->
             timerDmaSources (dmaMotorTimers (outputTimers (fst r)) j) = 0) /\
  exists sources,
    nth_error (snd r) (Z.to_nat i) = Some (timer (dmaMotorTimers (outputTimers s) i), sources) /\
    forall b, 0 <= b < 16 -> Z.testbit sources b = requested s ws i b.
Proof.
  intros Hclear Hi. cbv zeta.
  destruct (writes_spec ws s) as (_ & Hc & Ht & Hs). cbv zeta in Hc, Ht, Hs.
  set (s1 := writes pwmGetDshotCommand prepareDshotPacket ws s) in *.
  unfold pwmCompleteDshotMotorUpdate. cbn [andb negb].
  pose proof (flush_spec (upto (dmaMotorTimerCount (outputTimers s1)))
                (upto_NoDup _) (outputTimers s1) []) as H.
  cbv zeta in H.
  destruct (fold_left _ _ (outputTimers s1, [])) as [t' enabled].
  cbn [fst snd outputMotors outputTimers] in *.
  destruct H as (_ & Hin & _ & Hen). split.
  - intros j Hj. rewrite Hin by (apply in_upto; rewrite Hc; exact Hj). reflexivity.
  - exists (timerDmaSources (dmaMotorTimers (outputTimers s1) i)). split.
    + rewrite Hen. cbn [app]. rewrite nth_error_map, Hc, (nth_error_upto _ i Hi).
      cbn. now rewrite Ht.
    + intros b Hb. rewrite (Hs i b Hb), (Hclear i Hi), Z.bits_0. reflexivity.
Qed.

End Frame.

Lemma samplePrepare_wiring m : wiring (snd (samplePrepare m)) = wiring m.
Proof. reflexivity. Qed.

Lemma written_sources_enabled_witness :
  (forall j, 0 <= j < dmaMotorTimerCount (outputTimers sampleOutput) ->
             timerDmaSources (dmaMotorTimers (outputTimers sampleOutput) j) = 0) /\
  0 <= 0 < dmaMotorTimerCount (outputTimers sampleOutput) /\
  exists sources,
    nth_error
      (snd (pwmCompleteDshotMotorUpdate false false
              (writes (fun _ => 0) samplePrepare
                 [(false, 0, 1000); (false, 1, 1000); (false, 3, 1000)] sampleOutput)))
      (Z.to_nat 0)
    = Some (1073807360, sources) /\
    Z.testbit sources 9 = true /\ Z.testbit sources 10 = true.
Proof.
  assert (Hclear : forall j, 0 <= j < dmaMotorTimerCount (outputTimers sampleOutput) ->
             timerDmaSources (dmaMotorTimers (outputTimers sampleOutput) j) = 0).
  { intros j Hj. cbn in Hj. assert (Hc : j = 0 \/ j = 1) by lia.
    destruct Hc as [ -> | -> ]; reflexivity. }
  assert (Hi : 0 <= 0 < dmaMotorTimerCount (outputTimers sampleOutput)) by (cbn; lia).
  split; [exact Hclear|]. split; [exact Hi|].
  destruct (written_sources_enabled (fun _ => 0) samplePrepare samplePrepare_wiring
              [(false, 0, 1000); (false, 1, 1000); (false, 3, 1000)] sampleOutput 0
              Hclear Hi) as (_ & sources & Hnth & Hbits).
  exists sources. split; [exact Hnth|].
  split; [rewrite Hbits by lia; reflexivity|rewrite Hbits by lia; reflexivity].
Defined.

(** * Further properties of the bank set-up *)

Section InitCells.
Context {ops : Ops}.
Variables (min : Z) (looptime : float).

Let initCell (f : rpmNotchFilter_t) (a m j : Z) : biquadFilter_t :=
  biquadFilterInit (notch f a m j) (initFrequency min j) looptime (q f) FILTER_NOTCH.

Lemma initRow_spec axis mo l : NoDup l -> forall f,
  let f' := fold_left (fun f i =>
              setNotch f (upd3 (notch f) axis mo i
                (biquadFilterInit (notch f axis mo i) (initFrequency min i)
                   looptime (q f) FILTER_NOTCH))) l f in
  settings f' = settings f /\
  (forall j, In j l -> notch f' axis mo j = initCell f axis mo j) /\
  (forall a m j, ~ (a = axis /\ m = mo /\ In j l) -> notch f' a m j = notch f a m j).
Proof.
  induction 1 as [|i l Hnin Hnd IH]; intros f; cbv zeta.
  - cbn. split; [reflexivity|]. split; [intros j []|reflexivity].
  - cbn [fold_left].
    set (f1 := setNotch f (upd3 (notch f) axis mo i
                 (biquadFilterInit (notch f axis mo i) (initFrequency min i)
                    looptime (q f) FILTER_NOTCH))).
    destruct (IH f1) as (Hs & Hin & Hout). cbv zeta in Hs, Hin, Hout.
    split; [rewrite Hs; reflexivity|]. split.
    + intros j [<-|Hj].
      * rewrite Hout by (intros (_ & _ & H); contradiction).
        unfold f1. cbn [notch setNotch]. apply upd3_same.
      * rewrite (Hin j Hj). unfold initCell, f1. cbn [notch setNotch q].
        rewrite upd3_other; [reflexivity|].
        intros E. injection E as ->. contradiction.
    + intros a m j Hne. rewrite Hout by (intros (Ha & Hm & Hj); apply Hne; auto with datatypes).
      unfold f1. cbn [notch setNotch]. apply upd3_other.
      intros E. injection E as -> -> ->. apply Hne. auto with datatypes.
Qed.

Lemma initPlane_spec axis lh lm : NoDup lh -> NoDup lm -> forall f,
  let f' := fold_left (fun f mo =>
              fold_left (fun f i =>
                setNotch f (upd3 (notch f) axis mo i
                  (biquadFilterInit (notch f axis mo i) (initFrequency min i)
                     looptime (q f) FILTER_NOTCH))) lh f) lm f in
  settings f' = settings f /\
  (forall m j, In m lm -> In j lh -> notch f' axis m j = initCell f axis m j) /\
  (forall a m j, ~ (a = axis /\ In m lm /\ In j lh) -> notch f' a m j = notch f a m j).
Proof.
  intros Hh. induction 1 as [|mo lm Hnin Hnd IH]; intros f; cbv zeta.
  - cbn. split; [reflexivity|]. split; [intros m j []|reflexivity].
  - cbn [fold_left].
    destruct (initRow_spec axis mo lh Hh f) as (Hs1 & Hin1 & Hout1).
    cbv zeta in Hs1, Hin1, Hout1.
    set (f1 := fold_left _ lh f) in *.
    destruct (IH f1) as (Hs & Hin & Hout). cbv zeta in Hs, Hin, Hout.
    assert (Hq : q f1 = q f) by (unfold settings in Hs1; congruence).
    split; [rewrite Hs; exact Hs1|]. split.
    + intros m j [<-|Hm] Hj.
      * rewrite Hout by (intros (_ & H & _); contradiction). now apply Hin1.
      * rewrite (Hin m j Hm Hj). unfold initCell. rewrite Hq.
        rewrite Hout1; [reflexivity|].
        intros (_ & -> & _). contradiction.
    + intros a m j Hne.
      rewrite Hout by (intros (Ha & Hm & Hj); apply Hne; auto with datatypes).
      apply Hout1. intros (Ha & Hm & Hj). apply Hne. subst. auto with datatypes.
Qed.

Lemma initBox_spec lh lm la : NoDup lh -> NoDup lm -> NoDup la -> forall f,
  let f' := fold_left (fun f axis =>
              fold_left (fun f mo =>
                fold_left (fun f i =>
                  setNotch f (upd3 (notch f) axis mo i
                    (biquadFilterInit (notch f axis mo i) (initFrequency min i)
                       looptime (q f) FILTER_NOTCH))) lh f) lm f) la f in
  settings f' = settings f /\
  (forall a m j, In a la -> In m lm -> In j lh -> notch f' a m j = initCell f a m j) /\
  (forall a m j, ~ (In a la /\ In m lm /\ In j lh) -> notch f' a m j = notch f a m j).
Proof.
  intros Hh Hm. induction 1 as [|axis la Hnin Hnd IH]; intros f; cbv zeta.
  - cbn. split; [reflexivity|]. split; [intros a m j []|reflexivity].
  - cbn [fold_left].
    destruct (initPlane_spec axis lh lm Hh Hm f) as (Hs1 & Hin1 & Hout1).
    cbv zeta in Hs1, Hin1, Hout1.
    set (f1 := fold_left _ lm f) in *.
    destruct (IH f1) as (Hs & Hin & Hout). cbv zeta in Hs, Hin, Hout.
    assert (Hq : q f1 = q f) by (unfold settings in Hs1; congruence).
    split; [rewrite Hs; exact Hs1|]. split.
    + intros a m j [<-|Ha] Hmo Hj.
      * rewrite Hout by (intros (H & _ & _); contradiction). now apply Hin1.
      * rewrite (Hin a m j Ha Hmo Hj). unfold initCell. rewrite Hq.
        rewrite Hout1; [reflexivity|].
        intros (-> & _ & _). contradiction.
    + intros a m j Hne.
      rewrite Hout by (intros (Ha & Hmo & Hj); apply Hne; auto with datatypes).
      apply Hout1. intros (Ha & Hmo & Hj). apply Hne. subst. auto with datatypes.
Qed.

End InitCells.

(** For a harmonics count within [RPM_FILTER_MAXHARMONICS] and a motor
    count within the array, [rpmNotchFilterInit] stores the settings, the
    minimum narrowed to its field, and passes every notch of the three
    axes, the motors of the craft and the harmonics asked for through
    [biquadFilterInit] exactly once, with the quality factor divided by a
    hundred; these notches are inside the array, and it touches no other
    notch of the array. *)
Theorem rpmNotchFilterInit_exact {ops : Ops} MAX_SUPPORTED_MOTORS
    e f hcount min qcfg looptime a m j :
  0 <= hcount <= RPM_FILTER_MAXHARMONICS ->
  getMotorCount e <= MAX_SUPPORTED_MOTORS ->
  0 <= a < XYZ_AXIS_COUNT /\ 0 <= m < MAX_SUPPORTED_MOTORS /\
  0 <= j < RPM_FILTER_MAXHARMONICS ->
  let f' := rpmNotchFilterInit e f hcount min qcfg looptime in
  settings f' = (hcount, uint8 min, div (of_int qcfg) (of_int 100), looptime) /\
  (m < getMotorCount e /\ j < hcount ->
   notch f' a m j
   = biquadFilterInit (notch f a m j) (initFrequency min j) looptime
       (div (of_int qcfg) (of_int 100)) FILTER_NOTCH) /\
  (~ (m < getMotorCount e /\ j < hcount) -> notch f' a m j = notch f a m j) /\
  (forall a' m' j',
     In a' (range 0 XYZ_AXIS_COUNT) -> In m' (range 0 (getMotorCount e)) ->
     In j' (range 0 hcount) ->
     0 <= a' < XYZ_AXIS_COUNT /\ 0 <= m' < MAX_SUPPORTED_MOTORS /\
     0 <= j' < RPM_FILTER_MAXHARMONICS).
Proof.
  intros Hh Hmc (Ha & Hm & Hj). cbv zeta. unfold rpmNotchFilterInit, initCells.
  set (f0 := {| harmonics := uint8 hcount; minHz := uint8 min;
                q := div (of_int qcfg) (of_int 100); loopTime := looptime;
                notch := notch f |}).
  destruct (initBox_spec min looptime (range 0 hcount) (range 0 (getMotorCount e))
              (range 0 XYZ_AXIS_COUNT) (range_NoDup _ _) (range_NoDup _ _)
              (range_NoDup _ _) f0) as (Hs & Hin & Hout).
  cbv zeta in Hs, Hin, Hout. unfold RPM_FILTER_MAXHARMONICS in *.
  split; [|split; [|split]].
  - rewrite Hs. unfold settings, f0. cbn [harmonics minHz q loopTime].
    now rewrite (uint8_small hcount) by lia.
  - intros (Hmo & Hjh). rewrite Hin by (apply in_range; lia). reflexivity.
  - intros Hne. rewrite Hout; [reflexivity|].
    rewrite !in_range. intros (_ & Hmo & Hjh). apply Hne. lia.
  - intros a' m' j' Ha' Hm' Hj'. apply in_range in Ha', Hm', Hj'. lia.
Qed.

Lemma rpmNotchFilterInit_exact_witness :
  0 <= 3 <= RPM_FILTER_MAXHARMONICS /\
  getMotorCount (sampleEnv true) <= 8 /\
  (0 <= 2 < XYZ_AXIS_COUNT /\ 0 <= 3 < 8 /\ 0 <= 1 < RPM_FILTER_MAXHARMONICS) /\
  notch (rpmNotchFilterInit (ops := sampleOps) (sampleEnv true) zeroBank 3 100 500
           (of_int 125)) 2 3 1
  = biquadFilterInit (Ops := sampleOps) zeroBiquad (initFrequency 100 1) (of_int 125)
      (div (of_int 500) (of_int 100)) FILTER_NOTCH.
Proof.
  assert (Hh : 0 <= 3 <= RPM_FILTER_MAXHARMONICS) by (unfold RPM_FILTER_MAXHARMONICS; lia).
  assert (Hmc : getMotorCount (sampleEnv true) <= 8) by (cbn; lia).
  assert (Hcell : 0 <= 2 < XYZ_AXIS_COUNT /\ 0 <= 3 < 8 /\ 0 <= 1 < RPM_FILTER_MAXHARMONICS)
    by (unfold XYZ_AXIS_COUNT, RPM_FILTER_MAXHARMONICS; lia).
  split; [exact Hh|]. split; [exact Hmc|]. split; [exact Hcell|].
  destruct (rpmNotchFilterInit_exact (ops := sampleOps) 8 (sampleEnv true) zeroBank 3 100 500
              (of_int 125) 2 3 1 Hh Hmc Hcell) as (_ & Hin & _).
  apply Hin. cbn. lia.
Defined.

(** With telemetry on, [rpmFilterInit] hands out the entries of [filters]
    in order, first to the gyro bank and then to the D-term bank, to those
    that have harmonics, and counts them; the pointer of a bank without
    harmonics is not written, so after a second initialisation it still
    points where the first one left it. *)
Theorem init_bank_pointers {ops : Ops} e config st st' :
  RpmFilter.useDshotTelemetry e = true ->
  rpmFilterInit e config st = Some st' ->
  let gyro := negb (gyro_rpm_notch_harmonics config =? 0) in
  let dterm := negb (dterm_rpm_notch_harmonics config =? 0) in
  gyroFilter st' = (if gyro then Some 0 else gyroFilter st) /\
  dtermFilter st' = (if dterm then Some (if gyro then 1 else 0) else dtermFilter st) /\
  numberRpmNotchFilters st' = (if gyro then 1 else 0) + (if dterm then 1 else 0).
Proof.
  intros Hon Hinit. cbv zeta. unfold rpmFilterInit in Hinit.
  rewrite Hon in Hinit. cbn [negb] in Hinit.
  destruct (negb (gyro_rpm_notch_harmonics config =? 0));
    destruct (negb (dterm_rpm_notch_harmonics config =? 0));
    match type of Hinit with
    | bind ?m _ = _ => destruct m; [|discriminate]
    end; cbn [bind] in Hinit; injection Hinit as <-;
    cbn [gyroFilter dtermFilter numberRpmNotchFilters];
    repeat split.
Qed.

Lemma init_bank_pointers_witness :
  RpmFilter.useDshotTelemetry (sampleEnv true) = true /\
  exists st',
    rpmFilterInit (sampleEnv true) dtermOnlyConfig sampleState = Some st' /\
    gyroFilter st' = Some 0 /\ dtermFilter st' = Some 0 /\
    numberRpmNotchFilters st' = 1.
Proof.
  split; [reflexivity|].
  destruct (rpmFilterInit (ops := sampleOps) (sampleEnv true) dtermOnlyConfig sampleState)
    as [st'|] eqn:E.
  - exists st'. split; [reflexivity|].
    destruct (init_bank_pointers (ops := sampleOps) (sampleEnv true) dtermOnlyConfig
                sampleState st' eq_refl E) as (Hg & Hd & Hn).
    split; [exact Hg|]. split; [exact Hd|exact Hn].
  - exfalso.
    assert (H : match rpmFilterInit (ops := sampleOps) (sampleEnv true)
                        dtermOnlyConfig sampleState with
                | Some _ => true
                | None => false
                end = true) by (vm_compute; reflexivity).
    rewrite E in H. discriminate.
Defined.

(** * The notches a call leaves alone *)

Section Untouched.
Context {ops : Ops}.

Lemma updateCells_untouched e k a m h n : forall st,
  ~ In (k, m, h) (visited n e st) ->
  notch (filters (updateCells n e st) k) a m h = notch (filters st k) a m h.
Proof.
  induction n as [|n IH]; intros st Hnin; [reflexivity|].
  cbn [updateCells visited] in *.
  rewrite IH by (intros H; apply Hnin; now right).
  unfold updateCell. rewrite advance_filters.
  apply recompute_cell. intros E. apply Hnin. now left.
Qed.

(** From a cursor on the table, with a table that fits the arrays, a call
    of [rpmFilterUpdate] writes inside the arrays, and only the notches of
    the cells it visits: the notch of any other bank, motor and harmonic of
    the arrays is the same after the call, on every axis. *)
Theorem update_touches_visited_only MAX_SUPPORTED_MOTORS e t st k a m h :
  scheduled e st -> fits MAX_SUPPORTED_MOTORS (geometryOf e st) ->
  inArray MAX_SUPPORTED_MOTORS (k, m, h) -> 0 <= a < XYZ_AXIS_COUNT ->
  ~ In (k, m, h) (visitedByCall e t st) ->
  (forall c, In c (visitedByCall e t st) -> inArray MAX_SUPPORTED_MOTORS c) /\
  notch (filters (rpmFilterUpdate e t st) k) a m h = notch (filters st k) a m h.
Proof.
  intros Hs Hfits _ _ Hnin.
  split; [exact (visitedByCall_inArray _ e t st Hs Hfits)|].
  unfold visitedByCall in Hnin. unfold rpmFilterUpdate.
  destruct (smoothErpm_frame e t st) as (Hf & _). cbv zeta in Hf.
  destruct (gyroFilter st), (dtermFilter st);
    try (rewrite (updateCells_untouched e k a m h _ _ Hnin); now rewrite Hf).
  reflexivity.
Qed.

End Untouched.

Lemma update_touches_visited_only_witness :
  scheduled (sampleEnv true) sampleState /\
  fits 8 (geometryOf (sampleEnv true) sampleState) /\
  inArray 8 (1, 0, 0) /\ 0 <= 0 < XYZ_AXIS_COUNT /\
  ~ In (1, 0, 0) (visitedByCall (sampleEnv true) (fun _ => 100) sampleState) /\
  notch (filters (rpmFilterUpdate (sampleEnv true) (fun _ => 100) sampleState) 1) 0 0 0
  = notch (filters sampleState 1) 0 0 0.
Proof.
  assert (H : ~ In (1, 0, 0) (visitedByCall (sampleEnv true) (fun _ => 100) sampleState)).
  { assert (E : visitedByCall (sampleEnv true) (fun _ => 100) sampleState
                = [(0, 0, 0); (0, 0, 1)]) by (vm_compute; reflexivity).
    rewrite E. intros [H|[H|[]]]; discriminate. }
  assert (Hin : inArray 8 (1, 0, 0)) by (unfold inArray, RPM_FILTER_MAXHARMONICS; lia).
  assert (Haxis : 0 <= 0 < XYZ_AXIS_COUNT) by (unfold XYZ_AXIS_COUNT; lia).
  split; [exact sampleState_scheduled|]. split; [exact sampleState_fits|].
  split; [exact Hin|]. split; [exact Haxis|]. split; [exact H|].
  destruct (update_touches_visited_only (ops := sampleOps) 8 (sampleEnv true) (fun _ => 100)
              sampleState 1 0 0 0 sampleState_scheduled sampleState_fits Hin Haxis H)
    as [_ Hnotch].
  exact Hnotch.
Defined.
